(** * PlanarAlly client: shapes, ownership and obstruction bookkeeping

    A shallow embedding of [client/src/game/shapes/shape.ts] (class [Shape])
    and of the inbound ["remove shape"] socket handler, together with the
    properties the specification states about them.

    Conventions.
    - A TypeScript [number] is an IEEE-754 double: Rocq's primitive [float].
      The operations modelled here store and copy numbers, and compare
      them where a number is used as the key of a [Map].
    - Arrays are lists; [indexOf]/[findIndex] return [-1] on a miss, as in
      JavaScript, and are therefore [Z]-valued.
    - A [Map] is an association list in insertion order; its keys and
      values are JSON values or [undefined].
    - Calls into collaborators that are outside this model (socket, layer
      manager redraws, triangulation) are recorded in a trace of [Effect]s.
    - Every method takes the receiver [this] and the session state [Env]
      and returns the new receiver and the new session state. *)

From Stdlib Require Import ZArith Ascii Floats.PrimFloat.
From stdpp Require Import base option list strings gmap.

Local Open Scope Z_scope.

(** ** JavaScript array primitives *)

Section js_arrays.
Context {A : Type}.

(** [Array.prototype.findIndex]: position of the first element satisfying
    [p], [-1] when there is none. *)
Fixpoint findIndex (p : A → bool) (l : list A) : Z :=
  match l with
  | [] => -1
  | x :: l' =>
      if p x then 0
      else let i := findIndex p l' in if i <? 0 then -1 else i + 1
  end.

(** [Array.prototype.splice(i, 1)]: removes one element at position [i].
    A negative [i] counts from the end (clamped at the front); a position
    past the end removes nothing. *)
Definition splice1 (i : Z) (l : list A) : list A :=
  let start := if i <? 0 then Z.max (Z.of_nat (length l) + i) 0 else i in
  delete (Z.to_nat start) l.

(** [Array.prototype.push]. *)
Definition push (x : A) (l : list A) : list A := l ++ [x].

(** [Array.prototype.some]. *)
Definition some (p : A → bool) (l : list A) : bool := existsb p l.

End js_arrays.

(** [Array.prototype.indexOf] on an array of strings (strict equality). *)
Definition indexOf (x : string) (l : list string) : Z :=
  findIndex (λ y, bool_decide (y = x)) l.

(** [Array.prototype.includes] on an array of strings. *)
Definition includes (x : string) (l : list string) : bool :=
  bool_decide (x ∈ l).

(** Truthiness of an optional boolean property ([undefined] is falsy). *)
Definition truthy (o : option bool) : bool := default false o.

(** Truthiness of an optional string ([undefined] and [""] are falsy). *)
Definition truthy_string (o : option string) : bool :=
  match o with
  | Some s => negb (bool_decide (s = ""))
  | None => false
  end.

(** ** Access grants and owners ([./owners]) *)

(** [ShapeAccess]. *)
Record ShapeAccess := mkShapeAccess {
  edit : bool;
  movement : bool;
  vision : bool;
}.

(** [Partial<ShapeAccess>]: every property may be absent. *)
Record PartialShapeAccess := mkPartialShapeAccess {
  p_edit : option bool;
  p_movement : option bool;
  p_vision : option bool;
}.

(** [ShapeOwner]. *)
Record ShapeOwner := mkShapeOwner {
  shape : string;
  user : string;
  access : ShapeAccess;
}.

(** [PartialBy<PartialShapeOwner, "shape">], the argument of [addOwner]. *)
Record NewOwner := mkNewOwner {
  n_shape : option string;
  n_user : string;
  n_access : PartialShapeAccess;
}.

(** [PartialBy<ShapeOwner, "shape">], the argument of [updateOwner]. *)
Record OwnerUpdate := mkOwnerUpdate {
  u_shape : option string;
  u_user : string;
  u_access : ShapeAccess;
}.

(** Modelled from the spec: [ServerShapeAccess] of
    [@/game/comm/types/shapes] (absent from the sources), the wire form of an
    access triple.  Section 6 writes it [access:{edit,vision,movement}]. *)
Record ServerShapeAccess := mkServerShapeAccess {
  edit_access : bool;
  movement_access : bool;
  vision_access : bool;
}.

(** Modelled from the spec: [ServerShapeOwner] of
    [@/game/comm/types/shapes] (absent from the sources), the wire form of an
    owner entry: section 6 lists it as a user with its [edit], [vision] and
    [movement] values; the shape id travels with it, as the outbound owner
    events carry it. *)
Record ServerShapeOwner := mkServerShapeOwner {
  o_shape : string;
  o_user : string;
  o_access : ServerShapeAccess;
}.

(** Modelled from the spec: [accessToServer] of [@/game/comm/types/shapes]
    (absent from the sources).  Section 4.1 requires
    [toWireFormat(fromWireFormat(x)) == x] "for all fields defined in §6",
    the owners and the default access triple among them: each of the three
    values of a grant is written as it is held. *)
Definition accessToServer (a : ShapeAccess) : ServerShapeAccess :=
  {| edit_access := edit a; movement_access := movement a;
     vision_access := vision a |}.

(** Modelled from the spec: the inverse, which [ownerToClient] applies to
    the access values of an entry.  By the same round-trip requirement of
    section 4.1 each of the three values is held as it was written. *)
Definition accessToClient (a : ServerShapeAccess) : ShapeAccess :=
  {| edit := edit_access a; movement := movement_access a;
     vision := vision_access a |}.

(** Modelled from the spec: [ownerToServer] of [@/game/comm/types/shapes]
    (absent from the sources) gives the wire form of an owner entry, which
    section 6 lists as "`owners`(list of {user, access:{edit,vision,movement}})":
    the user and the three values of the grant, each as it is held. *)
Definition ownerToServer (o : ShapeOwner) : ServerShapeOwner :=
  {| o_shape := shape o; o_user := user o;
     o_access := accessToServer (access o) |}.

(** Modelled from the spec: [ownerToClient] of [@/game/comm/types/shapes]
    (absent from the sources) reads an owner entry from its wire form
    "{user, access:{edit,vision,movement}}" (section 6).  Section 4.1
    requires that writing the entry again gives the payload's entry back
    ("[toWireFormat(fromWireFormat(x)) == x] for all fields defined in §6"):
    the entry holds the user and the three values that the payload
    carries. *)
Definition ownerToClient (o : ServerShapeOwner) : ShapeOwner :=
  {| shape := o_shape o; user := o_user o;
     access := accessToClient (o_access o) |}.

(** ** Auras *)

(** Modelled from the spec: the [Aura] type (its declaration is absent
    from the sources).  Section 3: radius-like value fields, the
    [visionSource] flag and an id; [shape.ts] reads [uuid], [visionSource],
    [value] and [dim]. *)
Record Aura := mkAura {
  aura_uuid : string;
  visionSource : bool;
  value : float;
  dim : float;
}.

(** Modelled from the spec: [ServerAura] (absent from the sources), the
    wire form of an aura, with the same four fields under their wire
    names. *)
Record ServerAura := mkServerAura {
  a_uuid : string;
  vision_source : bool;
  a_value : float;
  a_dim : float;
}.

(** Modelled from the spec: [aurasToServer] of
    [@/game/comm/conversion/aura] (absent from the sources) converts each
    aura to its wire form, field by field. *)
Definition aurasToServer (auras : list Aura) : list ServerAura :=
  map (λ a, {| a_uuid := aura_uuid a; vision_source := visionSource a;
               a_value := value a; a_dim := dim a |}) auras.

(** Modelled from the spec: [aurasFromServer] of
    [@/game/comm/conversion/aura] (absent from the sources) converts each
    wire aura back, field by field. *)
Definition aurasFromServer (auras : list ServerAura) : list Aura :=
  map (λ a, {| aura_uuid := a_uuid a; visionSource := vision_source a;
               value := a_value a; dim := a_dim a |}) auras.

(** ** Values of the open [options] mapping *)

(** A JavaScript value as it survives [JSON.stringify]/[JSON.parse]. *)
#[local] Unset Elimination Schemes.
Inductive Json :=
| JNull
| JBool (b : bool)
| JNum (n : float)
| JStr (s : string)
| JArr (l : list Json)
| JObj (l : list (string * Json)).
#[local] Set Elimination Schemes.

(** A key or a value of a [Map], or an item read from an array: a JSON
    value, or [undefined] ([None]). *)
Definition JsValue := option Json.

(** [SameValueZero], the equality of [Map] keys: by value on [undefined],
    [null], booleans, numbers ([NaN] is the same as itself and [+0] the same
    as [-0]) and strings.  Arrays and objects are the same only if they are
    one object; the array and object keys met here come out of [JSON.parse],
    which builds each of them anew, so no two of them are the same. *)
Definition sameValueZero (a b : JsValue) : bool :=
  match a, b with
  | None, None => true
  | Some JNull, Some JNull => true
  | Some (JBool a), Some (JBool b) => Bool.eqb a b
  | Some (JNum a), Some (JNum b) => (is_nan a && is_nan b) || PrimFloat.eqb a b
  | Some (JStr a), Some (JStr b) => bool_decide (a = b)
  | _, _ => false
  end.

(** The [options] of a shape, declared [Map<string, any>]: entries in
    insertion order.  The declared key type is not checked when the map is
    built from a payload, so an entry can have any key. *)
Definition JsMap := list (JsValue * JsValue).

(** The entry of a string key with a value. *)
Definition entry (k : string) (v : Json) : JsValue * JsValue :=
  (Some (JStr k), Some v).

(** [Map.prototype.get] for a string key: the value of the entry with that
    key, [undefined] when there is none. *)
Fixpoint Map_get (k : string) (m : JsMap) : option Json :=
  match m with
  | [] => None
  | (k', v) :: m' =>
      if sameValueZero k' (Some (JStr k)) then v else Map_get k m'
  end.

(** [Map.prototype.has] for a string key. *)
Definition Map_has (k : string) (m : JsMap) : bool :=
  some (λ e, sameValueZero e.1 (Some (JStr k))) m.

(** [Map.prototype.set]: an entry with the same key keeps its key and its
    position and gets the value; otherwise the entry is appended, a key
    [-0] as [+0]. *)
Fixpoint Map_set (k v : JsValue) (m : JsMap) : JsMap :=
  match m with
  | [] =>
      [(match k with
        | Some (JNum n) => if PrimFloat.eqb n 0 then Some (JNum 0) else k
        | _ => k
        end, v)]
  | (k', v') :: m' =>
      if sameValueZero k' k then (k', v) :: m'
      else (k', v') :: Map_set k v m'
  end.

(** [new Map(entries)] for the entries an iterable yields. *)
Definition Map_of_entries (entries : list (JsValue * JsValue)) : JsMap :=
  fold_left (λ m kv, Map_set kv.1 kv.2 m) entries [].

(** ** Session state *)

(** The part of [gameStore] that [shape.ts] reads and writes (the store
    itself is outside the sources; [activeTokens] is taken as a field). *)
Record GameStore := mkGameStore {
  IS_DM : bool;
  FAKE_PLAYER : bool;
  username : string;
  ownedtokens : list string;
  activeTokens : list string;
}.

Inductive TriangulationTarget := VISION | MOVEMENT.

#[global] Instance TriangulationTarget_eq_dec : EqDecision TriangulationTarget.
Proof. solve_decision. Defined.

(** An entry of a floor's vision-source registry. *)
Record VisionSource := mkVisionSource {
  vs_shape : string;
  vs_aura : string;
}.

(** Payloads of the outbound socket events. *)
Inductive Payload :=
| OwnerPayload (o : ServerShapeOwner)
| DefaultAccessPayload (a : ServerShapeAccess) (shape : string).

(** Calls into collaborators outside this model, in call order. *)
Inductive Effect :=
| Emit (event : string) (data : Payload)
| InvalidateLightAllFloors
| AddToTriag (target : TriangulationTarget) (shape : string)
| DeleteFromTriag (target : TriangulationTarget) (shape : string)
| RecalculateVision (floor : string)
| RecalculateMovement (floor : string)
| UpdateShapePoints (shape : string)
| ConsoleLog (message : string).

(** ** The shape entity *)

Record GlobalPoint := mkGlobalPoint { x : float; y : float }.

Section shape.
Set Default Proof Using "Type".
(** Trackers and labels are opaque sub-records that the shape only carries. *)
Context {Tracker Label : Type}.

(** The fields of [class Shape], in declaration order.  [type] is the
    abstract [type] of the concrete subclass.  [_floor] and [_layer] are
    definite-assignment fields, unset until [setLayer] or [fromDict] runs;
    the model holds the empty string until then. *)
Record Shape := mkShape {
  type : string;
  uuid : string;
  _floor : string;
  _layer : string;
  preventSync : bool;
  _refPoint : GlobalPoint;
  _angle : float;
  fillColour : string;
  strokeColour : string;
  strokeWidth : float;
  name : string;
  nameVisible : bool;
  trackers : list Tracker;
  auras : list Aura;
  labels : list Label;
  _owners : list ShapeOwner;
  visionObstruction : bool;
  movementObstruction : bool;
  isToken : bool;
  isInvisible : bool;
  showHighlight : bool;
  annotation : string;
  globalCompositeOperation : string;
  options : JsMap;
  badge : float;
  showBadge : bool;
  isLocked : bool;
  defaultAccess : ShapeAccess;
}.

(** *** Field assignments [this.f = v] *)

(** [this._floor = v] *)
Definition set_floor (v : string) (this : Shape) : Shape :=
  {| type := type this;
     uuid := uuid this;
     _floor := v;
     _layer := _layer this;
     preventSync := preventSync this;
     _refPoint := _refPoint this;
     _angle := _angle this;
     fillColour := fillColour this;
     strokeColour := strokeColour this;
     strokeWidth := strokeWidth this;
     name := name this;
     nameVisible := nameVisible this;
     trackers := trackers this;
     auras := auras this;
     labels := labels this;
     _owners := _owners this;
     visionObstruction := visionObstruction this;
     movementObstruction := movementObstruction this;
     isToken := isToken this;
     isInvisible := isInvisible this;
     showHighlight := showHighlight this;
     annotation := annotation this;
     globalCompositeOperation := globalCompositeOperation this;
     options := options this;
     badge := badge this;
     showBadge := showBadge this;
     isLocked := isLocked this;
     defaultAccess := defaultAccess this |}.

(** [this._layer = v] *)
Definition set_layer (v : string) (this : Shape) : Shape :=
  {| type := type this;
     uuid := uuid this;
     _floor := _floor this;
     _layer := v;
     preventSync := preventSync this;
     _refPoint := _refPoint this;
     _angle := _angle this;
     fillColour := fillColour this;
     strokeColour := strokeColour this;
     strokeWidth := strokeWidth this;
     name := name this;
     nameVisible := nameVisible this;
     trackers := trackers this;
     auras := auras this;
     labels := labels this;
     _owners := _owners this;
     visionObstruction := visionObstruction this;
     movementObstruction := movementObstruction this;
     isToken := isToken this;
     isInvisible := isInvisible this;
     showHighlight := showHighlight this;
     annotation := annotation this;
     globalCompositeOperation := globalCompositeOperation this;
     options := options this;
     badge := badge this;
     showBadge := showBadge this;
     isLocked := isLocked this;
     defaultAccess := defaultAccess this |}.

(** [this.strokeWidth = v] *)
Definition set_strokeWidth (v : float) (this : Shape) : Shape :=
  {| type := type this;
     uuid := uuid this;
     _floor := _floor this;
     _layer := _layer this;
     preventSync := preventSync this;
     _refPoint := _refPoint this;
     _angle := _angle this;
     fillColour := fillColour this;
     strokeColour := strokeColour this;
     strokeWidth := v;
     name := name this;
     nameVisible := nameVisible this;
     trackers := trackers this;
     auras := auras this;
     labels := labels this;
     _owners := _owners this;
     visionObstruction := visionObstruction this;
     movementObstruction := movementObstruction this;
     isToken := isToken this;
     isInvisible := isInvisible this;
     showHighlight := showHighlight this;
     annotation := annotation this;
     globalCompositeOperation := globalCompositeOperation this;
     options := options this;
     badge := badge this;
     showBadge := showBadge this;
     isLocked := isLocked this;
     defaultAccess := defaultAccess this |}.

(** [this.name = v] *)
Definition set_name (v : string) (this : Shape) : Shape :=
  {| type := type this;
     uuid := uuid this;
     _floor := _floor this;
     _layer := _layer this;
     preventSync := preventSync this;
     _refPoint := _refPoint this;
     _angle := _angle this;
     fillColour := fillColour this;
     strokeColour := strokeColour this;
     strokeWidth := strokeWidth this;
     name := v;
     nameVisible := nameVisible this;
     trackers := trackers this;
     auras := auras this;
     labels := labels this;
     _owners := _owners this;
     visionObstruction := visionObstruction this;
     movementObstruction := movementObstruction this;
     isToken := isToken this;
     isInvisible := isInvisible this;
     showHighlight := showHighlight this;
     annotation := annotation this;
     globalCompositeOperation := globalCompositeOperation this;
     options := options this;
     badge := badge this;
     showBadge := showBadge this;
     isLocked := isLocked this;
     defaultAccess := defaultAccess this |}.

(** [this.auras = v] *)
Definition set_auras (v : list Aura) (this : Shape) : Shape :=
  {| type := type this;
     uuid := uuid this;
     _floor := _floor this;
     _layer := _layer this;
     preventSync := preventSync this;
     _refPoint := _refPoint this;
     _angle := _angle this;
     fillColour := fillColour this;
     strokeColour := strokeColour this;
     strokeWidth := strokeWidth this;
     name := name this;
     nameVisible := nameVisible this;
     trackers := trackers this;
     auras := v;
     labels := labels this;
     _owners := _owners this;
     visionObstruction := visionObstruction this;
     movementObstruction := movementObstruction this;
     isToken := isToken this;
     isInvisible := isInvisible this;
     showHighlight := showHighlight this;
     annotation := annotation this;
     globalCompositeOperation := globalCompositeOperation this;
     options := options this;
     badge := badge this;
     showBadge := showBadge this;
     isLocked := isLocked this;
     defaultAccess := defaultAccess this |}.

(** [this._owners = v] *)
Definition set_owners (v : list ShapeOwner) (this : Shape) : Shape :=
  {| type := type this;
     uuid := uuid this;
     _floor := _floor this;
     _layer := _layer this;
     preventSync := preventSync this;
     _refPoint := _refPoint this;
     _angle := _angle this;
     fillColour := fillColour this;
     strokeColour := strokeColour this;
     strokeWidth := strokeWidth this;
     name := name this;
     nameVisible := nameVisible this;
     trackers := trackers this;
     auras := auras this;
     labels := labels this;
     _owners := v;
     visionObstruction := visionObstruction this;
     movementObstruction := movementObstruction this;
     isToken := isToken this;
     isInvisible := isInvisible this;
     showHighlight := showHighlight this;
     annotation := annotation this;
     globalCompositeOperation := globalCompositeOperation this;
     options := options this;
     badge := badge this;
     showBadge := showBadge this;
     isLocked := isLocked this;
     defaultAccess := defaultAccess this |}.

(** [this.visionObstruction = v] *)
Definition set_visionObstruction (v : bool) (this : Shape) : Shape :=
  {| type := type this;
     uuid := uuid this;
     _floor := _floor this;
     _layer := _layer this;
     preventSync := preventSync this;
     _refPoint := _refPoint this;
     _angle := _angle this;
     fillColour := fillColour this;
     strokeColour := strokeColour this;
     strokeWidth := strokeWidth this;
     name := name this;
     nameVisible := nameVisible this;
     trackers := trackers this;
     auras := auras this;
     labels := labels this;
     _owners := _owners this;
     visionObstruction := v;
     movementObstruction := movementObstruction this;
     isToken := isToken this;
     isInvisible := isInvisible this;
     showHighlight := showHighlight this;
     annotation := annotation this;
     globalCompositeOperation := globalCompositeOperation this;
     options := options this;
     badge := badge this;
     showBadge := showBadge this;
     isLocked := isLocked this;
     defaultAccess := defaultAccess this |}.

(** [this.movementObstruction = v] *)
Definition set_movementObstruction (v : bool) (this : Shape) : Shape :=
  {| type := type this;
     uuid := uuid this;
     _floor := _floor this;
     _layer := _layer this;
     preventSync := preventSync this;
     _refPoint := _refPoint this;
     _angle := _angle this;
     fillColour := fillColour this;
     strokeColour := strokeColour this;
     strokeWidth := strokeWidth this;
     name := name this;
     nameVisible := nameVisible this;
     trackers := trackers this;
     auras := auras this;
     labels := labels this;
     _owners := _owners this;
     visionObstruction := visionObstruction this;
     movementObstruction := v;
     isToken := isToken this;
     isInvisible := isInvisible this;
     showHighlight := showHighlight this;
     annotation := annotation this;
     globalCompositeOperation := globalCompositeOperation this;
     options := options this;
     badge := badge this;
     showBadge := showBadge this;
     isLocked := isLocked this;
     defaultAccess := defaultAccess this |}.

(** [this.options = v] *)
Definition set_options (v : JsMap) (this : Shape) : Shape :=
  {| type := type this;
     uuid := uuid this;
     _floor := _floor this;
     _layer := _layer this;
     preventSync := preventSync this;
     _refPoint := _refPoint this;
     _angle := _angle this;
     fillColour := fillColour this;
     strokeColour := strokeColour this;
     strokeWidth := strokeWidth this;
     name := name this;
     nameVisible := nameVisible this;
     trackers := trackers this;
     auras := auras this;
     labels := labels this;
     _owners := _owners this;
     visionObstruction := visionObstruction this;
     movementObstruction := movementObstruction this;
     isToken := isToken this;
     isInvisible := isInvisible this;
     showHighlight := showHighlight this;
     annotation := annotation this;
     globalCompositeOperation := globalCompositeOperation this;
     options := v;
     badge := badge this;
     showBadge := showBadge this;
     isLocked := isLocked this;
     defaultAccess := defaultAccess this |}.

(** [this.defaultAccess = v] *)
Definition set_defaultAccess (v : ShapeAccess) (this : Shape) : Shape :=
  {| type := type this;
     uuid := uuid this;
     _floor := _floor this;
     _layer := _layer this;
     preventSync := preventSync this;
     _refPoint := _refPoint this;
     _angle := _angle this;
     fillColour := fillColour this;
     strokeColour := strokeColour this;
     strokeWidth := strokeWidth this;
     name := name this;
     nameVisible := nameVisible this;
     trackers := trackers this;
     auras := auras this;
     labels := labels this;
     _owners := _owners this;
     visionObstruction := visionObstruction this;
     movementObstruction := movementObstruction this;
     isToken := isToken this;
     isInvisible := isInvisible this;
     showHighlight := showHighlight this;
     annotation := annotation this;
     globalCompositeOperation := globalCompositeOperation this;
     options := options this;
     badge := badge this;
     showBadge := showBadge this;
     isLocked := isLocked this;
     defaultAccess := v |}.

(** [setLayer(floor, layer)]. *)
Definition setLayer (floor layer : string) (this : Shape) : Shape :=
  set_layer layer (set_floor floor this).

(** The constructor.  [fresh] is the id that [uuidv4()] would draw, used
    when no id (or an empty one) is supplied; [type] is fixed by the
    concrete subclass. *)
Definition new_Shape (type : string) (refPoint : GlobalPoint)
    (fillColour strokeColour uuid : option string) (fresh : string) : Shape :=
  {| type := type;
     uuid := if truthy_string uuid then default fresh uuid else fresh;
     _floor := "";
     _layer := "";
     preventSync := false;
     _refPoint := refPoint;
     _angle := 0%float;
     fillColour := default "#000" fillColour;
     strokeColour := default "rgba(0,0,0,0)" strokeColour;
     strokeWidth := 5%float;
     name := "Unknown shape";
     nameVisible := true;
     trackers := [];
     auras := [];
     labels := [];
     _owners := [];
     visionObstruction := false;
     movementObstruction := false;
     isToken := false;
     isInvisible := false;
     showHighlight := false;
     annotation := "";
     globalCompositeOperation := "source-over";
     options := [];
     badge := 1%float;
     showBadge := false;
     isLocked := false;
     defaultAccess := {| edit := false; movement := false; vision := false |} |}.

(** ** The wire payload of a shape ([ServerShape]) *)

(** The object literal built by [getBaseDict] fixes the fields; [annotation]
    and [options] are optional on the wire. *)
Record ServerShape := mkServerShape {
  d_type_ : string;
  d_uuid : string;
  d_x : float;
  d_y : float;
  d_angle : float;
  d_floor : string;
  d_layer : string;
  d_draw_operator : string;
  d_movement_obstruction : bool;
  d_vision_obstruction : bool;
  d_auras : list ServerAura;
  d_trackers : list Tracker;
  d_labels : list Label;
  d_owners : list ServerShapeOwner;
  d_fill_colour : string;
  d_stroke_colour : string;
  d_stroke_width : float;
  d_name : string;
  d_name_visible : bool;
  d_annotation : option string;
  d_is_token : bool;
  d_is_invisible : bool;
  d_options : option string;
  d_badge : float;
  d_show_badge : bool;
  d_is_locked : bool;
  d_default_edit_access : bool;
  d_default_movement_access : bool;
  d_default_vision_access : bool;
}.

(** ** Session state shared by all shapes *)

(** [gameStore], the [fowLos] game setting, the per-floor blocker arrays and
    vision-source registry of the visibility store, the layer manager's
    [UUIDMap], and the trace of calls into collaborators. *)
Record Env := mkEnv {
  gameStore : GameStore;
  fowLos : bool;
  visionBlockers : gmap string (list string);
  movementBlockers : gmap string (list string);
  visionSources : gmap string (list VisionSource);
  UUIDMap : gmap string Shape;
  effects : list Effect;
}.

Definition set_gameStore (v : GameStore) (env : Env) : Env :=
  {| gameStore := v; fowLos := fowLos env;
     visionBlockers := visionBlockers env;
     movementBlockers := movementBlockers env;
     visionSources := visionSources env; UUIDMap := UUIDMap env;
     effects := effects env |}.

Definition set_visionBlockers (v : gmap string (list string)) (env : Env) : Env :=
  {| gameStore := gameStore env; fowLos := fowLos env;
     visionBlockers := v;
     movementBlockers := movementBlockers env;
     visionSources := visionSources env; UUIDMap := UUIDMap env;
     effects := effects env |}.

Definition set_movementBlockers (v : gmap string (list string)) (env : Env) : Env :=
  {| gameStore := gameStore env; fowLos := fowLos env;
     visionBlockers := visionBlockers env;
     movementBlockers := v;
     visionSources := visionSources env; UUIDMap := UUIDMap env;
     effects := effects env |}.

Definition set_visionSources (v : gmap string (list VisionSource)) (env : Env) : Env :=
  {| gameStore := gameStore env; fowLos := fowLos env;
     visionBlockers := visionBlockers env;
     movementBlockers := movementBlockers env;
     visionSources := v; UUIDMap := UUIDMap env;
     effects := effects env |}.

(** A call into a collaborator: appended to the trace. *)
Definition perform (e : Effect) (env : Env) : Env :=
  {| gameStore := gameStore env; fowLos := fowLos env;
     visionBlockers := visionBlockers env;
     movementBlockers := movementBlockers env;
     visionSources := visionSources env; UUIDMap := UUIDMap env;
     effects := effects env ++ [e] |}.

(** [if (c) e] for an effect. *)
Definition perform_if (c : bool) (e : Effect) (env : Env) : Env :=
  if c then perform e env else env.

(** [gameStore.ownedtokens = v] (the array is mutated in place). *)
Definition set_ownedtokens (v : list string) (env : Env) : Env :=
  set_gameStore
    {| IS_DM := IS_DM (gameStore env); FAKE_PLAYER := FAKE_PLAYER (gameStore env);
       username := username (gameStore env); ownedtokens := v;
       activeTokens := activeTokens (gameStore env) |} env.

(** The helpers of [@/game/visibility/utils] are absent from the sources.
    Section 4.3 fixes what they work on: per floor, one ordered collection of
    shape ids per target and a registry of (shape, aura) pairs. *)

(** The blocker arrays of a target, by floor. *)
Definition blockers_of (target : TriangulationTarget) (env : Env)
    : gmap string (list string) :=
  match target with
  | VISION => visionBlockers env
  | MOVEMENT => movementBlockers env
  end.

(** Modelled from the spec: [getBlockers(target, floor)] of
    [@/game/visibility/utils] (absent from the sources) gives the blocker
    array of a floor; a floor without an entry has none. *)
Definition getBlockers (target : TriangulationTarget) (floor : string)
    (env : Env) : list string :=
  default [] (blockers_of target env !! floor).

(** The blocker array of a floor replaced by [blockers]: the write that
    [addBlocker] and [sliceBlockers] amount to. *)
Definition setBlockers (target : TriangulationTarget) (floor : string)
    (blockers : list string) (env : Env) : Env :=
  match target with
  | VISION => set_visionBlockers (<[floor := blockers]> (visionBlockers env)) env
  | MOVEMENT => set_movementBlockers (<[floor := blockers]> (movementBlockers env)) env
  end.

(** Modelled from the spec: [addBlocker(target, blocker, floor)] of
    [@/game/visibility/utils] (absent from the sources) appends an id to the
    blocker array of a floor. *)
Definition addBlocker (target : TriangulationTarget) (blocker floor : string)
    (env : Env) : Env :=
  setBlockers target floor (push blocker (getBlockers target floor env)) env.

(** Modelled from the spec: [sliceBlockers(target, index, floor)] of
    [@/game/visibility/utils] (absent from the sources) removes the id at
    [index] from the blocker array of a floor. *)
Definition sliceBlockers (target : TriangulationTarget) (index : Z)
    (floor : string) (env : Env) : Env :=
  setBlockers target floor (splice1 index (getBlockers target floor env)) env.

(** Modelled from the spec: [getVisionSources(floor)] of
    [@/game/visibility/utils] (absent from the sources) gives the
    vision-source registry of a floor. *)
Definition getVisionSources (floor : string) (env : Env) : list VisionSource :=
  default [] (visionSources env !! floor).

(** Modelled from the spec: [setVisionSources(sources, floor)] of
    [@/game/visibility/utils] (absent from the sources) replaces the
    vision-source registry of a floor. *)
Definition setVisionSources (sources : list VisionSource) (floor : string)
    (env : Env) : Env :=
  set_visionSources (<[floor := sources]> (visionSources env)) env.

(** ** Obstruction bookkeeping *)

(** First loop of [checkVisionSources]: one aura against the working copy
    of the registry. *)
Definition reconcileAura (this : Shape) (visionSources : list VisionSource)
    (au : Aura) : list VisionSource :=
  let i := findIndex (λ o, bool_decide (vs_aura o = aura_uuid au)) visionSources in
  if visionSource au && (i =? -1) then
    push {| vs_shape := uuid this; vs_aura := aura_uuid au |} visionSources
  else if negb (visionSource au) && (0 <=? i) then
    splice1 i visionSources
  else visionSources.

(** Is the registry entry [ls] still backed by an aura of the shape that is
    a vision source? *)
Definition backed (this : Shape) (ls : VisionSource) : bool :=
  some (λ a, bool_decide (aura_uuid a = vs_aura ls) && visionSource a) (auras this).

(** Second loop of [checkVisionSources],
    [for (let i = n - 1; i >= 0; i--)], started with [n] the length of the
    working copy: entries of this shape that are no longer backed are
    spliced out.  The index is always in range, since splicing at [i] leaves
    the positions below [i] in place. *)
Fixpoint dropStale (this : Shape) (n : nat) (visionSources : list VisionSource)
    : list VisionSource :=
  match n with
  | O => visionSources
  | S i =>
      let visionSources :=
        match visionSources !! i with
        | Some ls =>
            if bool_decide (vs_shape ls = uuid this) && negb (backed this ls)
            then splice1 (Z.of_nat i) visionSources
            else visionSources
        | None => visionSources
        end in
      dropStale this i visionSources
  end.

(** [checkVisionSources(recalculate)]. *)
Definition checkVisionSources (recalculate : bool) (this : Shape) (env : Env)
    : bool * Env :=
  let visionBlockers := getBlockers VISION (_floor this) env in
  let obstructionIndex := indexOf (uuid this) visionBlockers in
  let '(alteredVision, env) :=
    if visionObstruction this && (obstructionIndex =? -1) then
      let env := addBlocker VISION (uuid this) (_floor this) env in
      let env := perform_if recalculate (AddToTriag VISION (uuid this)) env in
      (true, env)
    else if negb (visionObstruction this) && (0 <=? obstructionIndex) then
      let env := sliceBlockers VISION obstructionIndex (_floor this) env in
      let env := perform_if recalculate (DeleteFromTriag VISION (uuid this)) env in
      (true, env)
    else (false, env) in
  let env := perform_if (alteredVision && recalculate)
               (RecalculateVision (_floor this)) env in
  (* Check if the visionsource auras are in the gameManager *)
  let visionSources := getVisionSources (_floor this) env in
  let visionSources := fold_left (reconcileAura this) (auras this) visionSources in
  (* Check if anything in the gameManager referencing this shape is in fact
     still a visionsource *)
  let visionSources := dropStale this (length visionSources) visionSources in
  (alteredVision, setVisionSources visionSources (_floor this) env).

(** [setMovementBlock(blocksMovement, recalculate)]. *)
Definition setMovementBlock (blocksMovement recalculate : bool) (this : Shape)
    (env : Env) : bool * Shape * Env :=
  let this := set_movementObstruction (blocksMovement || false) this in
  let movementBlockers := getBlockers MOVEMENT (_floor this) env in
  let obstructionIndex := indexOf (uuid this) movementBlockers in
  let '(alteredMovement, env) :=
    if movementObstruction this && (obstructionIndex =? -1) then
      let env := addBlocker MOVEMENT (uuid this) (_floor this) env in
      let env := perform_if recalculate (AddToTriag MOVEMENT (uuid this)) env in
      (true, env)
    else if negb (movementObstruction this) && (0 <=? obstructionIndex) then
      let env := sliceBlockers MOVEMENT obstructionIndex (_floor this) env in
      let env := perform_if recalculate (DeleteFromTriag MOVEMENT (uuid this)) env in
      (true, env)
    else (false, env) in
  let env := perform_if (alteredMovement && recalculate)
               (RecalculateMovement (_floor this)) env in
  (alteredMovement, this, env).

(** ** Ownership *)

(** The argument of [ownedBy]:
    [Partial<{ editAccess; visionAccess; movementAccess }>]. *)
Record Capabilities := mkCapabilities {
  editAccess : option bool;
  visionAccess : option bool;
  movementAccess : option bool;
}.

(** [ownedBy(options)].  It reads the game store and the shape and writes
    nothing. *)
Definition ownedBy (options : Capabilities) (this : Shape) (gs : GameStore) : bool :=
  IS_DM gs
  || (FAKE_PLAYER gs && includes (uuid this) (activeTokens gs))
  || (truthy (editAccess options) && edit (defaultAccess this))
  || (truthy (movementAccess options) && movement (defaultAccess this))
  || (truthy (visionAccess options) && vision (defaultAccess this))
  || some
       (λ u,
          bool_decide (user u = username gs)
          && (if truthy (editAccess options) then edit (access u) else true)
          && (if truthy (movementAccess options) then movement (access u) else true)
          && (if truthy (visionAccess options) then vision (access u) else true))
       (_owners this).

(** [hasOwner(username)]. *)
Definition hasOwner (username : string) (this : Shape) : bool :=
  some (λ u, bool_decide (user u = username)) (_owners this).

(** [addOwner(owner, sync)].  The object spread
    [{ edit: false, vision: false, movement: false, ...owner.access }] turns
    an absent capability into [false]. *)
Definition addOwner (owner : NewOwner) (sync : bool) (this : Shape) (env : Env)
    : Shape * Env :=
  (* Force other permissions to true if edit access is granted *)
  let owner_access :=
    if truthy (p_edit (n_access owner)) then
      {| p_edit := p_edit (n_access owner); p_movement := Some true;
         p_vision := Some true |}
    else n_access owner in
  let fullOwner :=
    {| shape := default (uuid this) (n_shape owner);
       user := n_user owner;
       access := {| edit := default false (p_edit owner_access);
                    movement := default false (p_movement owner_access);
                    vision := default false (p_vision owner_access) |} |} in
  if negb (bool_decide (shape fullOwner = uuid this)) then (this, env)
  else if negb (hasOwner (n_user owner) this) then
    let this := set_owners (push fullOwner (_owners this)) this in
    let env :=
      if truthy (p_vision owner_access) && isToken this
         && bool_decide (n_user owner = username (gameStore env))
      then set_ownedtokens (push (uuid this) (ownedtokens (gameStore env))) env
      else env in
    let env := perform_if sync
                 (Emit "Shape.Owner.Add" (OwnerPayload (ownerToServer fullOwner))) env in
    let env := perform_if (fowLos env) InvalidateLightAllFloors env in
    (this, env)
  else (this, env).

(** [targetOwner.access = a] for the entry that
    [this._owners.find(o => o.user === user)] returns: the first one. *)
Fixpoint assignAccess (user' : string) (a : ShapeAccess) (owners : list ShapeOwner)
    : list ShapeOwner :=
  match owners with
  | [] => []
  | o :: owners' =>
      if bool_decide (user o = user')
      then {| shape := shape o; user := user o; access := a |} :: owners'
      else o :: assignAccess user' a owners'
  end.

(** [Object.values(access).some(a => !a)]. *)
Definition someOff (a : ShapeAccess) : bool :=
  some negb [edit a; movement a; vision a].

(** [updateOwner(owner, sync)].  [fullOwner] is a shallow copy of [owner],
    so [fullOwner.access] and [owner.access] are one object: the capabilities
    forced through [owner.access] are read back through [fullOwner.access]
    and stored. *)
Definition updateOwner (owner : OwnerUpdate) (sync : bool) (this : Shape)
    (env : Env) : Shape * Env :=
  let fullOwner_shape := default (uuid this) (u_shape owner) in
  if negb (bool_decide (fullOwner_shape = uuid this)) then (this, env)
  else if negb (hasOwner (u_user owner) this) then (this, env)
  else
    match find (λ o, bool_decide (user o = u_user owner)) (_owners this) with
    | None => (this, env)
    | Some targetOwner =>
        let fullOwner_access := u_access owner in
        let fullOwner_access :=
          if negb (edit (access targetOwner)) && edit fullOwner_access then
            (* Force other permissions to true if edit access is granted *)
            {| edit := edit fullOwner_access; movement := true; vision := true |}
          else fullOwner_access in
        let fullOwner_access :=
          if edit (access targetOwner) && someOff fullOwner_access then
            (* Force remove edit permission if a specific permission is
               toggled off *)
            {| edit := false; movement := movement fullOwner_access;
               vision := vision fullOwner_access |}
          else fullOwner_access in
        let env :=
          if negb (Bool.eqb (vision (access targetOwner)) (vision fullOwner_access))
             && bool_decide (user targetOwner = username (gameStore env))
          then
            let ownedIndex := indexOf (uuid this) (ownedtokens (gameStore env)) in
            if vision fullOwner_access then
              if ownedIndex =? -1
              then set_ownedtokens (push (uuid this) (ownedtokens (gameStore env))) env
              else env
            else
              if 0 <=? ownedIndex
              then set_ownedtokens (splice1 ownedIndex (ownedtokens (gameStore env))) env
              else env
          else env in
        let this :=
          set_owners (assignAccess (u_user owner) fullOwner_access (_owners this)) this in
        let fullOwner :=
          {| shape := fullOwner_shape; user := u_user owner;
             access := fullOwner_access |} in
        let env := perform_if sync
                     (Emit "Shape.Owner.Update" (OwnerPayload (ownerToServer fullOwner)))
                     env in
        let env := perform_if (fowLos env) InvalidateLightAllFloors env in
        (this, env)
    end.

(** [removeOwner(owner, sync)]. *)
Definition removeOwner (owner : string) (sync : bool) (this : Shape) (env : Env)
    : Shape * Env :=
  let ownerIndex := findIndex (λ o, bool_decide (user o = owner)) (_owners this) in
  if ownerIndex <? 0 then (this, env)
  else
    match _owners this !! Z.to_nat ownerIndex with
    | None => (this, env)
    | Some removed =>
        let this := set_owners (splice1 ownerIndex (_owners this)) this in
        let env :=
          if bool_decide (owner = username (gameStore env)) then
            let ownedIndex := indexOf (uuid this) (ownedtokens (gameStore env)) in
            if 0 <=? ownedIndex
            then set_ownedtokens (splice1 ownedIndex (ownedtokens (gameStore env))) env
            else env
          else env in
        let env := perform_if sync
                     (Emit "Shape.Owner.Delete" (OwnerPayload (ownerToServer removed)))
                     env in
        let env := perform_if (fowLos env) InvalidateLightAllFloors env in
        (this, env)
    end.

(** [updateDefaultOwner(access, sync)]. *)
Definition updateDefaultOwner (access : ShapeAccess) (sync : bool) (this : Shape)
    (env : Env) : Shape * Env :=
  let access :=
    if negb (edit (defaultAccess this)) && edit access then
      (* Force other permissions to true if edit access is granted *)
      {| edit := edit access; movement := true; vision := true |}
    else access in
  let access :=
    if edit (defaultAccess this) && someOff access then
      (* Force remove edit permission if a specific permission is toggled off *)
      {| edit := false; movement := movement access; vision := vision access |}
    else access in
  let this := set_defaultAccess access this in
  let ownedIndex := indexOf (uuid this) (ownedtokens (gameStore env)) in
  let env :=
    if vision (defaultAccess this) then
      if ownedBy {| editAccess := None; visionAccess := Some true;
                    movementAccess := None |} this (gameStore env)
         && (ownedIndex =? -1)
      then set_ownedtokens (push (uuid this) (ownedtokens (gameStore env))) env
      else env
    else
      if negb (ownedBy {| editAccess := None; visionAccess := Some true;
                          movementAccess := None |} this (gameStore env))
         && (0 <=? ownedIndex)
      then set_ownedtokens (splice1 ownedIndex (ownedtokens (gameStore env))) env
      else env in
  let env := perform_if (fowLos env) InvalidateLightAllFloors env in
  let env := perform_if sync
               (Emit "Shape.Owner.Default.Update"
                  (DefaultAccessPayload (accessToServer (defaultAccess this)) (uuid this)))
               env in
  (this, env).

(** ** Serialization *)

(** [[...this.options]] as [JSON.stringify] writes it: an array of
    [[key, value]] pairs, in which [undefined] is written as [null]. *)
Definition entriesToJson (m : JsMap) : Json :=
  JArr (map (λ e, JArr [default JNull e.1; default JNull e.2]) m).

(** The own property [name] of a parsed object; when the text repeats a
    name, the last one counts. *)
Definition property (name : string) (props : list (string * Json)) : JsValue :=
  snd <$> find (λ p, bool_decide (p.1 = name)) (rev props).

(** One item of the iterable handed to [new Map]: it must be an object, and
    the entry is made of its [0] and [1], each [undefined] when missing.  An
    item that is not an object makes the constructor raise a [TypeError]
    ([None]). *)
Definition entryOfJson (item : Json) : option (JsValue * JsValue) :=
  match item with
  | JArr l => Some (l !! 0%nat, l !! 1%nat)
  | JObj props => Some (property "0" props, property "1" props)
  | _ => None
  end.

(** The entries [new Map(v)] reads from a parsed value [v].  [null] gives
    an empty map.  An array is read item by item.  A string is iterated by
    characters, which are not objects: only the empty string passes, with no
    entry.  Numbers, booleans and plain objects are not iterable.  [None] is
    the [TypeError] of the constructor. *)
Definition entriesOfJson (v : Json) : option (list (JsValue * JsValue)) :=
  match v with
  | JNull => Some []
  | JArr items => mapM entryOfJson items
  | JStr s => if bool_decide (s = "") then Some [] else None
  | _ => None
  end.

(** The platform's [JSON.stringify] and [JSON.parse] ([None]: the parser
    raised a syntax error). *)
Variable JSON_stringify : Json → string.
Variable JSON_parse : string → option Json.

(** [getBaseDict()]. *)
Definition getBaseDict (this : Shape) : ServerShape :=
  {| d_type_ := type this;
     d_uuid := uuid this;
     d_x := x (_refPoint this);
     d_y := y (_refPoint this);
     d_angle := _angle this;
     d_floor := _floor this;
     d_layer := _layer this;
     d_draw_operator := globalCompositeOperation this;
     d_movement_obstruction := movementObstruction this;
     d_vision_obstruction := visionObstruction this;
     d_auras := aurasToServer (auras this);
     d_trackers := trackers this;
     d_labels := labels this;
     d_owners := map ownerToServer (_owners this);
     d_fill_colour := fillColour this;
     d_stroke_colour := strokeColour this;
     d_stroke_width := strokeWidth this;
     d_name := name this;
     d_name_visible := nameVisible this;
     d_annotation := Some (annotation this);
     d_is_token := isToken this;
     d_is_invisible := isInvisible this;
     d_options := Some (JSON_stringify (entriesToJson (options this)));
     d_badge := badge this;
     d_show_badge := showBadge this;
     d_is_locked := isLocked this;
     d_default_edit_access := edit (defaultAccess this);
     d_default_movement_access := movement (defaultAccess this);
     d_default_vision_access := vision (defaultAccess this) |}.

(** [new Map(JSON.parse(text))]. *)
Definition parseOptions (text : string) : option JsMap :=
  match JSON_parse text with
  | Some v =>
      match entriesOfJson v with
      | Some entries => Some (Map_of_entries entries)
      | None => None
      end
  | None => None
  end.

(** The layer class is outside this model. *)
Context {Layer : Type}.

(** The getter [layer] of a shape placed on [floor] and [layer]:
    [layerManager.getLayer(layerManager.getFloor(floor)!, layer)!].  The
    layer manager ([@/game/layers/manager]) is absent from the sources, so
    the lookup is a parameter.  [None] stands for a lookup that comes back
    [undefined] or raises because the floor is [undefined]: the non-null
    assertions check nothing at run time, and the method call on the result
    raises a [TypeError]. *)
Variable LayerManager_getLayer : string → string → option Layer.

(** [fromDict(data)].  The setter of [angle] calls [updatePoints()], that is
    [this.layer.updateShapePoints(this)], when [_layer] and [_floor] already
    hold the payload's values: the call is recorded in the trace when the
    layer manager knows that layer and raises otherwise.  The result is
    [None] when that call raises and when [JSON.parse] or [new Map] raises
    on the options text.  The default access triple goes through
    [updateDefaultOwner] with [sync = false]. *)
Definition fromDict (data : ServerShape) (this : Shape) (env : Env)
    : option (Shape * Env) :=
  match LayerManager_getLayer (d_floor data) (d_layer data) with
  | None => None
  | Some _ =>
  let env := perform (UpdateShapePoints (uuid this)) env in
  let parsed :=
    if truthy_string (d_options data)
    then parseOptions (default "" (d_options data))
    else Some (options this) in
  match parsed with
  | None => None
  | Some options' =>
  let this :=
    {| type := type this;
       uuid := uuid this;
       _floor := d_floor data;
       _layer := d_layer data;
       preventSync := preventSync this;
       _refPoint := _refPoint this;
       _angle := d_angle data;
       fillColour := d_fill_colour data;
       strokeColour := d_stroke_colour data;
       strokeWidth := strokeWidth this;
       name := if truthy_string (Some (d_name data)) then d_name data else name this;
       nameVisible := d_name_visible data;
       trackers := d_trackers data;
       auras := aurasFromServer (d_auras data);
       labels := d_labels data;
       _owners := map ownerToClient (d_owners data);
       visionObstruction := d_vision_obstruction data;
       movementObstruction := d_movement_obstruction data;
       isToken := d_is_token data;
       isInvisible := d_is_invisible data;
       showHighlight := showHighlight this;
       annotation := if truthy_string (d_annotation data)
                     then default "" (d_annotation data) else annotation this;
       globalCompositeOperation := d_draw_operator data;
       options := options';
       badge := d_badge data;
       showBadge := d_show_badge data;
       isLocked := d_is_locked data;
       defaultAccess := defaultAccess this |} in
  (* retain reactivity *)
  Some (updateDefaultOwner
          {| edit := d_default_edit_access data;
             vision := d_default_vision_access data;
             movement := d_default_movement_access data |}
          false this env)
  end
  end.

(** ** Groups *)

(** [getGroupMembers()].  [None] stands for the [TypeError] raised when the
    leader's [groupInfo] is not an array.  A [groupId] that is not a string
    is never a key of [UUIDMap], and neither is a non-string item of
    [groupInfo]. *)
Definition getGroupMembers (this : Shape) (env : Env) : option (list Shape) :=
  if negb (Map_has "groupId" (options this) || Map_has "groupInfo" (options this))
  then Some [this]
  else
    let groupId :=
      match Map_get "groupId" (options this) with
      | None | Some JNull => JStr (uuid this)
      | Some v => v
      end in
    let groupLeader :=
      match groupId with
      | JStr g => if bool_decide (g = uuid this) then Some this else UUIDMap env !! g
      | _ => None
      end in
    match groupLeader with
    | None => Some [this]
    | Some groupLeader =>
        if negb (Map_has "groupInfo" (options groupLeader)) then Some [this]
        else
          match Map_get "groupInfo" (options groupLeader) with
          | Some (JArr groupIds) =>
              Some (groupLeader ::
                    fold_left
                      (λ acc u,
                         match u with
                         | JStr u =>
                             match UUIDMap env !! u with
                             | Some member => acc ++ [member]
                             | None => acc
                             end
                         | _ => acc
                         end)
                      groupIds [])
          | _ => None
          end
    end.

(** ** The inbound ["remove shape"] handler *)

(** The layer manager of the handler's module keeps its layers by name.
    [Layer.removeShape] and [Layer.invalidate] belong to the layer class,
    which is outside this model: they are taken as arbitrary transformers of
    the client state. *)

Record Client := mkClient {
  client_env : Env;
  layers : gmap string Layer;
}.

Variable Layer_removeShape : string → Shape → bool → Client → Client.
Variable Layer_invalidate : string → bool → Client → Client.

(** [console.log(message)]. *)
Definition console_log (message : string) (c : Client) : Client :=
  {| client_env := perform (ConsoleLog message) (client_env c);
     layers := layers c |}.

(** [layerManager.hasLayer(name)]. *)
Definition hasLayer (name : string) (c : Client) : bool :=
  bool_decide (is_Some (layers c !! name)).

(** [socket.on("remove shape", function (shape: ServerShape) {...})]. *)
Definition on_remove_shape (shape : ServerShape) (c : Client) : Client :=
  match UUIDMap (client_env c) !! d_uuid shape with
  | None => console_log "Attempted to remove an unknown shape" c
  | Some real_shape =>
      if negb (hasLayer (d_layer shape) c) then
        console_log
          ("Attempted to remove shape from an unknown layer " +:+ d_layer shape) c
      else
        let c := Layer_removeShape (d_layer shape) real_shape false c in
        Layer_invalidate (d_layer shape) false c
  end.

(** ** Notions used to state the properties *)

(** The effect that asks for a recomputation of a floor, per target
    ([visibilityStore.recalculateVision] / [recalculateMovement]). *)
Definition Recalculate (target : TriangulationTarget) (floor : string) : Effect :=
  match target with
  | VISION => RecalculateVision floor
  | MOVEMENT => RecalculateMovement floor
  end.

(** The blocker reconciliation that [checkVisionSources] (target [VISION],
    flag [visionObstruction]) and [setMovementBlock] (target [MOVEMENT], flag
    [movementObstruction]) both spell out, stated once for either target:
    insert the id when the flag is on and the id is absent, remove it when
    the flag is off and the id is present, and report whether the array was
    altered. *)
Definition reconcileBlocker (target : TriangulationTarget) (obstruction : bool)
    (recalculate : bool) (this : Shape) (env : Env) : bool * Env :=
  let blockers := getBlockers target (_floor this) env in
  let obstructionIndex := indexOf (uuid this) blockers in
  let '(altered, env) :=
    if obstruction && (obstructionIndex =? -1) then
      let env := addBlocker target (uuid this) (_floor this) env in
      let env := perform_if recalculate (AddToTriag target (uuid this)) env in
      (true, env)
    else if negb obstruction && (0 <=? obstructionIndex) then
      let env := sliceBlockers target obstructionIndex (_floor this) env in
      let env := perform_if recalculate (DeleteFromTriag target (uuid this)) env in
      (true, env)
    else (false, env) in
  let env := perform_if (altered && recalculate) (Recalculate target (_floor this)) env in
  (altered, env).

(** The two derived rules that [updateOwner] and [updateDefaultOwner] both
    spell out, stated once: the requested [access] as it is stored, given
    the grant [current] stored so far. *)
Definition deriveAccess (current access : ShapeAccess) : ShapeAccess :=
  let access :=
    if negb (edit current) && edit access then
      (* Force other permissions to true if edit access is granted *)
      {| edit := edit access; movement := true; vision := true |}
    else access in
  if edit current && someOff access then
    (* Force remove edit permission if a specific permission is toggled off *)
    {| edit := false; movement := movement access; vision := vision access |}
  else access.


(** What [reconcileBlocker] does to the blocker array of the shape's floor. *)
Definition reconciled (obstruction : bool) (u : string) (l : list string)
    : list string :=
  if obstruction && negb (includes u l) then push u l
  else if negb obstruction && includes u l then splice1 (indexOf u l) l
  else l.

(** A call that can change blocker membership: [setMovementBlock], or an
    assignment to [visionObstruction] followed by [checkVisionSources]. *)
Inductive BlockerCall :=
| CallSetMovementBlock (blocksMovement recalculate : bool)
| CallSetVisionObstruction (visionObstruction recalculate : bool).

(** One call: the returned flag, the receiver and the session state. *)
Definition blockerCall (call : BlockerCall) (st : Shape * Env) : bool * (Shape * Env) :=
  match call with
  | CallSetMovementBlock blocksMovement recalculate =>
      let '(altered, this, env) :=
        setMovementBlock blocksMovement recalculate st.1 st.2 in
      (altered, (this, env))
  | CallSetVisionObstruction v recalculate =>
      let this := set_visionObstruction v st.1 in
      let '(altered, env) := checkVisionSources recalculate this st.2 in
      (altered, (this, env))
  end.

(** A sequence of calls, in order. *)
Definition blockerCalls (calls : list BlockerCall) (st : Shape * Env) : Shape * Env :=
  fold_left (λ st call, (blockerCall call st).2) calls st.

(** The shape's id is in the blocker array of its floor exactly when the
    flag of that target is on. *)
Definition blockerConsistent (target : TriangulationTarget) (st : Shape * Env) : Prop :=
  uuid st.1 ∈ getBlockers target (_floor st.1) st.2
  ↔ match target with
    | VISION => visionObstruction st.1
    | MOVEMENT => movementObstruction st.1
    end = true.

(** The target a call is about. *)
Definition targetOf (call : BlockerCall) : TriangulationTarget :=
  match call with
  | CallSetMovementBlock _ _ => MOVEMENT
  | CallSetVisionObstruction _ _ => VISION
  end.

(** Number of occurrences of an id in an array. *)
Definition occurrences (u : string) (l : list string) : nat :=
  length (filter (λ y, y = u) l).

(** A registry entry that the second loop of [checkVisionSources] removes:
    it names this shape and no aura of the shape that is a vision source
    backs it. *)
Definition stale (this : Shape) (ls : VisionSource) : bool :=
  bool_decide (vs_shape ls = uuid this) && negb (backed this ls).

(** The registry agrees with an aura: the aura's id is registered exactly
    when the aura is a vision source. *)
Definition settled (sources : list VisionSource) (au : Aura) : Prop :=
  aura_uuid au ∈ vs_aura <$> sources ↔ visionSource au = true.

(** The registry of a floor after the two loops of [checkVisionSources]. *)
Definition reconcileSources (this : Shape) (sources : list VisionSource)
    : list VisionSource :=
  let sources := fold_left (reconcileAura this) (auras this) sources in
  dropStale this (length sources) sources.

(** Edit access comes with vision and movement access. *)
Definition editImpliesAll (a : ShapeAccess) : Prop :=
  edit a = true → vision a = true ∧ movement a = true.

(** Every grant of the shape, the default triple and each owner entry,
    satisfies [editImpliesAll]. *)
Definition grantsWellFormed (this : Shape) : Prop :=
  editImpliesAll (defaultAccess this)
  ∧ Forall (λ o, editImpliesAll (access o)) (_owners this).

(** The entry [this._owners.find(o => o.user === user)] returns. *)
Definition ownerEntry (user' : string) (this : Shape) : option ShapeOwner :=
  find (λ o, bool_decide (user o = user')) (_owners this).

(** The access triple grants every requested capability. *)
Definition grantsAll (options : Capabilities) (a : ShapeAccess) : Prop :=
  (truthy (editAccess options) = true → edit a = true)
  ∧ (truthy (movementAccess options) = true → movement a = true)
  ∧ (truthy (visionAccess options) = true → vision a = true).

(** The access triple grants at least one requested capability. *)
Definition grantsSome (options : Capabilities) (a : ShapeAccess) : Prop :=
  (truthy (editAccess options) = true ∧ edit a = true)
  ∨ (truthy (movementAccess options) = true ∧ movement a = true)
  ∨ (truthy (visionAccess options) = true ∧ vision a = true).

(** Exactly one capability is requested. *)
Definition singleCapability (options : Capabilities) : Prop :=
  (if truthy (editAccess options) then 1 else 0)
  + (if truthy (movementAccess options) then 1 else 0)
  + (if truthy (visionAccess options) then 1 else 0) = 1.

(** No capability is requested. *)
Definition noCapability (options : Capabilities) : Prop :=
  truthy (editAccess options) = false
  ∧ truthy (movementAccess options) = false
  ∧ truthy (visionAccess options) = false.

(** The acting user plays a token that is among the active ones. *)
Definition impersonating (this : Shape) (gs : GameStore) : Prop :=
  FAKE_PLAYER gs = true ∧ uuid this ∈ activeTokens gs.

(** Ownership as the specification words it: game master, or impersonation,
    or every requested capability granted by default, or every requested
    capability granted by an entry of the acting user. *)
Definition ownedBy_spec (options : Capabilities) (this : Shape) (gs : GameStore)
    : Prop :=
  IS_DM gs = true
  ∨ impersonating this gs
  ∨ grantsAll options (defaultAccess this)
  ∨ ∃ u, u ∈ _owners this ∧ user u = username gs ∧ grantsAll options (access u).

(** The shapes that a list of member ids resolves to in [UUIDMap], in order;
    ids without a shape are left out. *)
Definition existingMembers (env : Env) (ids : list string) : list Shape :=
  omap (λ u, UUIDMap env !! u) ids.

(** The payload [data] with its [stroke_width] replaced. *)
Definition set_d_stroke_width (w : float) (data : ServerShape) : ServerShape :=
  {| d_type_ := d_type_ data;
     d_uuid := d_uuid data;
     d_x := d_x data;
     d_y := d_y data;
     d_angle := d_angle data;
     d_floor := d_floor data;
     d_layer := d_layer data;
     d_draw_operator := d_draw_operator data;
     d_movement_obstruction := d_movement_obstruction data;
     d_vision_obstruction := d_vision_obstruction data;
     d_auras := d_auras data;
     d_trackers := d_trackers data;
     d_labels := d_labels data;
     d_owners := d_owners data;
     d_fill_colour := d_fill_colour data;
     d_stroke_colour := d_stroke_colour data;
     d_stroke_width := w;
     d_name := d_name data;
     d_name_visible := d_name_visible data;
     d_annotation := d_annotation data;
     d_is_token := d_is_token data;
     d_is_invisible := d_is_invisible data;
     d_options := d_options data;
     d_badge := d_badge data;
     d_show_badge := d_show_badge data;
     d_is_locked := d_is_locked data;
     d_default_edit_access := d_default_edit_access data;
     d_default_movement_access := d_default_movement_access data;
     d_default_vision_access := d_default_vision_access data |}.

(** The options are a map from string keys to JSON values, as their type
    declares: every key is a string, no value is [undefined] and no key
    occurs twice. *)
Definition stringKeyed (m : JsMap) : Prop :=
  Forall (λ e, ∃ k v, e = entry k v) m ∧ NoDup m.*1.

(** The receiver [r] was constructed for the shape [s]: the constructor and
    the subclass gave it the type, the id and the reference point of [s],
    none of which [fromDict] reads from a payload. *)
Definition constructedFor (s r : Shape) : Prop :=
  type r = type s ∧ uuid r = uuid s ∧ _refPoint r = _refPoint s.


(** * Further operations of the shape and of the socket module *)

(** [this.isToken = v] *)
Definition set_isToken (v : bool) (this : Shape) : Shape :=
  {| type := type this;
     uuid := uuid this;
     _floor := _floor this;
     _layer := _layer this;
     preventSync := preventSync this;
     _refPoint := _refPoint this;
     _angle := _angle this;
     fillColour := fillColour this;
     strokeColour := strokeColour this;
     strokeWidth := strokeWidth this;
     name := name this;
     nameVisible := nameVisible this;
     trackers := trackers this;
     auras := auras this;
     labels := labels this;
     _owners := _owners this;
     visionObstruction := visionObstruction this;
     movementObstruction := movementObstruction this;
     isToken := v;
     isInvisible := isInvisible this;
     showHighlight := showHighlight this;
     annotation := annotation this;
     globalCompositeOperation := globalCompositeOperation this;
     options := options this;
     badge := badge this;
     showBadge := showBadge this;
     isLocked := isLocked this;
     defaultAccess := defaultAccess this |}.

(** [setIsToken(isToken)]. *)
Definition setIsToken (isToken' : bool) (this : Shape) (env : Env) : Shape * Env :=
  let this := set_isToken isToken' this in
  let env :=
    if ownedBy {| editAccess := None; visionAccess := Some true;
                  movementAccess := None |} this (gameStore env)
    then
      let i := indexOf (uuid this) (ownedtokens (gameStore env)) in
      if isToken this && (i =? -1)
      then set_ownedtokens (push (uuid this) (ownedtokens (gameStore env))) env
      else if negb (isToken this) && (0 <=? i)
      then set_ownedtokens (splice1 i (ownedtokens (gameStore env))) env
      else env
    else env in
  (this, env).

(** [socket.on("clear temporaries", function (shapes: ServerShape[]) {...})]:
    the body of the [forEach] callback for one shape; its [return] leaves
    the callback, not the loop. *)
Definition clear_temporary (c : Client) (shape : ServerShape) : Client :=
  match UUIDMap (client_env c) !! d_uuid shape with
  | None => console_log "Attempted to remove an unknown temporary shape" c
  | Some real_shape =>
      if negb (hasLayer (d_layer shape) c) then
        console_log
          ("Attempted to remove shape from an unknown layer " +:+ d_layer shape) c
      else Layer_removeShape (d_layer shape) real_shape false c
  end.

Definition on_clear_temporaries (shapes : list ServerShape) (c : Client) : Client :=
  fold_left clear_temporary shapes c.

(** [Layer.moveShapeOrder], a method of the layer class like the two
    above. *)
Variable Layer_moveShapeOrder : string → Shape → float → bool → Client → Client.

(** [socket.on("moveShapeOrder", function (data: { shape; index }) {...})].
    The layer that is looked up with [hasLayer] is the one the event names;
    the layer that is used is the one of the registered shape.  [None]
    stands for the [TypeError] raised when [getLayer] finds no such layer
    and [moveShapeOrder] is called on [undefined]. *)
Definition on_moveShapeOrder (shape : ServerShape) (index : float) (c : Client)
    : option Client :=
  match UUIDMap (client_env c) !! d_uuid shape with
  | None =>
      Some (console_log "Attempted to move the shape order of an unknown shape" c)
  | Some real_shape =>
      if negb (hasLayer (d_layer shape) c) then
        Some (console_log
                ("Attempted to remove shape from an unknown layer " +:+ d_layer shape)
                c)
      else if hasLayer (_layer real_shape) c then
        Some (Layer_moveShapeOrder (_layer real_shape) real_shape index false c)
      else None
  end.

(** ** Notions used to state the further properties *)

(** Outbound socket events among the calls into collaborators. *)
Definition isEmit (e : Effect) : bool :=
  match e with
  | Emit _ _ => true
  | _ => false
  end.

(** The users with an entry on the shape, in order. *)
Definition ownerNames (this : Shape) : list string := user <$> _owners this.

(** The session states differ at most in the trace of calls. *)
Definition sameStores (env env' : Env) : Prop :=
  gameStore env' = gameStore env
  ∧ fowLos env' = fowLos env
  ∧ visionBlockers env' = visionBlockers env
  ∧ movementBlockers env' = movementBlockers env
  ∧ visionSources env' = visionSources env
  ∧ UUIDMap env' = UUIDMap env.

(** The client states differ at most in the trace of calls. *)
Definition sameClient (c c' : Client) : Prop :=
  layers c' = layers c ∧ sameStores (client_env c) (client_env c').

(** A request for vision access alone. *)
Definition wantsVision : Capabilities :=
  {| editAccess := None; visionAccess := Some true; movementAccess := None |}.

(** A request for one capability. *)
Definition wantsEdit : Capabilities :=
  {| editAccess := Some true; visionAccess := None; movementAccess := None |}.

Definition wantsMovement : Capabilities :=
  {| editAccess := None; visionAccess := None; movementAccess := Some true |}.

(** The outbound events of a session state, in order. *)
Definition emitted (env : Env) : list Effect := List.filter isEmit (effects env).

(** The access triple [addOwner] stores for a requested partial triple. *)
Definition grantedAccess (a : PartialShapeAccess) : ShapeAccess :=
  if truthy (p_edit a)
  then {| edit := true; movement := true; vision := true |}
  else {| edit := false; movement := default false (p_movement a);
          vision := default false (p_vision a) |}.

(** [addOwner] goes through: the entry is for this shape and the user has
    no entry yet. *)
Definition accepted (owner : NewOwner) (this : Shape) : Prop :=
  default (uuid this) (n_shape owner) = uuid this
  ∧ hasOwner (n_user owner) this = false.

(** [updateOwner] goes through: the update is for this shape and the user
    has an entry. *)
Definition applicable (owner : OwnerUpdate) (this : Shape) : Prop :=
  default (uuid this) (u_shape owner) = uuid this
  ∧ hasOwner (u_user owner) this = true.

(** Requests for a recomputation of the light on all floors. *)
Definition isInvalidateLight (e : Effect) : bool :=
  match e with
  | InvalidateLightAllFloors => true
  | _ => false
  end.

Definition lightInvalidations (env : Env) : list Effect :=
  List.filter isInvalidateLight (effects env).

(** The session states differ at most in the owned tokens, in what the
    game store derives from them, and in the trace of calls: the acting
    identity, the [fowLos] setting, the blocker arrays, the vision-source
    registry and the shape registry are the same. *)
Definition sameButOwnedTokens (env env' : Env) : Prop :=
  IS_DM (gameStore env') = IS_DM (gameStore env)
  ∧ FAKE_PLAYER (gameStore env') = FAKE_PLAYER (gameStore env)
  ∧ username (gameStore env') = username (gameStore env)
  ∧ fowLos env' = fowLos env
  ∧ visionBlockers env' = visionBlockers env
  ∧ movementBlockers env' = movementBlockers env
  ∧ visionSources env' = visionSources env
  ∧ UUIDMap env' = UUIDMap env.

(** [Array.isArray(v)] on a value of the options mapping. *)
Definition isArray (v : Json) : bool :=
  match v with
  | JArr _ => true
  | _ => false
  end.

(** A [groupId] that names no other shape's id: a value that is neither
    [null] nor a string is never a key of [UUIDMap]. *)
Definition namesNoShape (v : Json) (env : Env) : Prop :=
  match v with
  | JNull => False
  | JStr g => UUIDMap env !! g = None
  | _ => True
  end.

(** A falsy optional string of the payload: absent or empty. *)
Definition falsy (o : option string) : Prop := truthy_string o = false.

(** * Properties *)

(** ** Array primitives *)

Lemma findIndex_split {A} (p : A → bool) (l : list A) :
  (findIndex p l = -1 ∧ Forall (λ y, p y = false) l)
  ∨ (∃ l1 y l2, l = l1 ++ y :: l2 ∧ Forall (λ y, p y = false) l1
       ∧ p y = true ∧ findIndex p l = Z.of_nat (length l1)).
Proof.
  induction l as [|a l IH]; simpl.
  - left. split; [done | constructor].
  - destruct (p a) eqn:Hpa.
    + right. exists [], a, l. by repeat split.
    + destruct IH as [[Hi Hall] | (l1 & y & l2 & -> & Hall & Hy & Hi)].
      * left. rewrite Hi. simpl. split; [done | by constructor].
      * right. exists (a :: l1), y, l2. rewrite Hi.
        assert ((Z.of_nat (length l1) <? 0) = false) as -> by (apply Z.ltb_ge; lia).
        repeat split; [by constructor | done | simpl; lia].
Qed.

Lemma splice1_middle {A} (l1 : list A) y l2 :
  splice1 (Z.of_nat (length l1)) (l1 ++ y :: l2) = l1 ++ l2.
Proof.
  unfold splice1.
  assert ((Z.of_nat (length l1) <? 0) = false) as -> by (apply Z.ltb_ge; lia).
  rewrite Nat2Z.id. induction l1 as [|a l1 IH]; simpl; [done | by f_equal].
Qed.

Lemma elem_of_middle {A} (x : A) (l1 l2 : list A) : x ∈ l1 ++ x :: l2.
Proof. apply elem_of_app. right. by apply elem_of_cons; left. Qed.

Lemma indexOf_split (u : string) (l : list string) :
  (indexOf u l = -1 ∧ u ∉ l)
  ∨ (∃ l1 l2, l = l1 ++ u :: l2 ∧ (u ∉ l1) ∧ indexOf u l = Z.of_nat (length l1)).
Proof.
  unfold indexOf.
  destruct (findIndex_split (λ y, bool_decide (y = u)) l)
    as [[Hi Hall] | (l1 & y & l2 & -> & Hall & Hy & Hi)].
  - left. split; [done|]. intros Hin.
    rewrite Forall_forall in Hall. specialize (Hall _ Hin).
    by rewrite bool_decide_eq_false in Hall.
  - right. apply bool_decide_eq_true in Hy as ->.
    exists l1, l2. repeat split; [|done]. intros Hin.
    rewrite Forall_forall in Hall. specialize (Hall _ Hin).
    by rewrite bool_decide_eq_false in Hall.
Qed.

Lemma indexOf_absent (u : string) (l : list string) :
  (indexOf u l =? -1) = negb (includes u l).
Proof.
  unfold includes.
  destruct (indexOf_split u l) as [[-> Hn] | (l1 & l2 & -> & Hn & ->)].
  - by rewrite bool_decide_eq_false_2.
  - rewrite bool_decide_eq_true_2; [simpl; apply Z.eqb_neq; lia | apply elem_of_middle].
Qed.

Lemma indexOf_present (u : string) (l : list string) :
  (0 <=? indexOf u l) = includes u l.
Proof.
  unfold includes.
  destruct (indexOf_split u l) as [[-> Hn] | (l1 & l2 & -> & Hn & ->)].
  - by rewrite bool_decide_eq_false_2.
  - rewrite bool_decide_eq_true_2; [apply Z.leb_le; lia | apply elem_of_middle].
Qed.

(** ** The blocker array of one floor *)


Lemma reconciled_elem (obstruction : bool) (u : string) (l : list string) :
  NoDup l → (u ∈ reconciled obstruction u l ↔ obstruction = true).
Proof.
  intros Hnd. unfold reconciled, includes, push.
  destruct obstruction; simpl.
  - case_bool_decide; simpl; [done|].
    split; [done|]. intros _. apply elem_of_app. right. by apply list_elem_of_singleton.
  - case_bool_decide as Hin; simpl; [|by split].
    destruct (indexOf_split u l) as [[_ Hn] | (l1 & l2 & -> & Hn & ->)]; [done|].
    rewrite splice1_middle. split; [|done].
    intros [?|Hin2]%elem_of_app; [done|].
    apply NoDup_app in Hnd as (_ & _ & H2). by apply NoDup_cons in H2 as [? _].
Qed.

Lemma reconciled_NoDup (obstruction : bool) (u : string) (l : list string) :
  NoDup l → NoDup (reconciled obstruction u l).
Proof.
  intros Hnd. unfold reconciled, includes, push.
  destruct obstruction; simpl.
  - case_bool_decide; simpl; [done|].
    apply NoDup_app. repeat split; [done | | apply NoDup_singleton].
    intros y Hy ->%list_elem_of_singleton. done.
  - case_bool_decide as Hin; simpl; [|done].
    destruct (indexOf_split u l) as [[_ Hn] | (l1 & l2 & -> & Hn & ->)]; [done|].
    rewrite splice1_middle. apply NoDup_app in Hnd as (H1 & Hd & H2).
    apply NoDup_cons in H2 as [? ?]. apply NoDup_app. repeat split; [done | | done].
    intros y Hy Hy2. apply (Hd y Hy). by apply elem_of_cons; right.
Qed.

Lemma reconciled_changed (obstruction : bool) (u : string) (l : list string) :
  reconciled obstruction u l ≠ l
  ↔ (obstruction && negb (includes u l)) || (negb obstruction && includes u l) = true.
Proof.
  unfold reconciled, includes, push.
  destruct obstruction; simpl; case_bool_decide as Hin; simpl.
  - by split.
  - split; [done|]. intros _ Heq. apply (f_equal length) in Heq.
    rewrite length_app in Heq. simpl in Heq. lia.
  - split; [done|]. intros _.
    destruct (indexOf_split u l) as [[_ Hn] | (l1 & l2 & -> & Hn & ->)]; [done|].
    rewrite splice1_middle. intros Heq. apply (f_equal length) in Heq.
    rewrite !length_app in Heq. simpl in Heq. lia.
  - by split.
Qed.

(** ** Frame properties of the session-state primitives *)

Lemma getBlockers_perform_if target floor c e env :
  getBlockers target floor (perform_if c e env) = getBlockers target floor env.
Proof. by destruct c, target. Qed.

Lemma getBlockers_setBlockers target floor l env :
  getBlockers target floor (setBlockers target floor l env) = l.
Proof. destruct target; unfold getBlockers; simpl; by rewrite lookup_insert_eq. Qed.

Lemma getBlockers_setBlockers_other target target' floor floor' l env :
  target ≠ target' →
  getBlockers target' floor' (setBlockers target floor l env)
  = getBlockers target' floor' env.
Proof. by destruct target, target'. Qed.

Lemma getBlockers_setVisionSources target floor floor' l env :
  getBlockers target floor (setVisionSources l floor' env) = getBlockers target floor env.
Proof. by destruct target. Qed.

Lemma setBlockers_same target floor env :
  blockers_of target env !! floor = Some (getBlockers target floor env) →
  setBlockers target floor (getBlockers target floor env) env = env.
Proof.
  intros Hl. destruct env, target; unfold setBlockers; simpl in *;
    rewrite insert_id; done.
Qed.

(** ** What [reconcileBlocker] computes *)

Lemma reconcileBlocker_altered target obstruction recalculate this env :
  (reconcileBlocker target obstruction recalculate this env).1
  = (obstruction && negb (includes (uuid this) (getBlockers target (_floor this) env)))
    || (negb obstruction && includes (uuid this) (getBlockers target (_floor this) env)).
Proof.
  unfold reconcileBlocker. rewrite indexOf_absent, indexOf_present.
  by destruct obstruction, (includes _ _).
Qed.

Lemma reconcileBlocker_blockers target obstruction recalculate this env :
  getBlockers target (_floor this)
    (reconcileBlocker target obstruction recalculate this env).2
  = reconciled obstruction (uuid this) (getBlockers target (_floor this) env).
Proof.
  unfold reconcileBlocker, reconciled, addBlocker, sliceBlockers.
  rewrite indexOf_absent, indexOf_present.
  destruct obstruction, (includes _ _); simpl;
    rewrite ?getBlockers_perform_if, ?getBlockers_setBlockers; done.
Qed.

Lemma reconcileBlocker_other target target' floor obstruction recalculate this env :
  target ≠ target' →
  getBlockers target' floor
    (reconcileBlocker target obstruction recalculate this env).2
  = getBlockers target' floor env.
Proof.
  intros Hne. unfold reconcileBlocker, addBlocker, sliceBlockers.
  destruct (obstruction && _); [|destruct (negb obstruction && _)]; simpl;
    rewrite ?getBlockers_perform_if, ?getBlockers_setBlockers_other; done.
Qed.

Lemma reconcileBlocker_visionSources target obstruction recalculate this env :
  visionSources (reconcileBlocker target obstruction recalculate this env).2
  = visionSources env.
Proof.
  unfold reconcileBlocker, addBlocker, sliceBlockers.
  destruct (obstruction && _); [|destruct (negb obstruction && _)];
    destruct recalculate, target; done.
Qed.

(** A call that reports no alteration leaves the session state as it was. *)
Lemma reconcileBlocker_unaltered target obstruction recalculate this env :
  (reconcileBlocker target obstruction recalculate this env).1 = false →
  (reconcileBlocker target obstruction recalculate this env).2 = env.
Proof.
  unfold reconcileBlocker.
  destruct (obstruction && _); [done|]. by destruct (negb obstruction && _).
Qed.

(** The two methods in terms of [reconcileBlocker]. *)
Lemma checkVisionSources_unfold recalculate this env :
  checkVisionSources recalculate this env
  = let r := reconcileBlocker VISION (visionObstruction this) recalculate this env in
    (r.1, setVisionSources
            (reconcileSources this (getVisionSources (_floor this) r.2))
            (_floor this) r.2).
Proof.
  unfold checkVisionSources, reconcileBlocker, reconcileSources.
  destruct (visionObstruction this && _); [done|].
  by destruct (negb (visionObstruction this) && _).
Qed.

Lemma setMovementBlock_unfold blocksMovement recalculate this env :
  setMovementBlock blocksMovement recalculate this env
  = let this' := set_movementObstruction (blocksMovement || false) this in
    let r := reconcileBlocker MOVEMENT (blocksMovement || false) recalculate this' env in
    (r.1, this', r.2).
Proof.
  unfold setMovementBlock, reconcileBlocker. cbn [movementObstruction set_movementObstruction].
  destruct ((blocksMovement || false) && _); [done|].
  by destruct (negb (blocksMovement || false) && _).
Qed.

Lemma checkVisionSources_altered recalculate this env :
  (checkVisionSources recalculate this env).1
  = (reconcileBlocker VISION (visionObstruction this) recalculate this env).1.
Proof. by rewrite checkVisionSources_unfold. Qed.

Lemma checkVisionSources_blockers target recalculate this env :
  getBlockers target (_floor this) (checkVisionSources recalculate this env).2
  = getBlockers target (_floor this)
      (reconcileBlocker VISION (visionObstruction this) recalculate this env).2.
Proof.
  rewrite checkVisionSources_unfold. cbv zeta. cbn [snd].
  apply getBlockers_setVisionSources.
Qed.

(** ** Blocker-set consistency *)

Lemma blockerCall_frame call st :
  uuid (blockerCall call st).2.1 = uuid st.1
  ∧ _floor (blockerCall call st).2.1 = _floor st.1.
Proof.
  destruct st as [this env], call as [b r|v r]; simpl.
  - by rewrite setMovementBlock_unfold.
  - by destruct (checkVisionSources _ _ _).
Qed.

Lemma blockerCall_blockers call target st :
  getBlockers target (_floor st.1) (blockerCall call st).2.2
  = if bool_decide (target = targetOf call)
    then reconciled
           match call with
           | CallSetMovementBlock b _ => b
           | CallSetVisionObstruction v _ => v
           end (uuid st.1) (getBlockers target (_floor st.1) st.2)
    else getBlockers target (_floor st.1) st.2.
Proof.
  destruct st as [this env], call as [b r|v r]; simpl.
  - rewrite setMovementBlock_unfold. cbv zeta. cbn [fst snd].
    rewrite orb_false_r. destruct target; simpl.
    + by rewrite reconcileBlocker_other.
    + apply (reconcileBlocker_blockers MOVEMENT b r
               (set_movementObstruction b this) env).
  - pose proof (checkVisionSources_blockers target r
                  (set_visionObstruction v this) env) as Hb.
    simpl in Hb. destruct (checkVisionSources _ _ _) as [altered env'].
    simpl in *. rewrite Hb. destruct target; simpl.
    + apply (reconcileBlocker_blockers VISION v r
               (set_visionObstruction v this) env).
    + by rewrite reconcileBlocker_other.
Qed.

Lemma blockerCall_NoDup call target st :
  NoDup (getBlockers target (_floor st.1) st.2) →
  NoDup (getBlockers target (_floor (blockerCall call st).2.1) (blockerCall call st).2.2).
Proof.
  intros Hnd. destruct (blockerCall_frame call st) as [_ ->].
  rewrite blockerCall_blockers. case_bool_decide; [|done].
  by apply reconciled_NoDup.
Qed.

Lemma blockerCalls_NoDup calls target st :
  NoDup (getBlockers target (_floor st.1) st.2) →
  NoDup (getBlockers target (_floor (blockerCalls calls st).1) (blockerCalls calls st).2).
Proof.
  revert st. induction calls as [|call calls IH]; intros st Hnd; [done|].
  simpl. apply IH. by apply blockerCall_NoDup.
Qed.

Lemma blockerCall_consistent call st :
  NoDup (getBlockers (targetOf call) (_floor st.1) st.2) →
  blockerConsistent (targetOf call) (blockerCall call st).2.
Proof.
  intros Hnd. unfold blockerConsistent.
  destruct (blockerCall_frame call st) as [-> ->].
  rewrite blockerCall_blockers, bool_decide_eq_true_2 by done.
  rewrite reconciled_elem by done.
  destruct st as [this env], call as [b r|v r]; simpl.
  - rewrite setMovementBlock_unfold. simpl. by rewrite orb_false_r.
  - by destruct (checkVisionSources _ _ _).
Qed.

Lemma blockerCall_altered call st :
  (blockerCall call st).1
  = let b := match call with
             | CallSetMovementBlock b _ => b
             | CallSetVisionObstruction v _ => v
             end in
    let present :=
      includes (uuid st.1) (getBlockers (targetOf call) (_floor st.1) st.2) in
    (b && negb present) || (negb b && present).
Proof.
  destruct st as [this env], call as [b r|v r]; simpl.
  - rewrite setMovementBlock_unfold. cbv zeta. cbn [fst].
    rewrite reconcileBlocker_altered. simpl. by rewrite orb_false_r.
  - pose proof (checkVisionSources_altered r (set_visionObstruction v this) env) as Ha.
    rewrite reconcileBlocker_altered in Ha.
    by destruct (checkVisionSources _ _ _).
Qed.

Lemma occurrences_absent (u : string) (l : list string) :
  u ∉ l → occurrences u l = 0%nat.
Proof.
  unfold occurrences. induction l as [|a l IH]; intros Hn; [done|].
  rewrite filter_cons. apply not_elem_of_cons in Hn as [Hne Hn].
  rewrite decide_False by done. by apply IH.
Qed.

Lemma occurrences_push (u : string) (l : list string) :
  occurrences u (push u l) = S (occurrences u l).
Proof.
  unfold occurrences, push. rewrite filter_app, length_app. simpl.
  rewrite filter_cons, decide_True by done. simpl. lia.
Qed.

(** C2. Blocker-set consistency.  From a session state whose blocker arrays
    hold no id twice, after every call of any sequence of
    [setMovementBlock] calls and of [visionObstruction] assignments followed
    by [checkVisionSources], the id of the shape is in the movement (resp.
    vision) blocker array of its floor exactly when the movement (resp.
    vision) obstruction flag is on.  Moreover, for a shape whose id is not
    yet a vision blocker, turning [visionObstruction] on and calling
    [checkVisionSources] inserts the id and returns [true]; doing the same
    again returns [false] and the array holds the id exactly once. *)
Theorem C2_blocker_set_consistency (this : Shape) (env : Env) :
  NoDup (getBlockers MOVEMENT (_floor this) env) →
  NoDup (getBlockers VISION (_floor this) env) →
  (∀ calls call,
     blockerConsistent (targetOf call)
       (blockerCall call (blockerCalls calls (this, env))).2)
  ∧ (uuid this ∉ getBlockers VISION (_floor this) env →
     ∀ r1 r2,
       let first := blockerCall (CallSetVisionObstruction true r1) (this, env) in
       let second := blockerCall (CallSetVisionObstruction true r2) first.2 in
       first.1 = true
       ∧ uuid this ∈ getBlockers VISION (_floor this) first.2.2
       ∧ second.1 = false
       ∧ occurrences (uuid this) (getBlockers VISION (_floor this) second.2.2) = 1%nat).
Proof.
  intros Hm Hv. split.
  - intros calls call. apply blockerCall_consistent.
    destruct call; simpl; by apply blockerCalls_NoDup.
  - intros Habs r1 r2. cbv zeta.
    assert (includes (uuid this) (getBlockers VISION (_floor this) env) = false)
      as Hinc by (by apply bool_decide_eq_false_2).
    pose proof (blockerCall_blockers (CallSetVisionObstruction true r1) VISION
                  (this, env)) as H1.
    pose proof (blockerCall_altered (CallSetVisionObstruction true r1) (this, env))
      as A1.
    destruct (blockerCall_frame (CallSetVisionObstruction true r1) (this, env))
      as [Hu Hf].
    set (first := blockerCall (CallSetVisionObstruction true r1) (this, env)) in *.
    pose proof (blockerCall_blockers (CallSetVisionObstruction true r2) VISION
                  first.2) as H2.
    pose proof (blockerCall_altered (CallSetVisionObstruction true r2) first.2) as A2.
    set (second := blockerCall (CallSetVisionObstruction true r2) first.2) in *.
    cbn [fst snd targetOf] in *.
    rewrite bool_decide_eq_true_2 in H1, H2 by done.
    rewrite Hu, Hf in H2, A2. unfold reconciled in H1, H2.
    rewrite Hinc in H1, A1. cbn [andb negb orb] in H1, A1.
    assert (includes (uuid this) (getBlockers VISION (_floor this) first.2.2) = true)
      as Hinc1.
    { rewrite H1. apply bool_decide_eq_true_2, elem_of_app. right.
      by apply list_elem_of_singleton. }
    rewrite Hinc1 in H2, A2. cbn [andb negb orb] in H2, A2.
    repeat split; [done | by apply bool_decide_eq_true_1 in Hinc1 | done |].
    rewrite H2, H1, occurrences_push. by rewrite occurrences_absent.
Qed.

(** ** The return value of [checkVisionSources] *)

(** C7 (as amended). [checkVisionSources] returns [true] exactly when the
    call changed the vision blocker array of the shape's floor; auras and
    the vision-source registry have no part in the returned value. *)
Theorem C7_checkVisionSources_reports_blocker_change
    (recalculate : bool) (this : Shape) (env : Env) :
  (checkVisionSources recalculate this env).1 = true
  ↔ getBlockers VISION (_floor this) (checkVisionSources recalculate this env).2
    ≠ getBlockers VISION (_floor this) env.
Proof.
  rewrite checkVisionSources_altered, checkVisionSources_blockers.
  rewrite reconcileBlocker_altered, reconcileBlocker_blockers.
  by rewrite reconciled_changed.
Qed.

(** ** The vision-source registry *)

Lemma dropStale_filter (this : Shape) (l1 l2 : list VisionSource) :
  dropStale this (length l1) (l1 ++ l2)
  = filter (λ ls, stale this ls = false) l1 ++ l2.
Proof.
  revert l2. induction l1 as [|ls l1 IH] using rev_ind; intros l2; [done|].
  rewrite length_app, Nat.add_1_r. simpl.
  rewrite <- app_assoc. simpl.
  rewrite list_lookup_middle by done.
  rewrite filter_app, filter_cons, filter_nil. fold (stale this ls).
  destruct (stale this ls) eqn:Hst.
  - rewrite splice1_middle, IH, decide_False by done. by rewrite app_nil_r.
  - rewrite IH, decide_True by done. by rewrite <- app_assoc.
Qed.

Lemma dropStale_all (this : Shape) (l : list VisionSource) :
  dropStale this (length l) l = filter (λ ls, stale this ls = false) l.
Proof.
  pose proof (dropStale_filter this l []) as H. by rewrite !app_nil_r in H.
Qed.

Lemma reconcileAura_cases (this : Shape) (l : list VisionSource) (au : Aura) :
  ((aura_uuid au ∉ vs_aura <$> l)
   ∧ reconcileAura this l au
     = if visionSource au
       then l ++ [{| vs_shape := uuid this; vs_aura := aura_uuid au |}]
       else l)
  ∨ (∃ l1 ls l2, l = l1 ++ ls :: l2 ∧ vs_aura ls = aura_uuid au
       ∧ (aura_uuid au ∉ vs_aura <$> l1)
       ∧ reconcileAura this l au = if visionSource au then l else l1 ++ l2).
Proof.
  unfold reconcileAura, push.
  destruct (findIndex_split (λ o, bool_decide (vs_aura o = aura_uuid au)) l)
    as [[Hi Hall] | (l1 & ls & l2 & -> & Hall & Hy & Hi)]; rewrite Hi.
  - left. split.
    + intros (o & Ho & Hin)%list_elem_of_fmap.
      rewrite Forall_forall in Hall. specialize (Hall _ Hin).
      by rewrite bool_decide_eq_false in Hall.
    + by destruct (visionSource au).
  - right. exists l1, ls, l2. apply bool_decide_eq_true in Hy.
    repeat split; [done | |].
    + intros (o & Ho & Hin)%list_elem_of_fmap.
      rewrite Forall_forall in Hall. specialize (Hall _ Hin).
      by rewrite bool_decide_eq_false in Hall.
    + assert ((Z.of_nat (length l1) =? -1) = false) as -> by (apply Z.eqb_neq; lia).
      assert ((0 <=? Z.of_nat (length l1)) = true) as -> by (apply Z.leb_le; lia).
      rewrite splice1_middle. by destruct (visionSource au).
Qed.

Lemma reconcileAura_NoDup (this : Shape) (l : list VisionSource) (au : Aura) :
  NoDup (vs_aura <$> l) → NoDup (vs_aura <$> reconcileAura this l au).
Proof.
  intros Hnd.
  destruct (reconcileAura_cases this l au)
    as [[Hn ->] | (l1 & ls & l2 & -> & Hls & Hn & ->)];
    destruct (visionSource au); try done.
  - rewrite fmap_app. apply NoDup_app. repeat split; [done | | apply NoDup_singleton].
    intros k Hk ->%list_elem_of_singleton. done.
  - rewrite fmap_app in *. rewrite fmap_cons in Hnd.
    apply NoDup_app in Hnd as (H1 & Hd & H2).
    apply NoDup_cons in H2 as [? ?]. apply NoDup_app. repeat split; [done | | done].
    intros k Hk Hk2. apply (Hd k Hk). by apply elem_of_cons; right.
Qed.

Lemma reconcileAura_settled (this : Shape) (l : list VisionSource) (au : Aura) :
  NoDup (vs_aura <$> l) → settled (reconcileAura this l au) au.
Proof.
  intros Hnd. unfold settled.
  destruct (reconcileAura_cases this l au)
    as [[Hn ->] | (l1 & ls & l2 & -> & Hls & Hn & ->)];
    destruct (visionSource au); try done.
  - split; [done|]. intros _. rewrite fmap_app. apply elem_of_app. right.
    by apply list_elem_of_singleton.
  - split; [done|]. intros _. rewrite fmap_app, fmap_cons, Hls.
    apply elem_of_app. right. by apply elem_of_cons; left.
  - split; [|done]. rewrite fmap_app. intros [?|Hin2]%elem_of_app; [done|].
    rewrite fmap_app, fmap_cons, Hls in Hnd.
    apply NoDup_app in Hnd as (_ & _ & H2). by apply NoDup_cons in H2 as [? _].
Qed.

Lemma reconcileAura_other (this : Shape) (l : list VisionSource) (au : Aura) k :
  k ≠ aura_uuid au →
  k ∈ vs_aura <$> reconcileAura this l au ↔ k ∈ vs_aura <$> l.
Proof.
  intros Hne.
  destruct (reconcileAura_cases this l au)
    as [[Hn ->] | (l1 & ls & l2 & -> & Hls & Hn & ->)];
    destruct (visionSource au); try done.
  - rewrite fmap_app, elem_of_app. simpl. rewrite list_elem_of_singleton.
    split; [by intros [?|?] | by left].
  - rewrite !fmap_app, fmap_cons, !elem_of_app, elem_of_cons, Hls.
    split; [intros [?|?]; auto | by intros [?|[?|?]]; auto].
Qed.

Lemma reconcileAura_id (this : Shape) (l : list VisionSource) (au : Aura) :
  settled l au → reconcileAura this l au = l.
Proof.
  unfold settled. intros Hs.
  destruct (reconcileAura_cases this l au)
    as [[Hn ->] | (l1 & ls & l2 & -> & Hls & Hn & ->)];
    destruct (visionSource au); try done.
  - exfalso. apply Hn. by apply Hs.
  - assert (false = true); [|done]. apply Hs.
    rewrite fmap_app, fmap_cons, Hls. apply elem_of_app. right.
    by apply elem_of_cons; left.
Qed.

Lemma reconcileAuras_settled (this : Shape) (aus : list Aura)
    (l : list VisionSource) :
  NoDup (aura_uuid <$> aus) → NoDup (vs_aura <$> l) →
  NoDup (vs_aura <$> fold_left (reconcileAura this) aus l)
  ∧ Forall (settled (fold_left (reconcileAura this) aus l)) aus
  ∧ ∀ k, k ∉ aura_uuid <$> aus →
      (k ∈ vs_aura <$> fold_left (reconcileAura this) aus l ↔ k ∈ vs_aura <$> l).
Proof.
  revert l. induction aus as [|au aus IH]; intros l Ha Hl; simpl.
  - by repeat split.
  - rewrite fmap_cons in Ha. apply NoDup_cons in Ha as [Hau Ha].
    destruct (IH (reconcileAura this l au) Ha (reconcileAura_NoDup this l au Hl))
      as (Hnd & Hall & Hoth).
    split; [done|]. split.
    + constructor; [|done]. unfold settled. rewrite (Hoth _ Hau).
      by apply reconcileAura_settled.
    + intros k Hk. apply not_elem_of_cons in Hk as [Hne Hk'].
      rewrite (Hoth _ Hk'). by apply reconcileAura_other.
Qed.

Lemma reconcileAuras_id (this : Shape) (aus : list Aura) (l : list VisionSource) :
  Forall (settled l) aus → fold_left (reconcileAura this) aus l = l.
Proof.
  induction 1 as [|au aus Hs _ IH]; simpl; [done|].
  by rewrite reconcileAura_id.
Qed.

Lemma settled_filter (this : Shape) (l : list VisionSource) :
  Forall (settled l) (auras this) →
  Forall (settled (filter (λ ls, stale this ls = false) l)) (auras this).
Proof.
  rewrite !Forall_forall. intros Hs au Hau. specialize (Hs au Hau).
  unfold settled in *. rewrite <- Hs. split.
  - intros (ls & Hls & Hin)%list_elem_of_fmap.
    apply list_elem_of_filter in Hin as [_ Hin].
    apply list_elem_of_fmap. eauto.
  - intros Hreg. pose proof Hreg as (ls & Hls & Hin)%list_elem_of_fmap.
    apply list_elem_of_fmap. exists ls. split; [done|].
    apply list_elem_of_filter. split; [|done].
    unfold stale, backed, some. apply andb_false_iff. right.
    apply negb_false_iff, existsb_exists. exists au. split.
    + by apply list_elem_of_In.
    + apply andb_true_iff. split; [by apply bool_decide_eq_true|by apply Hs].
Qed.

Lemma reconcileSources_idempotent (this : Shape) (l : list VisionSource) :
  NoDup (aura_uuid <$> auras this) → NoDup (vs_aura <$> l) →
  reconcileSources this (reconcileSources this l) = reconcileSources this l.
Proof.
  intros Ha Hl. unfold reconcileSources. rewrite !dropStale_all.
  destruct (reconcileAuras_settled this (auras this) l Ha Hl) as (_ & Hall & _).
  rewrite (reconcileAuras_id this (auras this)) by by apply settled_filter.
  rewrite list_filter_filter. apply list_filter_iff. intros ls.
  split; [by intros [? _] | by intros ?].
Qed.

Lemma setVisionSources_same sources floor env :
  visionSources env !! floor = Some sources →
  setVisionSources sources floor env = env.
Proof.
  intros Hl. destruct env. unfold setVisionSources, set_visionSources.
  simpl in *. by rewrite insert_id.
Qed.

Lemma visionSources_setVisionSources sources floor env :
  visionSources (setVisionSources sources floor env) !! floor = Some sources.
Proof. simpl. apply lookup_insert_eq. Qed.

Lemma reconcileSources_NoDup (this : Shape) (l : list VisionSource) :
  NoDup (aura_uuid <$> auras this) → NoDup (vs_aura <$> l) →
  NoDup (vs_aura <$> reconcileSources this l).
Proof.
  intros Ha Hl. unfold reconcileSources. rewrite dropStale_all.
  destruct (reconcileAuras_settled this (auras this) l Ha Hl) as (Hnd & _ & _).
  eapply sublist_NoDup; [exact Hnd|].
  apply fmap_sublist, sublist_filter.
Qed.

Lemma getVisionSources_setVisionSources sources floor env :
  getVisionSources floor (setVisionSources sources floor env) = sources.
Proof. unfold getVisionSources. by rewrite visionSources_setVisionSources. Qed.

(** C3. Idempotence of [checkVisionSources].  In a session state where the
    vision blocker array of the shape's floor holds no id twice, the auras of
    the shape have distinct ids and the registry of the floor holds no aura
    twice, a second call right after a first one (flags and auras untouched,
    any [recalculate]) returns [false] and leaves the whole session state,
    in particular the blocker array and the registry, as the first call
    left it. *)
Theorem C3_checkVisionSources_idempotent
    (recalculate1 recalculate2 : bool) (this : Shape) (env : Env) :
  NoDup (getBlockers VISION (_floor this) env) →
  NoDup (aura_uuid <$> auras this) →
  NoDup (vs_aura <$> getVisionSources (_floor this) env) →
  let env1 := (checkVisionSources recalculate1 this env).2 in
  let second := checkVisionSources recalculate2 this env1 in
  second.1 = false
  ∧ getBlockers VISION (_floor this) second.2 = getBlockers VISION (_floor this) env1
  ∧ getVisionSources (_floor this) second.2 = getVisionSources (_floor this) env1
  ∧ second.2 = env1.
Proof.
  intros Hb Ha Hs env1 second.
  assert (second = (false, env1)) as ->; [|done].
  unfold second, env1. clear second env1.
  rewrite (checkVisionSources_unfold recalculate1). cbv zeta. cbn [snd].
  set (envB := (reconcileBlocker VISION (visionObstruction this) recalculate1 this env).2).
  set (sources := reconcileSources this (getVisionSources (_floor this) envB)).
  rewrite checkVisionSources_unfold. cbv zeta.
  assert ((reconcileBlocker VISION (visionObstruction this) recalculate2 this
             (setVisionSources sources (_floor this) envB)).1 = false) as Halt.
  { rewrite reconcileBlocker_altered, getBlockers_setVisionSources.
    unfold envB. rewrite reconcileBlocker_blockers.
    pose proof (reconciled_elem (visionObstruction this) (uuid this) _ Hb) as He.
    unfold includes. destruct (visionObstruction this).
    - rewrite bool_decide_eq_true_2 by by apply He. done.
    - rewrite bool_decide_eq_false_2; [done|]. intros Hin. by apply He in Hin. }
  rewrite Halt, (reconcileBlocker_unaltered _ _ _ _ _ Halt).
  f_equal. rewrite getVisionSources_setVisionSources.
  assert (reconcileSources this sources = sources) as ->.
  { unfold sources, envB, getVisionSources.
    rewrite reconcileBlocker_visionSources.
    by apply reconcileSources_idempotent. }
  apply setVisionSources_same, visionSources_setVisionSources.
Qed.

(** The assumptions of the idempotence property are kept by every call: they
    hold in every session state reached from one where they hold. *)
Lemma checkVisionSources_wellFormed (recalculate : bool) (this : Shape) (env : Env) :
  NoDup (getBlockers VISION (_floor this) env) →
  NoDup (aura_uuid <$> auras this) →
  NoDup (vs_aura <$> getVisionSources (_floor this) env) →
  NoDup (getBlockers VISION (_floor this) (checkVisionSources recalculate this env).2)
  ∧ NoDup (vs_aura
             <$> getVisionSources (_floor this)
                   (checkVisionSources recalculate this env).2).
Proof.
  intros Hb Ha Hs. split.
  - rewrite checkVisionSources_blockers, reconcileBlocker_blockers.
    by apply reconciled_NoDup.
  - rewrite checkVisionSources_unfold. cbv zeta. cbn [snd].
    rewrite getVisionSources_setVisionSources.
    apply reconcileSources_NoDup; [done|].
    unfold getVisionSources. by rewrite reconcileBlocker_visionSources.
Qed.

(** ** Ownership *)


Lemma deriveAccess_revokes (current access : ShapeAccess) :
  edit current = true →
  vision access = false ∨ movement access = false →
  deriveAccess current access
  = {| edit := false; movement := movement access; vision := vision access |}.
Proof.
  unfold deriveAccess, someOff. intros -> Hoff.
  destruct access as [[] [] []]; simpl in *; destruct Hoff; done.
Qed.

Lemma deriveAccess_verbatim (current access : ShapeAccess) :
  editImpliesAll access → deriveAccess current access = access.
Proof.
  unfold editImpliesAll, deriveAccess, someOff.
  destruct current as [[] ? ?], access as [[] m v]; simpl; intros H; try done;
    by destruct (H eq_refl) as [-> ->].
Qed.

Lemma deriveAccess_grant (current access : ShapeAccess) :
  edit current = false → edit access = true →
  deriveAccess current access = {| edit := true; movement := true; vision := true |}.
Proof.
  unfold deriveAccess, someOff. intros -> ->. done.
Qed.

Lemma hasOwner_ownerEntry (user' : string) (this : Shape) :
  hasOwner user' this = bool_decide (is_Some (ownerEntry user' this)).
Proof.
  unfold hasOwner, ownerEntry, some.
  induction (_owners this) as [|o l IH]; simpl; [done|].
  by destruct (bool_decide (user o = user')).
Qed.

Lemma find_assignAccess (user' : string) (a : ShapeAccess) (l : list ShapeOwner) o :
  find (λ o, bool_decide (user o = user')) l = Some o →
  find (λ o, bool_decide (user o = user')) (assignAccess user' a l)
  = Some {| shape := shape o; user := user o; access := a |}.
Proof.
  induction l as [|o' l IH]; simpl; [done|].
  case_bool_decide as Hu; simpl.
  - intros [= ->]. by rewrite bool_decide_eq_true_2.
  - intros Hf. rewrite bool_decide_eq_false_2 by done. by apply IH.
Qed.

Lemma Forall_assignAccess (P : ShapeAccess → Prop) user' a (l : list ShapeOwner) :
  P a → Forall (λ o, P (access o)) l →
  Forall (λ o, P (access o)) (assignAccess user' a l).
Proof.
  intros Ha. induction 1 as [|o l Ho Hl IH]; simpl; [constructor|].
  case_bool_decide; constructor; done.
Qed.



Lemma updateDefaultOwner_grants access sync this env :
  defaultAccess (updateDefaultOwner access sync this env).1
  = deriveAccess (defaultAccess this) access
  ∧ _owners (updateDefaultOwner access sync this env).1 = _owners this.
Proof. done. Qed.

Lemma updateDefaultOwner_shape access sync this env :
  (updateDefaultOwner access sync this env).1
  = set_defaultAccess (deriveAccess (defaultAccess this) access) this.
Proof. done. Qed.


(** C6. Edit revocation on partial downgrade.  When the stored grant has
    edit access, an update addressed to this shape that turns vision or
    movement off leaves a stored grant without edit access, for the entry of
    a user through [updateOwner] and for the default triple through
    [updateDefaultOwner]; vision and movement are stored as requested. *)
Theorem C6_edit_revoked_on_downgrade (this : Shape) (env : Env) (sync : bool) :
  (∀ owner targetOwner,
     default (uuid this) (u_shape owner) = uuid this →
     ownerEntry (u_user owner) this = Some targetOwner →
     edit (access targetOwner) = true →
     vision (u_access owner) = false ∨ movement (u_access owner) = false →
     ∃ stored,
       ownerEntry (u_user owner) (updateOwner owner sync this env).1 = Some stored
       ∧ access stored
         = {| edit := false; movement := movement (u_access owner);
              vision := vision (u_access owner) |})
  ∧ (∀ access,
       edit (defaultAccess this) = true →
       vision access = false ∨ movement access = false →
       defaultAccess (updateDefaultOwner access sync this env).1
       = {| edit := false; movement := movement access; vision := vision access |}).
Proof.
  split.
  - intros owner targetOwner Hs Hf He Hoff.
    exists {| shape := shape targetOwner; user := user targetOwner;
              access := deriveAccess (access targetOwner) (u_access owner) |}.
    split; [|by apply deriveAccess_revokes].
    unfold updateOwner. rewrite Hs, bool_decide_eq_true_2 by done. simpl.
    rewrite hasOwner_ownerEntry, Hf, bool_decide_eq_true_2 by eauto. simpl.
    unfold ownerEntry in *. rewrite Hf. simpl. by apply find_assignAccess.
  - intros access He Hoff.
    destruct (updateDefaultOwner_grants access sync this env) as [-> _].
    by apply deriveAccess_revokes.
Qed.

Lemma ownerGrants_spec (options : Capabilities) (username' : string)
    (owners : list ShapeOwner) :
  some
    (λ u,
       bool_decide (user u = username')
       && (if truthy (editAccess options) then edit (access u) else true)
       && (if truthy (movementAccess options) then movement (access u) else true)
       && (if truthy (visionAccess options) then vision (access u) else true))
    owners = true
  ↔ ∃ u, u ∈ owners ∧ user u = username' ∧ grantsAll options (access u).
Proof.
  unfold some, grantsAll. rewrite existsb_exists. split.
  - intros (u & Hin & Hu). exists u. apply list_elem_of_In in Hin.
    apply andb_true_iff in Hu as [Hu Hv].
    apply andb_true_iff in Hu as [Hu Hm].
    apply andb_true_iff in Hu as [Hu He].
    apply bool_decide_eq_true in Hu.
    destruct (truthy (editAccess options)), (truthy (movementAccess options)),
      (truthy (visionAccess options)); done.
  - intros (u & Hin & Hu & He & Hm & Hv). exists u. apply list_elem_of_In in Hin.
    split; [done|]. rewrite bool_decide_eq_true_2 by done.
    destruct (truthy (editAccess options)), (truthy (movementAccess options)),
      (truthy (visionAccess options));
      rewrite ?He, ?Hm, ?Hv by done; done.
Qed.

Lemma ownedBy_iff (options : Capabilities) (this : Shape) (gs : GameStore) :
  ownedBy options this gs = true
  ↔ IS_DM gs = true
    ∨ impersonating this gs
    ∨ grantsSome options (defaultAccess this)
    ∨ ∃ u, u ∈ _owners this ∧ user u = username gs ∧ grantsAll options (access u).
Proof.
  unfold ownedBy, impersonating, grantsSome, includes.
  rewrite !orb_true_iff, !andb_true_iff, bool_decide_eq_true, ownerGrants_spec.
  split.
  - intros [[[[[?|?]|?]|?]|?]|?]; eauto 6.
  - intros [?|[?|[[?|[?|?]]|?]]]; eauto 8.
Qed.

Lemma single_grantsSome_grantsAll (options : Capabilities) (a : ShapeAccess) :
  singleCapability options → (grantsSome options a ↔ grantsAll options a).
Proof.
  unfold singleCapability, grantsSome, grantsAll.
  destruct (truthy (editAccess options)), (truthy (movementAccess options)),
    (truthy (visionAccess options)); intros Hone; try done;
    (split;
     [ intros [[? ?]|[[? ?]|[? ?]]]; try done; by repeat split
     | intros (H1 & H2 & H3);
       first [ left; split; [done|by apply H1]
             | right; left; split; [done|by apply H2]
             | right; right; split; [done|by apply H3] ] ]).
Qed.

(** X30. Requests for one capability.  For a request of exactly one
    capability, [ownedBy] returns [true] exactly when the acting identity is
    the game master, or impersonates with this shape among the active
    tokens, or the default access grants the capability, or an owner entry
    of the acting user grants it: ownership as the specification words
    it. *)
Theorem ownedBy_single_capability
    (options : Capabilities) (this : Shape) (gs : GameStore) :
  singleCapability options →
  (ownedBy options this gs = true ↔ ownedBy_spec options this gs).
Proof.
  intros Hone. rewrite ownedBy_iff. unfold ownedBy_spec.
  by rewrite (single_grantsSome_grantsAll _ _ Hone).
Qed.

(** C10. With no capability requested, [ownedBy] returns [true] exactly when
    the acting identity is the game master, or impersonates with this shape
    among the active tokens, or has an owner entry on the shape, whatever
    the access values of that entry.  The default access triple has no
    influence on the result. *)
Theorem C10_ownedBy_without_capability
    (options : Capabilities) (this : Shape) (gs : GameStore) :
  noCapability options →
  (ownedBy options this gs = true
   ↔ IS_DM gs = true
     ∨ impersonating this gs
     ∨ ∃ u, u ∈ _owners this ∧ user u = username gs)
  ∧ ∀ access, ownedBy options (set_defaultAccess access this) gs
              = ownedBy options this gs.
Proof.
  intros (He & Hm & Hv). split.
  - rewrite ownedBy_iff. unfold grantsSome, grantsAll.
    rewrite He, Hm, Hv. split.
    + intros [?|[?|[Hsome|(u & Hin & Hu & _)]]]; eauto 6.
      destruct Hsome as [[? _]|[[? _]|[? _]]]; done.
    + intros [?|[?|(u & Hin & Hu)]]; eauto.
      do 3 right. exists u. by repeat split.
  - intros access. unfold ownedBy. simpl. by rewrite He, Hm, Hv.
Qed.

(** ** Groups *)

Lemma collect_members (env : Env) (ids : list string) (acc : list Shape) :
  fold_left
    (λ acc u,
       match u with
       | JStr u =>
           match UUIDMap env !! u with
           | Some member => acc ++ [member]
           | None => acc
           end
       | _ => acc
       end)
    (JStr <$> ids) acc
  = acc ++ existingMembers env ids.
Proof.
  unfold existingMembers. revert acc.
  induction ids as [|u ids IH]; intros acc; simpl; [by rewrite app_nil_r|].
  rewrite IH. destruct (UUIDMap env !! u); simpl; [|done].
  by rewrite <- app_assoc.
Qed.

Lemma existingMembers_missing (env : Env) (before after : list string) missing :
  UUIDMap env !! missing = None →
  existingMembers env (before ++ missing :: after)
  = existingMembers env (before ++ after).
Proof.
  intros Hm. unfold existingMembers. rewrite !omap_app. simpl. by rewrite Hm.
Qed.

Lemma existingMembers_elem (env : Env) (ids : list string) u member :
  u ∈ ids → UUIDMap env !! u = Some member → member ∈ existingMembers env ids.
Proof. intros Hin Hl. unfold existingMembers. apply list_elem_of_omap. eauto. Qed.

Lemma Map_has_get (k : string) (m : JsMap) v :
  Map_get k m = Some v → Map_has k m = true.
Proof.
  unfold Map_has, some. induction m as [|[k' v'] m IH]; simpl; [done|].
  destruct (sameValueZero k' (Some (JStr k))); [done|]. exact IH.
Qed.

(** C8. Group resolution.  A shape whose options hold neither [groupId] nor
    [groupInfo] resolves to itself alone.  A leader, that is a shape holding
    a [groupInfo] array of ids and no [groupId] other than its own id,
    resolves to itself followed by the shapes its ids resolve to, in order:
    every id with a shape contributes it, and an id that [UUIDMap] does not
    know is left out, the call still returning a list. *)
Theorem C8_getGroupMembers (this : Shape) (env : Env) :
  (Map_has "groupId" (options this) = false →
   Map_has "groupInfo" (options this) = false →
   getGroupMembers this env = Some [this])
  ∧ (∀ ids,
       Map_get "groupId" (options this) = None
       ∨ Map_get "groupId" (options this) = Some JNull
       ∨ Map_get "groupId" (options this) = Some (JStr (uuid this)) →
       Map_get "groupInfo" (options this) = Some (JArr (JStr <$> ids)) →
       getGroupMembers this env = Some (this :: existingMembers env ids)
       ∧ (∀ u member, u ∈ ids → UUIDMap env !! u = Some member →
            member ∈ existingMembers env ids)
       ∧ (∀ before missing after,
            ids = before ++ missing :: after →
            UUIDMap env !! missing = None →
            getGroupMembers this env
            = Some (this :: existingMembers env (before ++ after)))).
Proof.
  split.
  - intros Hid Hinfo. unfold getGroupMembers. by rewrite Hid, Hinfo.
  - intros ids Hid Hinfo.
    assert (getGroupMembers this env = Some (this :: existingMembers env ids)) as Hg.
    { unfold getGroupMembers.
      rewrite (Map_has_get _ _ _ Hinfo), orb_true_r. simpl.
      assert (match Map_get "groupId" (options this) with
              | None | Some JNull => JStr (uuid this)
              | Some v => v
              end = JStr (uuid this)) as -> by (by destruct Hid as [-> | [-> | ->]]).
      rewrite bool_decide_eq_true_2 by done.
      rewrite (Map_has_get _ _ _ Hinfo), Hinfo. simpl.
      by rewrite collect_members. }
    split; [done|]. split.
    + intros u member. apply existingMembers_elem.
    + intros before missing after -> Hm. by rewrite Hg, existingMembers_missing.
Qed.

(** ** The inbound ["remove shape"] handler *)

(** C9. A ["remove shape"] event whose id is not in [UUIDMap] only logs
    ["Attempted to remove an unknown shape"]: the layers, the shape
    registry, the blocker arrays, the vision-source registry and the game
    store are as before, no collaborator other than the console is called,
    and the handler returns. *)
Theorem C9_remove_unknown_shape (shape : ServerShape) (c : Client) :
  UUIDMap (client_env c) !! d_uuid shape = None →
  let c' := on_remove_shape shape c in
  layers c' = layers c
  ∧ UUIDMap (client_env c') = UUIDMap (client_env c)
  ∧ visionBlockers (client_env c') = visionBlockers (client_env c)
  ∧ movementBlockers (client_env c') = movementBlockers (client_env c)
  ∧ visionSources (client_env c') = visionSources (client_env c)
  ∧ gameStore (client_env c') = gameStore (client_env c)
  ∧ fowLos (client_env c') = fowLos (client_env c)
  ∧ effects (client_env c')
    = effects (client_env c) ++ [ConsoleLog "Attempted to remove an unknown shape"].
Proof.
  intros Hunknown c'. unfold c', on_remove_shape. rewrite Hunknown.
  by repeat split.
Qed.

(** ** Serialization round trip *)

Lemma Map_set_fresh (k : string) (v : JsValue) (m : JsMap) :
  Forall (λ e, ∃ k' v', e = entry k' v') m →
  Some (JStr k) ∉ m.*1 →
  Map_set (Some (JStr k)) v m = m ++ [(Some (JStr k), v)].
Proof.
  induction 1 as [|e m (k' & v' & ->) _ IH]; simpl; intros Hk; [done|].
  apply not_elem_of_cons in Hk as [Hne Hk].
  rewrite bool_decide_eq_false_2 by congruence. by rewrite IH.
Qed.

Lemma Map_of_entries_from (acc entries : list (JsValue * JsValue)) :
  Forall (λ e, ∃ k v, e = entry k v) (acc ++ entries) →
  NoDup (acc ++ entries).*1 →
  fold_left (λ m kv, Map_set kv.1 kv.2 m) entries acc = acc ++ entries.
Proof.
  revert acc. induction entries as [|e entries IH]; intros acc Hty Hnd; simpl.
  - by rewrite app_nil_r.
  - pose proof Hty as [Hacc [(k & v & ->) _]%Forall_cons]%Forall_app.
    assert (Some (JStr k) ∉ acc.*1) as Hk.
    { rewrite fmap_app, fmap_cons in Hnd. apply NoDup_app in Hnd as (_ & Hd & _).
      intros Hin. apply (Hd _ Hin). by apply elem_of_cons; left. }
    cbn [entry fst snd]. rewrite Map_set_fresh by done.
    rewrite IH; rewrite <- app_assoc; done.
Qed.

Lemma Map_of_entries_stringKeyed (m : JsMap) :
  stringKeyed m → Map_of_entries m = m.
Proof. intros [Hty Hnd]. by apply (Map_of_entries_from [] m). Qed.

Lemma entriesOfJson_entriesToJson (m : JsMap) :
  Forall (λ e, ∃ k v, e = entry k v) m →
  entriesOfJson (entriesToJson m) = Some m.
Proof.
  unfold entriesOfJson, entriesToJson.
  induction 1 as [|e m (k & v & ->) _ IH]; simpl; [done|]. by rewrite IH.
Qed.

Lemma aurasToServer_aurasFromServer (l : list ServerAura) :
  aurasToServer (aurasFromServer l) = l.
Proof.
  unfold aurasToServer, aurasFromServer.
  induction l as [|[] l IH]; simpl; [done|]. by f_equal.
Qed.

Lemma ownerToServer_ownerToClient (l : list ServerShapeOwner) :
  map ownerToServer (map ownerToClient l) = l.
Proof.
  induction l as [|[? ? []] l IH]; simpl; [done|]. by f_equal.
Qed.

Lemma truthy_string_nonempty (s : string) :
  s ≠ "" → truthy_string (Some s) = true.
Proof. intros Hs. unfold truthy_string. by rewrite bool_decide_eq_false_2. Qed.

(** [fromDict] does not read [stroke_width]: the shape keeps the width it
    had. *)
Lemma fromDict_strokeWidth data this env this' env' :
  fromDict data this env = Some (this', env') → strokeWidth this' = strokeWidth this.
Proof.
  unfold fromDict. destruct (LayerManager_getLayer _ _); [|done].
  destruct (if truthy_string _ then _ else _); [|done].
  by intros [= <- <-].
Qed.

(** What serializing gives after [fromDict] has filled a shape in, for any
    payload and any receiver. *)
Lemma getBaseDict_fromDict data this env this' env' :
  fromDict data this env = Some (this', env') →
  ∃ options',
    (if truthy_string (d_options data)
     then parseOptions (default "" (d_options data))
     else Some (options this)) = Some options'
    ∧ getBaseDict this'
      = {| d_type_ := type this;
           d_uuid := uuid this;
           d_x := x (_refPoint this);
           d_y := y (_refPoint this);
           d_angle := d_angle data;
           d_floor := d_floor data;
           d_layer := d_layer data;
           d_draw_operator := d_draw_operator data;
           d_movement_obstruction := d_movement_obstruction data;
           d_vision_obstruction := d_vision_obstruction data;
           d_auras := aurasToServer (aurasFromServer (d_auras data));
           d_trackers := d_trackers data;
           d_labels := d_labels data;
           d_owners := map ownerToServer (map ownerToClient (d_owners data));
           d_fill_colour := d_fill_colour data;
           d_stroke_colour := d_stroke_colour data;
           d_stroke_width := strokeWidth this;
           d_name := if truthy_string (Some (d_name data))
                     then d_name data else name this;
           d_name_visible := d_name_visible data;
           d_annotation :=
             Some (if truthy_string (d_annotation data)
                   then default "" (d_annotation data) else annotation this);
           d_is_token := d_is_token data;
           d_is_invisible := d_is_invisible data;
           d_options := Some (JSON_stringify (entriesToJson options'));
           d_badge := d_badge data;
           d_show_badge := d_show_badge data;
           d_is_locked := d_is_locked data;
           d_default_edit_access :=
             edit (deriveAccess (defaultAccess this)
                     {| edit := d_default_edit_access data;
                        movement := d_default_movement_access data;
                        vision := d_default_vision_access data |});
           d_default_movement_access :=
             movement (deriveAccess (defaultAccess this)
                         {| edit := d_default_edit_access data;
                            movement := d_default_movement_access data;
                            vision := d_default_vision_access data |});
           d_default_vision_access :=
             vision (deriveAccess (defaultAccess this)
                       {| edit := d_default_edit_access data;
                          movement := d_default_movement_access data;
                          vision := d_default_vision_access data |}) |}.
Proof.
  unfold fromDict. destruct (LayerManager_getLayer _ _); [|done].
  destruct (if truthy_string _ then _ else _) as [options'|]; [|done].
  intros [= <- <-]. by exists options'.
Qed.

Lemma fromDict_returns data this env options' :
  is_Some (LayerManager_getLayer (d_floor data) (d_layer data)) →
  (if truthy_string (d_options data)
   then parseOptions (default "" (d_options data))
   else Some (options this)) = Some options' →
  ∃ this' env',
    fromDict data this env = Some (this', env')
    ∧ options this' = options'
    ∧ name this' = (if truthy_string (Some (d_name data))
                    then d_name data else name this)
    ∧ annotation this' = (if truthy_string (d_annotation data)
                          then default "" (d_annotation data) else annotation this).
Proof.
  intros [l Hl] Hopt. unfold fromDict. rewrite Hl, Hopt.
  set (r := updateDefaultOwner _ _ _ _).
  exists r.1, r.2. split; [by rewrite <- surjective_pairing|].
  unfold r. rewrite updateDefaultOwner_shape. done.
Qed.

Lemma parseOptions_own_text (m : JsMap) :
  stringKeyed m →
  JSON_parse (JSON_stringify (entriesToJson m)) = Some (entriesToJson m) →
  parseOptions (JSON_stringify (entriesToJson m)) = Some m.
Proof.
  intros Hty Hparse. unfold parseOptions.
  rewrite Hparse, entriesOfJson_entriesToJson by apply Hty.
  by rewrite Map_of_entries_stringKeyed.
Qed.

(** C4 (as amended). Round trip.  Take a shape with a non-empty name,
    whose default access satisfies edit-implies-all, whose options are a map
    from string keys to values that the platform's JSON codec carries
    faithfully (a non-empty text that parses back to the same entries), and
    whose floor and layer the layer manager knows; take a receiver
    constructed for it.  Serializing the shape, deserializing the payload
    into the receiver and serializing again gives a payload that agrees
    with the first one on every field other than [stroke_width]. *)
Theorem C4_round_trip (s r : Shape) (env : Env) :
  constructedFor s r →
  annotation r = "" →
  is_Some (LayerManager_getLayer (_floor s) (_layer s)) →
  name s ≠ "" →
  editImpliesAll (defaultAccess s) →
  stringKeyed (options s) →
  JSON_stringify (entriesToJson (options s)) ≠ "" →
  JSON_parse (JSON_stringify (entriesToJson (options s)))
  = Some (entriesToJson (options s)) →
  ∃ s' env',
    fromDict (getBaseDict s) r env = Some (s', env')
    ∧ set_d_stroke_width (strokeWidth s) (getBaseDict s') = getBaseDict s.
Proof.
  intros (Htype & Huuid & Hpoint) Hann Hlayer Hname Haccess Hkeys Htext Hparse.
  assert ((if truthy_string (d_options (getBaseDict s))
           then parseOptions (default "" (d_options (getBaseDict s)))
           else Some (options r)) = Some (options s)) as Hopt.
  { cbn [d_options getBaseDict default from_option id].
    rewrite (truthy_string_nonempty _ Htext). by apply parseOptions_own_text. }
  destruct (fromDict_returns (getBaseDict s) r env (options s) Hlayer Hopt)
    as (s' & env' & Hfrom & _).
  exists s', env'. split; [done|].
  destruct (getBaseDict_fromDict _ _ _ _ _ Hfrom) as (options' & Hopt' & ->).
  rewrite Hopt in Hopt'. injection Hopt' as <-.
  unfold set_d_stroke_width, getBaseDict.
  cbn [d_type_ d_uuid d_x d_y d_angle d_floor d_layer d_draw_operator
       d_movement_obstruction d_vision_obstruction d_auras d_trackers d_labels
       d_owners d_fill_colour d_stroke_colour d_stroke_width d_name
       d_name_visible d_annotation d_is_token d_is_invisible d_options d_badge
       d_show_badge d_is_locked d_default_edit_access d_default_movement_access
       d_default_vision_access default from_option id].
  rewrite Htype, Huuid, Hpoint, Hann, (truthy_string_nonempty _ Hname).
  rewrite aurasToServer_aurasFromServer, ownerToServer_ownerToClient.
  replace (if truthy_string (Some (annotation s)) then annotation s else "")
    with (annotation s)
    by (unfold truthy_string; by case_bool_decide as Ha; [rewrite Ha|]).
  replace {| edit := edit (defaultAccess s); movement := movement (defaultAccess s);
             vision := vision (defaultAccess s) |}
    with (defaultAccess s) by (by destruct (defaultAccess s)).
  by rewrite (deriveAccess_verbatim _ _ Haccess).
Qed.

(** * Further properties *)

(** ** Ownership: what the mutators store *)

Lemma addOwner_accepted owner sync this env :
  accepted owner this →
  (addOwner owner sync this env).1
  = set_owners
      (_owners this
       ++ [{| shape := uuid this; user := n_user owner;
              access := grantedAccess (n_access owner) |}]) this.
Proof.
  intros [Hs Hn]. unfold addOwner. cbn zeta.
  rewrite Hs, bool_decide_eq_true_2 by done. rewrite Hn. cbn [negb fst].
  unfold push, grantedAccess. f_equal. f_equal. f_equal. f_equal.
  destruct (n_access owner) as [[[]|] ? ?]; reflexivity.
Qed.

Lemma addOwner_rejected owner sync this env :
  ¬ accepted owner this → addOwner owner sync this env = (this, env).
Proof.
  intros Hna. unfold addOwner. cbn zeta.
  case_bool_decide as Hs; [|done]. cbn [negb].
  destruct (hasOwner (n_user owner) this) eqn:Hn; [done|].
  exfalso. apply Hna. by split.
Qed.

Lemma ownerEntry_app_r user' this entry :
  hasOwner user' this = false →
  ownerEntry user' (set_owners (_owners this ++ [entry]) this)
  = if bool_decide (user entry = user') then Some entry else None.
Proof.
  unfold hasOwner, ownerEntry, some. cbn [_owners set_owners].
  induction (_owners this) as [|o l IH]; simpl; [done|].
  destruct (bool_decide (user o = user')); simpl; [done|]. exact IH.
Qed.

Lemma ownerEntry_app_other user' this entry :
  user entry ≠ user' →
  ownerEntry user' (set_owners (_owners this ++ [entry]) this) = ownerEntry user' this.
Proof.
  intros Hne. unfold ownerEntry. cbn [_owners set_owners].
  induction (_owners this) as [|o l IH]; simpl.
  - by rewrite bool_decide_eq_false_2.
  - by destruct (bool_decide (user o = user')).
Qed.

Lemma addOwner_entry owner sync this env :
  accepted owner this →
  ownerEntry (n_user owner) (addOwner owner sync this env).1
  = Some {| shape := uuid this; user := n_user owner;
            access := grantedAccess (n_access owner) |}.
Proof.
  intros Hacc. rewrite (addOwner_accepted _ _ _ _ Hacc).
  rewrite ownerEntry_app_r by apply Hacc. by rewrite bool_decide_eq_true_2.
Qed.

(** X1. Adding an owner and reading the grant back.  When [addOwner] goes
    through, the entry it appends is the last one, it is the entry found
    for that user, it carries the requested capabilities with absent ones
    off and, if edit is requested, all three on; the entries of all other
    users are found as before. *)
Theorem addOwner_then_lookup (owner : NewOwner) (sync : bool) (this : Shape)
    (env : Env) :
  accepted owner this →
  let this' := (addOwner owner sync this env).1 in
  let entry := {| shape := uuid this; user := n_user owner;
                  access := grantedAccess (n_access owner) |} in
  _owners this' = _owners this ++ [entry]
  ∧ ownerEntry (n_user owner) this' = Some entry
  ∧ ∀ other, other ≠ n_user owner → ownerEntry other this' = ownerEntry other this.
Proof.
  intros Hacc this' entry. unfold this'. split; [|split].
  - by rewrite (addOwner_accepted _ _ _ _ Hacc).
  - by apply addOwner_entry.
  - intros other Hne. rewrite (addOwner_accepted _ _ _ _ Hacc).
    by apply ownerEntry_app_other.
Qed.

Lemma hasOwner_ownerNames user' this :
  hasOwner user' this = true ↔ user' ∈ ownerNames this.
Proof.
  unfold hasOwner, ownerNames, some. rewrite existsb_exists. split.
  - intros (o & Hin & Ho). apply bool_decide_eq_true in Ho as <-.
    apply list_elem_of_fmap. exists o. split; [done|]. by apply list_elem_of_In.
  - intros (o & -> & Hin)%list_elem_of_fmap. exists o.
    split; [by apply list_elem_of_In | by apply bool_decide_eq_true].
Qed.

Lemma hasOwner_false_ownerNames user' this :
  hasOwner user' this = false ↔ user' ∉ ownerNames this.
Proof.
  rewrite <- hasOwner_ownerNames. by destruct (hasOwner user' this).
Qed.

Lemma findIndex_app_first {A} (p : A → bool) (l1 : list A) y l2 :
  Forall (λ z, p z = false) l1 → p y = true →
  findIndex p (l1 ++ y :: l2) = Z.of_nat (length l1).
Proof.
  intros Hall Hy. induction Hall as [|z l1 Hz _ IH]; simpl.
  - by rewrite Hy.
  - rewrite Hz, IH.
    assert ((Z.of_nat (length l1) <? 0) = false) as -> by (apply Z.ltb_ge; lia).
    lia.
Qed.

Lemma removeOwner_absent owner sync this env :
  hasOwner owner this = false → removeOwner owner sync this env = (this, env).
Proof.
  intros Hn. unfold removeOwner.
  destruct (findIndex_split (λ o, bool_decide (user o = owner)) (_owners this))
    as [[-> _] | (l1 & o & l2 & Hl & _ & Ho & _)]; [done|].
  exfalso. apply hasOwner_false_ownerNames in Hn. apply Hn.
  unfold ownerNames. rewrite Hl, fmap_app, fmap_cons.
  apply bool_decide_eq_true in Ho as <-. apply elem_of_middle.
Qed.

Lemma removeOwner_present owner sync this env l1 o l2 :
  _owners this = l1 ++ o :: l2 →
  Forall (λ z, bool_decide (user z = owner) = false) l1 →
  user o = owner →
  (removeOwner owner sync this env).1 = set_owners (l1 ++ l2) this.
Proof.
  intros Hl Hall Ho. unfold removeOwner. rewrite Hl.
  rewrite findIndex_app_first by (by try apply bool_decide_eq_true).
  assert ((Z.of_nat (length l1) <? 0) = false) as -> by (apply Z.ltb_ge; lia).
  rewrite Nat2Z.id, list_lookup_middle by done.
  by rewrite splice1_middle.
Qed.

Lemma set_owners_same this : set_owners (_owners this) this = this.
Proof. by destruct this. Qed.

Lemma set_owners_set_owners l l' this :
  set_owners l (set_owners l' this) = set_owners l this.
Proof. done. Qed.

(** X2. Adding an owner and removing that user again gives back the shape
    as it was, whatever the two [sync] flags and the session state in
    between. *)
Theorem addOwner_then_removeOwner (owner : NewOwner) (sync sync' : bool)
    (this : Shape) (env env' : Env) :
  accepted owner this →
  (removeOwner (n_user owner) sync' (addOwner owner sync this env).1 env').1 = this.
Proof.
  intros Hacc. rewrite (addOwner_accepted _ _ _ _ Hacc).
  erewrite removeOwner_present; [| reflexivity | | reflexivity].
  - by rewrite app_nil_r, set_owners_set_owners, set_owners_same.
  - destruct Hacc as [_ Hn]. unfold hasOwner, some in Hn.
    apply Forall_forall. intros z Hz.
    apply not_true_is_false. intros Hp. apply not_true_iff_false in Hn. apply Hn.
    apply existsb_exists. exists z. split; [by apply list_elem_of_In | done].
Qed.

Lemma updateOwner_rejected owner sync this env :
  ¬ applicable owner this → updateOwner owner sync this env = (this, env).
Proof.
  intros Hna. unfold updateOwner.
  case_bool_decide as Hs; [|done]. cbn [negb].
  destruct (hasOwner (u_user owner) this) eqn:Hh; [|done].
  exfalso. apply Hna. by split.
Qed.

(** X3. Silent rejection.  [addOwner] for a user who already has an entry or
    for another shape's id, [updateOwner] for a user without an entry or for
    another shape's id, and [removeOwner] for a user without an entry change
    neither the shape nor the session state: no owner is touched and nothing
    is emitted, also with [sync = true]. *)
Theorem owner_mutators_reject_silently (sync : bool) (this : Shape) (env : Env) :
  (∀ owner, ¬ accepted owner this → addOwner owner sync this env = (this, env))
  ∧ (∀ owner, ¬ applicable owner this → updateOwner owner sync this env = (this, env))
  ∧ (∀ user', hasOwner user' this = false →
       removeOwner user' sync this env = (this, env)).
Proof.
  split; [|split].
  - intros owner. apply addOwner_rejected.
  - intros owner. apply updateOwner_rejected.
  - intros user'. apply removeOwner_absent.
Qed.

Lemma assignAccess_users user' a (l : list ShapeOwner) :
  user <$> assignAccess user' a l = user <$> l.
Proof.
  induction l as [|o l IH]; csimpl; [done|].
  case_bool_decide; csimpl; [done|]. by rewrite IH.
Qed.

Lemma find_assignAccess_other user' other a (l : list ShapeOwner) :
  other ≠ user' →
  find (λ o, bool_decide (user o = other)) (assignAccess user' a l)
  = find (λ o, bool_decide (user o = other)) l.
Proof.
  intros Hne. induction l as [|o l IH]; simpl; [done|].
  case_bool_decide as Hu; simpl.
  - rewrite Hu. by rewrite bool_decide_eq_false_2 by done.
  - by destruct (bool_decide (user o = other)).
Qed.

Lemma ownerEntry_is_Some user' this :
  hasOwner user' this = true → is_Some (ownerEntry user' this).
Proof.
  rewrite hasOwner_ownerEntry. apply bool_decide_eq_true.
Qed.

Lemma updateOwner_applicable owner sync this env :
  applicable owner this →
  ∃ targetOwner,
    ownerEntry (u_user owner) this = Some targetOwner
    ∧ (updateOwner owner sync this env).1
      = set_owners
          (assignAccess (u_user owner)
             (deriveAccess (access targetOwner) (u_access owner)) (_owners this))
          this.
Proof.
  intros [Hs Hh]. destruct (ownerEntry_is_Some _ _ Hh) as [targetOwner Hf].
  exists targetOwner. split; [done|].
  unfold updateOwner. rewrite Hs, bool_decide_eq_true_2 by done.
  rewrite Hh. cbn [negb]. unfold ownerEntry in Hf. by rewrite Hf.
Qed.

Lemma updateOwner_entry owner sync this env :
  applicable owner this →
  ∃ targetOwner,
    ownerEntry (u_user owner) this = Some targetOwner
    ∧ ownerEntry (u_user owner) (updateOwner owner sync this env).1
      = Some {| shape := shape targetOwner; user := user targetOwner;
                access := deriveAccess (access targetOwner) (u_access owner) |}.
Proof.
  intros Happ.
  destruct (updateOwner_applicable owner sync this env Happ)
    as (targetOwner & Hf & ->).
  exists targetOwner. split; [done|]. by apply find_assignAccess.
Qed.

Lemma updateOwner_ownerNames owner sync this env :
  ownerNames (updateOwner owner sync this env).1 = ownerNames this.
Proof.
  destruct (decide (applicable owner this)) as [Happ|Hrej].
  - destruct (updateOwner_applicable owner sync this env Happ) as (? & _ & ->).
    unfold ownerNames. cbn [_owners set_owners]. apply assignAccess_users.
  - by rewrite updateOwner_rejected.
Qed.

(** X4. What [updateOwner] touches.  When the update goes through, the entry
    of the user keeps its place, its shape id and its user and gets the
    access triple that the two derived rules make of the request; the list of
    users is the same, and every other user's entry is found as before. *)
Theorem updateOwner_touches_one_entry (owner : OwnerUpdate) (sync : bool)
    (this : Shape) (env : Env) :
  applicable owner this →
  let this' := (updateOwner owner sync this env).1 in
  ownerNames this' = ownerNames this
  ∧ (∃ targetOwner,
       ownerEntry (u_user owner) this = Some targetOwner
       ∧ ownerEntry (u_user owner) this'
         = Some {| shape := shape targetOwner; user := user targetOwner;
                   access := deriveAccess (access targetOwner) (u_access owner) |})
  ∧ ∀ other, other ≠ u_user owner → ownerEntry other this' = ownerEntry other this.
Proof.
  intros Happ this'. unfold this'.
  destruct (updateOwner_applicable owner sync this env Happ)
    as (targetOwner & Hf & ->).
  split; [|split].
  - unfold ownerNames. cbn [_owners set_owners]. apply assignAccess_users.
  - exists targetOwner. split; [done|]. by apply find_assignAccess.
  - intros other Hne. by apply find_assignAccess_other.
Qed.

(** X5. A request that already satisfies edit-implies-all is stored exactly
    as requested, by [updateOwner] for the user's entry and by
    [updateDefaultOwner] for the default triple; repeating such a request
    therefore stores the same grant again. *)
Theorem wellformed_request_stored_verbatim (sync : bool) (this : Shape) (env : Env) :
  (∀ owner,
     applicable owner this → editImpliesAll (u_access owner) →
     access <$> ownerEntry (u_user owner) (updateOwner owner sync this env).1
     = Some (u_access owner))
  ∧ (∀ access,
       editImpliesAll access →
       defaultAccess (updateDefaultOwner access sync this env).1 = access).
Proof.
  split.
  - intros owner Happ Hwf.
    destruct (updateOwner_entry owner sync this env Happ)
      as (targetOwner & _ & ->).
    cbn. by rewrite deriveAccess_verbatim.
  - intros access Hwf.
    destruct (updateDefaultOwner_grants access sync this env) as [-> _].
    by apply deriveAccess_verbatim.
Qed.

(** X6. Granting edit on a grant without edit stores full access, whatever
    vision and movement the request carries: for the user's entry through
    [updateOwner] and for the default triple through [updateDefaultOwner]. *)
Theorem granting_edit_stores_full_access (sync : bool) (this : Shape) (env : Env) :
  (∀ owner targetOwner,
     applicable owner this →
     ownerEntry (u_user owner) this = Some targetOwner →
     edit (access targetOwner) = false →
     edit (u_access owner) = true →
     access <$> ownerEntry (u_user owner) (updateOwner owner sync this env).1
     = Some {| edit := true; movement := true; vision := true |})
  ∧ (∀ access,
       edit (defaultAccess this) = false →
       edit access = true →
       defaultAccess (updateDefaultOwner access sync this env).1
       = {| edit := true; movement := true; vision := true |}).
Proof.
  split.
  - intros owner targetOwner Happ Hf Hcur Hreq.
    destruct (updateOwner_entry owner sync this env Happ)
      as (targetOwner' & Hf' & ->).
    rewrite Hf in Hf'. injection Hf' as <-.
    cbn. by rewrite deriveAccess_grant.
  - intros access Hcur Hreq.
    destruct (updateDefaultOwner_grants access sync this env) as [-> _].
    by apply deriveAccess_grant.
Qed.

Lemma NoDup_ownerNames_remove (l1 l2 : list ShapeOwner) o :
  NoDup (user <$> l1 ++ o :: l2) → NoDup (user <$> l1 ++ l2) ∧ user o ∉ user <$> l1 ++ l2.
Proof.
  rewrite !fmap_app, fmap_cons. intros (H1 & Hd & H2)%NoDup_app.
  apply NoDup_cons in H2 as [Ho H2]. split.
  - apply NoDup_app. split; [done|]. split; [|done].
    intros z Hz Hz2. apply (Hd z Hz). by apply elem_of_cons; right.
  - intros [Hin|Hin]%elem_of_app; [|done].
    apply (Hd _ Hin). by apply elem_of_cons; left.
Qed.

(** X7. One entry per user.  If no user has two entries on the shape, the
    same holds after [addOwner], after [updateOwner] and after
    [removeOwner]. *)
Theorem one_entry_per_user_kept (sync : bool) (this : Shape) (env : Env) :
  NoDup (ownerNames this) →
  (∀ owner, NoDup (ownerNames (addOwner owner sync this env).1))
  ∧ (∀ owner, NoDup (ownerNames (updateOwner owner sync this env).1))
  ∧ (∀ user', NoDup (ownerNames (removeOwner user' sync this env).1)).
Proof.
  intros Hnd. split; [|split].
  - intros owner.
    destruct (decide (accepted owner this)) as [Hacc|Hrej].
    + rewrite (addOwner_accepted _ _ _ _ Hacc).
      unfold ownerNames in *. cbn [_owners set_owners]. rewrite fmap_app.
      apply NoDup_app. split; [done|]. split; [|apply NoDup_singleton].
      intros z Hz ->%list_elem_of_singleton.
      destruct Hacc as [_ Hn]. by apply hasOwner_false_ownerNames in Hn.
    + by rewrite (addOwner_rejected _ _ _ _ Hrej).
  - intros owner. by rewrite updateOwner_ownerNames.
  - intros user'.
    destruct (findIndex_split (λ o, bool_decide (user o = user')) (_owners this))
      as [[_ Hall] | (l1 & o & l2 & Hl & Hall & Ho & _)].
    + rewrite removeOwner_absent; [done|].
      apply hasOwner_false_ownerNames. intros (z & -> & Hz)%list_elem_of_fmap.
      rewrite Forall_forall in Hall. specialize (Hall _ Hz).
      by apply bool_decide_eq_false in Hall.
    + apply bool_decide_eq_true in Ho.
      rewrite (removeOwner_present _ _ _ _ _ _ _ Hl Hall Ho).
      unfold ownerNames in *. cbn [_owners set_owners]. rewrite Hl in Hnd.
      by apply NoDup_ownerNames_remove in Hnd as [? _].
Qed.

Lemma filter_Forall_id {A} (P : A → Prop) `{∀ x, Decision (P x)} (l : list A) :
  Forall P l → filter P l = l.
Proof.
  induction 1 as [|z l Hz _ IH]; [done|].
  by rewrite filter_cons, decide_True, IH.
Qed.

(** X8. Removing an owner.  On a shape where no user has two entries,
    [removeOwner] for a user with an entry leaves that user without one,
    takes exactly that name out of the list of users, and every other user's
    entry is found as before. *)
Theorem removeOwner_removes (user' : string) (sync : bool) (this : Shape)
    (env : Env) :
  NoDup (ownerNames this) →
  hasOwner user' this = true →
  let this' := (removeOwner user' sync this env).1 in
  hasOwner user' this' = false
  ∧ ownerNames this' = filter (λ u, u ≠ user') (ownerNames this)
  ∧ ∀ other, other ≠ user' → ownerEntry other this' = ownerEntry other this.
Proof.
  intros Hnd Hh this'. unfold this'.
  destruct (findIndex_split (λ o, bool_decide (user o = user')) (_owners this))
    as [[_ Hall] | (l1 & o & l2 & Hl & Hall & Ho & _)].
  - exfalso. apply hasOwner_ownerNames in Hh as (z & -> & Hz)%list_elem_of_fmap.
    rewrite Forall_forall in Hall. specialize (Hall _ Hz).
    by apply bool_decide_eq_false in Hall.
  - apply bool_decide_eq_true in Ho.
    rewrite (removeOwner_present _ _ _ _ _ _ _ Hl Hall Ho).
    unfold ownerNames in *. rewrite Hl in Hnd.
    destruct (NoDup_ownerNames_remove _ _ _ Hnd) as [Hnd' Hout].
    split; [|split].
    + apply hasOwner_false_ownerNames. unfold ownerNames.
      cbn [_owners set_owners]. by rewrite <- Ho.
    + cbn [_owners set_owners]. rewrite Hl, !fmap_app, fmap_cons.
      rewrite filter_app, filter_cons, decide_False by (by intros ?).
      rewrite fmap_app, Ho in Hout.
      rewrite !filter_Forall_id; [done | |];
        apply Forall_forall; intros z Hz ->; apply Hout, elem_of_app; auto.
    + intros other Hne. unfold ownerEntry. cbn [_owners set_owners]. rewrite Hl.
      clear -Hne Ho. induction l1 as [|z l1 IH]; simpl.
      * rewrite bool_decide_eq_false_2; [done|]. by rewrite Ho.
      * by destruct (bool_decide (user z = other)).
Qed.

(** ** The invariant of the grants *)







(** ** Ownership: what the mutators broadcast *)

Lemma effects_perform_if c e env :
  effects (perform_if c e env) = effects env ++ (if c then [e] else []).
Proof. destruct c; simpl; [done | by rewrite app_nil_r]. Qed.

Lemma fowLos_perform_if c e env : fowLos (perform_if c e env) = fowLos env.
Proof. by destruct c. Qed.

(** Case analysis on the conditions that choose between two session
    states. *)
Ltac case_env_ifs :=
  repeat match goal with
         | |- context [if ?b then ?env else _] =>
             match type of env with
             | Env => destruct b
             end
         end.

Ltac solve_effects :=
  rewrite !effects_perform_if, ?fowLos_perform_if; case_env_ifs;
  cbn [effects fowLos set_ownedtokens set_gameStore];
  rewrite <- ?app_assoc; reflexivity.

Lemma addOwner_effects owner sync this env :
  accepted owner this →
  effects (addOwner owner sync this env).2
  = effects env
    ++ (if sync
        then [Emit "Shape.Owner.Add"
                (OwnerPayload
                   (ownerToServer
                      {| shape := uuid this; user := n_user owner;
                         access := grantedAccess (n_access owner) |}))]
        else [])
    ++ (if fowLos env then [InvalidateLightAllFloors] else []).
Proof.
  intros [Hs Hn]. unfold addOwner. cbn zeta.
  rewrite Hs, bool_decide_eq_true_2 by done. rewrite Hn. cbn [negb snd].
  assert ({| edit := default false (p_edit
               (if truthy (p_edit (n_access owner))
                then {| p_edit := p_edit (n_access owner); p_movement := Some true;
                        p_vision := Some true |}
                else n_access owner));
             movement := default false (p_movement
               (if truthy (p_edit (n_access owner))
                then {| p_edit := p_edit (n_access owner); p_movement := Some true;
                        p_vision := Some true |}
                else n_access owner));
             vision := default false (p_vision
               (if truthy (p_edit (n_access owner))
                then {| p_edit := p_edit (n_access owner); p_movement := Some true;
                        p_vision := Some true |}
                else n_access owner)) |}
          = grantedAccess (n_access owner)) as ->.
  { unfold grantedAccess. by destruct (n_access owner) as [[[]|] ? ?]. }
  solve_effects.
Qed.

Lemma updateOwner_effects owner sync this env targetOwner :
  applicable owner this →
  ownerEntry (u_user owner) this = Some targetOwner →
  effects (updateOwner owner sync this env).2
  = effects env
    ++ (if sync
        then [Emit "Shape.Owner.Update"
                (OwnerPayload
                   {| o_shape := uuid this; o_user := u_user owner;
                      o_access :=
                        accessToServer
                          (deriveAccess (access targetOwner) (u_access owner)) |})]
        else [])
    ++ (if fowLos env then [InvalidateLightAllFloors] else []).
Proof.
  intros [Hs Hh] Hf. unfold updateOwner.
  rewrite Hs, bool_decide_eq_true_2 by done. rewrite Hh. cbn [negb].
  unfold ownerEntry in Hf. rewrite Hf. cbn zeta. cbn [snd].
  fold (deriveAccess (access targetOwner) (u_access owner)).
  solve_effects.
Qed.

Lemma removeOwner_effects owner sync this env l1 o l2 :
  _owners this = l1 ++ o :: l2 →
  Forall (λ z, bool_decide (user z = owner) = false) l1 →
  user o = owner →
  effects (removeOwner owner sync this env).2
  = effects env
    ++ (if sync then [Emit "Shape.Owner.Delete" (OwnerPayload (ownerToServer o))]
        else [])
    ++ (if fowLos env then [InvalidateLightAllFloors] else []).
Proof.
  intros Hl Hall Ho. unfold removeOwner. rewrite Hl.
  rewrite findIndex_app_first by (by try apply bool_decide_eq_true).
  assert ((Z.of_nat (length l1) <? 0) = false) as -> by (apply Z.ltb_ge; lia).
  rewrite Nat2Z.id, list_lookup_middle by done. cbn zeta. cbn [snd].
  solve_effects.
Qed.

Lemma updateDefaultOwner_effects access sync this env :
  effects (updateDefaultOwner access sync this env).2
  = effects env
    ++ (if fowLos env then [InvalidateLightAllFloors] else [])
    ++ (if sync
        then [Emit "Shape.Owner.Default.Update"
                (DefaultAccessPayload
                   (accessToServer (deriveAccess (defaultAccess this) access))
                   (uuid this))]
        else []).
Proof.
  unfold updateDefaultOwner. cbn zeta. cbn [snd].
  fold (deriveAccess (defaultAccess this) access).
  solve_effects.
Qed.

Lemma emitted_app env env' tail :
  effects env' = effects env ++ tail →
  emitted env' = emitted env ++ List.filter isEmit tail.
Proof. intros He. unfold emitted. by rewrite He, List.filter_app. Qed.

Lemma fromDict_effects data this env this' env' :
  fromDict data this env = Some (this', env') →
  effects env'
  = effects env ++ [UpdateShapePoints (uuid this)]
    ++ (if fowLos env then [InvalidateLightAllFloors] else []).
Proof.
  unfold fromDict. destruct (LayerManager_getLayer _ _); [|done].
  destruct (if truthy_string _ then _ else _); [|done].
  intros Heq%(inj Some). pose proof (f_equal snd Heq) as He.
  cbn [snd] in He. rewrite <- He, updateDefaultOwner_effects.
  cbn [effects fowLos perform]. by rewrite <- !app_assoc, app_nil_r.
Qed.

Lemma owners_split_at user' this :
  hasOwner user' this = true →
  ∃ l1 o l2,
    _owners this = l1 ++ o :: l2
    ∧ Forall (λ z, bool_decide (user z = user') = false) l1
    ∧ user o = user'
    ∧ ownerEntry user' this = Some o.
Proof.
  intros Hh.
  destruct (findIndex_split (λ o, bool_decide (user o = user')) (_owners this))
    as [[_ Hall] | (l1 & o & l2 & Hl & Hall & Ho & _)].
  - exfalso. apply hasOwner_ownerNames in Hh as (z & -> & Hz)%list_elem_of_fmap.
    rewrite Forall_forall in Hall. specialize (Hall _ Hz).
    by apply bool_decide_eq_false in Hall.
  - exists l1, o, l2. split; [done|]. split; [done|].
    split; [by apply bool_decide_eq_true in Ho|].
    unfold ownerEntry. rewrite Hl. clear Hl.
    induction Hall as [|z l1 Hz _ IH]; simpl; [by rewrite Ho | by rewrite Hz].
Qed.

(** X9. No echo.  With [sync = false], [addOwner], [updateOwner],
    [removeOwner] and [updateDefaultOwner] emit nothing on the socket, and
    neither does [fromDict], which applies the default triple that way. *)
Theorem sync_false_emits_nothing (this : Shape) (env : Env) :
  (∀ owner, emitted (addOwner owner false this env).2 = emitted env)
  ∧ (∀ owner, emitted (updateOwner owner false this env).2 = emitted env)
  ∧ (∀ user', emitted (removeOwner user' false this env).2 = emitted env)
  ∧ (∀ access, emitted (updateDefaultOwner access false this env).2 = emitted env)
  ∧ (∀ data this' env',
       fromDict data this env = Some (this', env') → emitted env' = emitted env).
Proof.
  split; [|split; [|split; [|split]]].
  - intros owner. destruct (decide (accepted owner this)) as [Hacc|Hrej].
    + rewrite (emitted_app _ _ _ (addOwner_effects owner false this env Hacc)).
      destruct (fowLos env); cbn; by rewrite app_nil_r.
    + by rewrite (addOwner_rejected _ _ _ _ Hrej).
  - intros owner. destruct (decide (applicable owner this)) as [Happ|Hrej].
    + destruct (ownerEntry_is_Some _ _ (proj2 Happ)) as [targetOwner Hf].
      rewrite (emitted_app _ _ _
                 (updateOwner_effects owner false this env targetOwner Happ Hf)).
      destruct (fowLos env); cbn; by rewrite app_nil_r.
    + by rewrite updateOwner_rejected.
  - intros user'. destruct (hasOwner user' this) eqn:Hh.
    + destruct (owners_split_at _ _ Hh) as (l1 & o & l2 & Hl & Hall & Ho & _).
      rewrite (emitted_app _ _ _
                 (removeOwner_effects user' false this env l1 o l2 Hl Hall Ho)).
      destruct (fowLos env); cbn; by rewrite app_nil_r.
    + by rewrite removeOwner_absent.
  - intros access.
    rewrite (emitted_app _ _ _ (updateDefaultOwner_effects access false this env)).
    destruct (fowLos env); cbn; by rewrite app_nil_r.
  - intros data this' env' Hfrom.
    rewrite (emitted_app _ _ _ (fromDict_effects _ _ _ _ _ Hfrom)).
    destruct (fowLos env); cbn; by rewrite app_nil_r.
Qed.

(** X10. What is broadcast is what is stored.  With [sync = true], a
    mutation that goes through emits exactly one event, and the access
    triple it carries is the one now stored: the appended entry for
    [addOwner], the user's entry after the derived rules for [updateOwner],
    the new default triple for [updateDefaultOwner]; [removeOwner] emits the
    entry it removed. *)
Theorem sync_true_emits_stored_grant (this : Shape) (env : Env) :
  (∀ owner,
     accepted owner this →
     ∃ stored,
       ownerEntry (n_user owner) (addOwner owner true this env).1 = Some stored
       ∧ emitted (addOwner owner true this env).2
         = emitted env
           ++ [Emit "Shape.Owner.Add" (OwnerPayload (ownerToServer stored))])
  ∧ (∀ owner,
       applicable owner this →
       ∃ stored,
         ownerEntry (u_user owner) (updateOwner owner true this env).1 = Some stored
         ∧ emitted (updateOwner owner true this env).2
           = emitted env
             ++ [Emit "Shape.Owner.Update"
                   (OwnerPayload
                      {| o_shape := uuid this; o_user := u_user owner;
                         o_access := accessToServer (access stored) |})])
  ∧ (∀ user',
       hasOwner user' this = true →
       ∃ removed,
         ownerEntry user' this = Some removed
         ∧ emitted (removeOwner user' true this env).2
           = emitted env
             ++ [Emit "Shape.Owner.Delete" (OwnerPayload (ownerToServer removed))])
  ∧ (∀ access,
       emitted (updateDefaultOwner access true this env).2
       = emitted env
         ++ [Emit "Shape.Owner.Default.Update"
               (DefaultAccessPayload
                  (accessToServer
                     (defaultAccess (updateDefaultOwner access true this env).1))
                  (uuid this))]).
Proof.
  split; [|split; [|split]].
  - intros owner Hacc.
    eexists. split; [by apply addOwner_entry|].
    rewrite (emitted_app _ _ _ (addOwner_effects owner true this env Hacc)).
    by destruct (fowLos env).
  - intros owner Happ.
    destruct (updateOwner_entry owner true this env Happ)
      as (targetOwner & Hf & Hstored).
    eexists. split; [exact Hstored|].
    rewrite (emitted_app _ _ _
               (updateOwner_effects owner true this env targetOwner Happ Hf)).
    by destruct (fowLos env).
  - intros user' Hh.
    destruct (owners_split_at _ _ Hh) as (l1 & o & l2 & Hl & Hall & Ho & Hentry).
    exists o. split; [done|].
    rewrite (emitted_app _ _ _
               (removeOwner_effects user' true this env l1 o l2 Hl Hall Ho)).
    by destruct (fowLos env).
  - intros access.
    rewrite (emitted_app _ _ _ (updateDefaultOwner_effects access true this env)).
    destruct (updateDefaultOwner_grants access true this env) as [-> _].
    by destruct (fowLos env).
Qed.

Lemma lightInvalidations_app env env' tail :
  effects env' = effects env ++ tail →
  lightInvalidations env'
  = lightInvalidations env ++ List.filter isInvalidateLight tail.
Proof. intros He. unfold lightInvalidations. by rewrite He, List.filter_app. Qed.

(** X11. Light recomputation.  A mutation of the owners or of the default
    triple that goes through asks for a recomputation of the light on all
    floors exactly once when the [fowLos] setting is on, and never when it is
    off, whatever [sync] is. *)
Theorem ownership_change_invalidates_light (sync : bool) (this : Shape) (env : Env) :
  let once := if fowLos env then [InvalidateLightAllFloors] else [] in
  (∀ owner,
     accepted owner this →
     lightInvalidations (addOwner owner sync this env).2
     = lightInvalidations env ++ once)
  ∧ (∀ owner,
       applicable owner this →
       lightInvalidations (updateOwner owner sync this env).2
       = lightInvalidations env ++ once)
  ∧ (∀ user',
       hasOwner user' this = true →
       lightInvalidations (removeOwner user' sync this env).2
       = lightInvalidations env ++ once)
  ∧ (∀ access,
       lightInvalidations (updateDefaultOwner access sync this env).2
       = lightInvalidations env ++ once).
Proof.
  intros once. unfold once. split; [|split; [|split]].
  - intros owner Hacc.
    rewrite (lightInvalidations_app _ _ _ (addOwner_effects owner sync this env Hacc)).
    by destruct sync, (fowLos env).
  - intros owner Happ.
    destruct (ownerEntry_is_Some _ _ (proj2 Happ)) as [targetOwner Hf].
    rewrite (lightInvalidations_app _ _ _
               (updateOwner_effects owner sync this env targetOwner Happ Hf)).
    by destruct sync, (fowLos env).
  - intros user' Hh.
    destruct (owners_split_at _ _ Hh) as (l1 & o & l2 & Hl & Hall & Ho & _).
    rewrite (lightInvalidations_app _ _ _
               (removeOwner_effects user' sync this env l1 o l2 Hl Hall Ho)).
    by destruct sync, (fowLos env).
  - intros access.
    rewrite (lightInvalidations_app _ _ _
               (updateDefaultOwner_effects access sync this env)).
    by destruct sync, (fowLos env).
Qed.

(** ** The locally owned tokens *)

Lemma ownedtokens_perform_if c e env :
  ownedtokens (gameStore (perform_if c e env)) = ownedtokens (gameStore env).
Proof. by destruct c. Qed.

Lemma ownedBy_set_isToken options b this gs :
  ownedBy options (set_isToken b this) gs = ownedBy options this gs.
Proof. done. Qed.

Lemma setIsToken_ownedtokens b this env :
  ownedtokens (gameStore (setIsToken b this env).2)
  = if ownedBy wantsVision this (gameStore env)
    then reconciled b (uuid this) (ownedtokens (gameStore env))
    else ownedtokens (gameStore env).
Proof.
  unfold setIsToken. cbn zeta. cbn [snd]. rewrite ownedBy_set_isToken.
  fold wantsVision. destruct (ownedBy wantsVision this (gameStore env)); [|done].
  cbn [uuid isToken set_isToken]. rewrite indexOf_absent, indexOf_present.
  unfold reconciled. by destruct b, (includes _ _).
Qed.

(** X12. Marking a shape as a token.  [setIsToken] stores the flag.  When
    the acting identity has vision access to the shape and the owned-token
    array holds no id twice, the shape's id is in the array afterwards
    exactly when the flag is on, and the array still holds no id twice;
    when the acting identity has no vision access, the session state is
    untouched. *)
Theorem setIsToken_owned_tokens (b : bool) (this : Shape) (env : Env) :
  let this' := (setIsToken b this env).1 in
  let env' := (setIsToken b this env).2 in
  isToken this' = b
  ∧ (ownedBy wantsVision this (gameStore env) = true →
     NoDup (ownedtokens (gameStore env)) →
     (uuid this ∈ ownedtokens (gameStore env') ↔ b = true)
     ∧ NoDup (ownedtokens (gameStore env')))
  ∧ (ownedBy wantsVision this (gameStore env) = false → env' = env).
Proof.
  intros this' env'. split; [done|]. split.
  - intros Hown Hnd. unfold env'. rewrite setIsToken_ownedtokens, Hown.
    split; [by apply reconciled_elem | by apply reconciled_NoDup].
  - intros Hown. unfold env', setIsToken. cbn zeta. cbn [snd].
    rewrite ownedBy_set_isToken. fold wantsVision. by rewrite Hown.
Qed.

Lemma updateDefaultOwner_ownedtokens access sync this env :
  let this' := (updateDefaultOwner access sync this env).1 in
  ownedtokens (gameStore (updateDefaultOwner access sync this env).2)
  = if vision (defaultAccess this')
    then reconciled true (uuid this) (ownedtokens (gameStore env))
    else if ownedBy wantsVision this' (gameStore env)
         then ownedtokens (gameStore env)
         else reconciled false (uuid this) (ownedtokens (gameStore env)).
Proof.
  intros this'. unfold this'. rewrite updateDefaultOwner_shape.
  unfold updateDefaultOwner. cbn zeta. cbn [snd].
  fold (deriveAccess (defaultAccess this) access). fold wantsVision.
  rewrite !ownedtokens_perform_if.
  cbn [defaultAccess set_defaultAccess uuid].
  rewrite indexOf_absent, indexOf_present. unfold reconciled.
  destruct (vision (deriveAccess (defaultAccess this) access)) eqn:Hv.
  - assert (ownedBy wantsVision
              (set_defaultAccess (deriveAccess (defaultAccess this) access) this)
              (gameStore env) = true) as ->.
    { unfold ownedBy, wantsVision. cbn [defaultAccess set_defaultAccess visionAccess truthy default from_option id].
      rewrite Hv. cbn [andb]. by rewrite !orb_true_r. }
    by destruct (includes _ _).
  - destruct (ownedBy wantsVision _ (gameStore env)); [done|].
    by destruct (includes _ _).
Qed.

(** X13. The default triple and the owned tokens.  After
    [updateDefaultOwner], if the stored default grants vision, the shape's id
    is among the owned tokens (token or not); if it does not and the acting
    identity has no other vision access, the id is not among them, provided
    the array held no id twice; if it does not but the acting identity keeps
    vision access, the array is as before. *)
Theorem updateDefaultOwner_owned_tokens (access : ShapeAccess) (sync : bool)
    (this : Shape) (env : Env) :
  let this' := (updateDefaultOwner access sync this env).1 in
  let env' := (updateDefaultOwner access sync this env).2 in
  (vision (defaultAccess this') = true → uuid this ∈ ownedtokens (gameStore env'))
  ∧ (vision (defaultAccess this') = false →
     ownedBy wantsVision this' (gameStore env) = false →
     NoDup (ownedtokens (gameStore env)) →
     uuid this ∉ ownedtokens (gameStore env'))
  ∧ (vision (defaultAccess this') = false →
     ownedBy wantsVision this' (gameStore env) = true →
     ownedtokens (gameStore env') = ownedtokens (gameStore env)).
Proof.
  intros this' env'. unfold env'.
  pose proof (updateDefaultOwner_ownedtokens access sync this env) as Ht.
  cbv zeta in Ht. fold this' in Ht. rewrite Ht. clear Ht.
  split; [|split].
  - intros ->. unfold reconciled, includes, push. cbn [andb negb].
    case_bool_decide; cbn [negb]; [done|].
    apply elem_of_app. right. by apply list_elem_of_singleton.
  - intros -> -> Hnd Hin. by apply (reconciled_elem false _ _ Hnd) in Hin.
  - by intros -> ->.
Qed.

Lemma updateOwner_ownedtokens owner sync this env targetOwner :
  applicable owner this →
  ownerEntry (u_user owner) this = Some targetOwner →
  let stored := deriveAccess (access targetOwner) (u_access owner) in
  ownedtokens (gameStore (updateOwner owner sync this env).2)
  = if negb (Bool.eqb (vision (access targetOwner)) (vision stored))
       && bool_decide (u_user owner = username (gameStore env))
    then reconciled (vision stored) (uuid this) (ownedtokens (gameStore env))
    else ownedtokens (gameStore env).
Proof.
  intros [Hs Hh] Hf stored. unfold updateOwner.
  rewrite Hs, bool_decide_eq_true_2 by done. rewrite Hh. cbn [negb].
  unfold ownerEntry in Hf. rewrite Hf. cbn zeta. cbn [snd].
  fold (deriveAccess (access targetOwner) (u_access owner)). fold stored.
  rewrite !ownedtokens_perform_if.
  assert (user targetOwner = u_user owner) as ->.
  { apply find_some in Hf as [_ Hu]. by apply bool_decide_eq_true in Hu. }
  destruct (negb _ && bool_decide _); [|done].
  rewrite indexOf_absent, indexOf_present. unfold reconciled.
  by destruct (vision stored), (includes _ _).
Qed.

Lemma removeOwner_ownedtokens user' sync this env :
  hasOwner user' this = true →
  ownedtokens (gameStore (removeOwner user' sync this env).2)
  = if bool_decide (user' = username (gameStore env))
    then reconciled false (uuid this) (ownedtokens (gameStore env))
    else ownedtokens (gameStore env).
Proof.
  intros Hh.
  destruct (owners_split_at _ _ Hh) as (l1 & o & l2 & Hl & Hall & Ho & _).
  unfold removeOwner. rewrite Hl.
  rewrite findIndex_app_first by (by try apply bool_decide_eq_true).
  assert ((Z.of_nat (length l1) <? 0) = false) as -> by (apply Z.ltb_ge; lia).
  rewrite Nat2Z.id, list_lookup_middle by done. cbn zeta. cbn [snd].
  rewrite !ownedtokens_perform_if. cbn [uuid set_owners].
  destruct (bool_decide _); [|done].
  rewrite indexOf_present. unfold reconciled. cbn [negb andb].
  by destruct (includes _ _).
Qed.

(** X14. The acting user's entry and the owned tokens.  When [updateOwner]
    changes the vision access of the acting user's own entry, the shape's id
    is among the owned tokens afterwards exactly when the stored entry
    grants vision; when [removeOwner] removes the acting user's entry, the
    id is no longer among them (also if the default triple still grants
    vision).  An update or removal of another user's entry, or an update
    that leaves vision as it was, leaves the owned tokens as they were.
    The array is assumed to hold no id twice. *)
Theorem own_entry_change_updates_owned_tokens (sync : bool) (this : Shape)
    (env : Env) :
  NoDup (ownedtokens (gameStore env)) →
  (∀ owner targetOwner,
     applicable owner this →
     ownerEntry (u_user owner) this = Some targetOwner →
     let stored := deriveAccess (access targetOwner) (u_access owner) in
     let tokens' := ownedtokens (gameStore (updateOwner owner sync this env).2) in
     (u_user owner = username (gameStore env) →
      vision stored ≠ vision (access targetOwner) →
      (uuid this ∈ tokens' ↔ vision stored = true))
     ∧ (u_user owner ≠ username (gameStore env)
        ∨ vision stored = vision (access targetOwner) →
        tokens' = ownedtokens (gameStore env)))
  ∧ (∀ user',
       hasOwner user' this = true →
       let tokens' := ownedtokens (gameStore (removeOwner user' sync this env).2) in
       (user' = username (gameStore env) → uuid this ∉ tokens')
       ∧ (user' ≠ username (gameStore env) →
          tokens' = ownedtokens (gameStore env))).
Proof.
  intros Hnd. split.
  - intros owner targetOwner Happ Hf stored tokens'. unfold tokens'.
    rewrite (updateOwner_ownedtokens _ _ _ _ _ Happ Hf). fold stored. split.
    + intros Hu Hv. rewrite (bool_decide_eq_true_2 _ Hu).
      assert (Bool.eqb (vision (access targetOwner)) (vision stored) = false) as ->.
      { apply eqb_false_iff. congruence. }
      cbn [negb andb]. by apply reconciled_elem.
    + intros [Hu | Hv].
      * rewrite (bool_decide_eq_false_2 _ Hu). by rewrite andb_false_r.
      * rewrite Hv, eqb_reflx. done.
  - intros user' Hh tokens'. unfold tokens'.
    rewrite (removeOwner_ownedtokens _ _ _ _ Hh). split.
    + intros Hu. rewrite (bool_decide_eq_true_2 _ Hu).
      intros Hin. by apply (reconciled_elem false _ _ Hnd) in Hin.
    + intros Hu. by rewrite (bool_decide_eq_false_2 _ Hu).
Qed.

(** X15. The owned tokens stay a set.  If the array holds no id twice, the
    same is true after [updateOwner], [removeOwner] and
    [updateDefaultOwner], whatever the arguments. *)
Theorem owned_tokens_stay_duplicate_free (sync : bool) (this : Shape) (env : Env) :
  NoDup (ownedtokens (gameStore env)) →
  (∀ owner, NoDup (ownedtokens (gameStore (updateOwner owner sync this env).2)))
  ∧ (∀ user', NoDup (ownedtokens (gameStore (removeOwner user' sync this env).2)))
  ∧ (∀ access,
       NoDup (ownedtokens (gameStore (updateDefaultOwner access sync this env).2))).
Proof.
  intros Hnd. split; [|split].
  - intros owner. destruct (decide (applicable owner this)) as [Happ|Hrej].
    + destruct (ownerEntry_is_Some _ _ (proj2 Happ)) as [targetOwner Hf].
      rewrite (updateOwner_ownedtokens _ _ _ _ _ Happ Hf).
      destruct (negb _ && bool_decide _); [by apply reconciled_NoDup | done].
    + by rewrite updateOwner_rejected.
  - intros user'. destruct (hasOwner user' this) eqn:Hh.
    + rewrite (removeOwner_ownedtokens _ _ _ _ Hh).
      destruct (bool_decide _); [by apply reconciled_NoDup | done].
    + by rewrite removeOwner_absent.
  - intros access. rewrite updateDefaultOwner_ownedtokens.
    destruct (vision _); [by apply reconciled_NoDup|].
    destruct (ownedBy _ _ _); [done | by apply reconciled_NoDup].
Qed.

(** ** Ownership: what the mutators leave alone *)

Lemma sameButOwnedTokens_refl env : sameButOwnedTokens env env.
Proof. by repeat split. Qed.

Lemma sameButOwnedTokens_perform_if env c e env0 :
  sameButOwnedTokens env env0 → sameButOwnedTokens env (perform_if c e env0).
Proof. by destruct c. Qed.

Lemma sameButOwnedTokens_set_ownedtokens env v env0 :
  sameButOwnedTokens env env0 → sameButOwnedTokens env (set_ownedtokens v env0).
Proof. done. Qed.

Ltac solve_frame :=
  repeat first [ apply sameButOwnedTokens_perform_if
               | apply sameButOwnedTokens_set_ownedtokens
               | apply sameButOwnedTokens_refl ].

(** X16. What a change of ownership leaves alone.  [addOwner],
    [updateOwner], [removeOwner], [updateDefaultOwner] and [setIsToken]
    change nothing of the session state but the owned tokens and the trace
    of calls: the acting identity, the active tokens, the blocker arrays,
    the vision-source registry and the shape registry are as before. *)
Theorem ownership_change_frame (sync : bool) (this : Shape) (env : Env) :
  (∀ owner, sameButOwnedTokens env (addOwner owner sync this env).2)
  ∧ (∀ owner, sameButOwnedTokens env (updateOwner owner sync this env).2)
  ∧ (∀ user', sameButOwnedTokens env (removeOwner user' sync this env).2)
  ∧ (∀ access, sameButOwnedTokens env (updateDefaultOwner access sync this env).2)
  ∧ (∀ b, sameButOwnedTokens env (setIsToken b this env).2).
Proof.
  split; [|split; [|split; [|split]]].
  - intros owner. unfold addOwner. cbn zeta.
    destruct (negb (bool_decide _)); [solve_frame|].
    destruct (negb (hasOwner _ _)); [|solve_frame].
    cbn [snd]. case_env_ifs; solve_frame.
  - intros owner. unfold updateOwner. cbn zeta.
    destruct (negb (bool_decide _)); [solve_frame|].
    destruct (negb (hasOwner _ _)); [solve_frame|].
    destruct (find _ _); [|solve_frame].
    cbn [snd]. case_env_ifs; solve_frame.
  - intros user'. unfold removeOwner. cbn zeta.
    destruct (_ <? 0); [solve_frame|].
    destruct (_ !! _); [|solve_frame].
    cbn [snd]. case_env_ifs; solve_frame.
  - intros access. unfold updateDefaultOwner. cbn zeta. cbn [snd].
    case_env_ifs; solve_frame.
  - intros b. unfold setIsToken. cbn zeta. cbn [snd].
    case_env_ifs; solve_frame.
Qed.

(** ** Ownership: what the predicate answers *)

(** X17. On a shape whose grants satisfy edit-implies-all, whoever owns the
    shape for editing owns it for vision and for movement too. *)
Theorem edit_ownership_implies_vision_and_movement (this : Shape) (gs : GameStore) :
  grantsWellFormed this →
  ownedBy wantsEdit this gs = true →
  ownedBy wantsVision this gs = true ∧ ownedBy wantsMovement this gs = true.
Proof.
  intros [Hd Ho]. rewrite !ownedBy_iff.
  intros [?|[?|[Hs|(u & Hin & Hu & Ha)]]]; [by split; left | by split; right; left | |].
  - assert (edit (defaultAccess this) = true) as He.
    { by destruct Hs as [[_ ?]|[[? _]|[? _]]]. }
    destruct (Hd He) as [Hv Hm].
    split; right; right; left; unfold grantsSome; cbn; auto.
  - rewrite Forall_forall in Ho. specialize (Ho u Hin).
    destruct Ha as [He _]. destruct (Ho (He eq_refl)) as [Hv Hm].
    split; right; right; right; exists u; (split; [done|]); (split; [done|]);
      unfold grantsAll; cbn; auto.
Qed.

Lemma some_app {A} (p : A → bool) (l1 l2 : list A) :
  some p (l1 ++ l2) = some p l1 || some p l2.
Proof. apply existsb_app. Qed.

Lemma some_none {A} (p : A → bool) (l : list A) :
  Forall (λ z, p z = false) l → some p l = false.
Proof.
  induction 1 as [|z l Hz _ IH]; simpl; [done|]. by rewrite Hz.
Qed.

Lemma ownedBy_set_owners_nil options this gs l :
  Forall (λ o, user o ≠ username gs) l →
  ownedBy options (set_owners l this) gs = ownedBy options (set_owners [] this) gs.
Proof.
  intros Hall. unfold ownedBy. cbn [_owners set_owners uuid defaultAccess].
  f_equal. cbn [some existsb]. apply some_none.
  eapply Forall_impl; [exact Hall|]. intros o Ho. cbv beta.
  by rewrite bool_decide_eq_false_2.
Qed.

(** X18. Ownership follows the acting user's entry.  After [addOwner] has
    appended an entry for the acting user, the user owns the shape for every
    request whose capabilities the stored grant covers.  Appending an entry
    for somebody else changes no answer of [ownedBy] for the acting user.
    After [removeOwner] has removed the acting user's entry (one entry per
    user), the answers are those of the shape without any owner entry: what
    is left is the game-master, impersonation and default-access ways of
    owning it. *)
Theorem ownedBy_follows_own_entry (options : Capabilities) (sync : bool)
    (this : Shape) (env : Env) (gs : GameStore) :
  (∀ owner,
     accepted owner this →
     n_user owner = username gs →
     grantsAll options (grantedAccess (n_access owner)) →
     ownedBy options (addOwner owner sync this env).1 gs = true)
  ∧ (∀ owner,
       n_user owner ≠ username gs →
       ownedBy options (addOwner owner sync this env).1 gs = ownedBy options this gs)
  ∧ (NoDup (ownerNames this) →
     hasOwner (username gs) this = true →
     ownedBy options (removeOwner (username gs) sync this env).1 gs
     = ownedBy options (set_owners [] this) gs).
Proof.
  split; [|split].
  - intros owner Hacc Hu Hg. apply ownedBy_iff. right. right. right.
    eexists. rewrite (addOwner_accepted _ _ _ _ Hacc). cbn [_owners set_owners].
    split; [apply elem_of_app; right; by apply list_elem_of_singleton|].
    by split.
  - intros owner Hu. destruct (decide (accepted owner this)) as [Hacc|Hrej].
    + rewrite (addOwner_accepted _ _ _ _ Hacc). unfold ownedBy.
      cbn [_owners set_owners uuid defaultAccess]. f_equal.
      rewrite some_app. cbn [some existsb user].
      rewrite (bool_decide_eq_false_2 _ Hu). cbn [andb]. by rewrite !orb_false_r.
    + by rewrite (addOwner_rejected _ _ _ _ Hrej).
  - intros Hnd Hh.
    destruct (owners_split_at _ _ Hh) as (l1 & o & l2 & Hl & Hall & Ho & _).
    rewrite (removeOwner_present _ _ _ _ _ _ _ Hl Hall Ho).
    apply ownedBy_set_owners_nil.
    unfold ownerNames in Hnd. rewrite Hl in Hnd.
    destruct (NoDup_ownerNames_remove _ _ _ Hnd) as [_ Hout].
    apply Forall_forall. intros z Hz Hu. apply Hout.
    rewrite Ho, <- Hu. apply list_elem_of_fmap. by exists z.
Qed.

(** ** Obstruction bookkeeping: the registry, the calls, the frame *)

Lemma reconcileAura_elem (this : Shape) (l : list VisionSource) (au : Aura) ls :
  vs_aura ls ≠ aura_uuid au → ls ∈ reconcileAura this l au ↔ ls ∈ l.
Proof.
  intros Hne.
  destruct (reconcileAura_cases this l au)
    as [[Hn ->] | (l1 & ls0 & l2 & -> & Hls & Hn & ->)];
    destruct (visionSource au); try done.
  - rewrite elem_of_app, list_elem_of_singleton.
    split; [intros [? | ->]; [done|by destruct Hne] | by left].
  - rewrite !elem_of_app, elem_of_cons.
    split; [intros [?|?]; auto | intros [?|[ -> |?]]; auto; by destruct Hne].
Qed.

Lemma reconcileAuras_elem (this : Shape) (aus : list Aura) (l : list VisionSource) ls :
  vs_aura ls ∉ aura_uuid <$> aus →
  ls ∈ fold_left (reconcileAura this) aus l ↔ ls ∈ l.
Proof.
  revert l. induction aus as [|au aus IH]; intros l Hn; simpl; [done|].
  rewrite fmap_cons in Hn. apply not_elem_of_cons in Hn as [Hne Hn].
  rewrite (IH _ Hn). by apply reconcileAura_elem.
Qed.

Lemma checkVisionSources_registry recalculate this env :
  getVisionSources (_floor this) (checkVisionSources recalculate this env).2
  = reconcileSources this (getVisionSources (_floor this) env).
Proof.
  rewrite checkVisionSources_unfold. cbv zeta. cbn [snd].
  rewrite getVisionSources_setVisionSources.
  unfold getVisionSources. by rewrite reconcileBlocker_visionSources.
Qed.

(** X19. The vision-source registry after [checkVisionSources].  Every entry
    of the floor's registry that names this shape is backed by an aura of
    the shape that is a vision source.  If the auras of the shape have
    distinct ids and the registry held no aura id twice, every aura of the
    shape is registered exactly when it is a vision source.  An entry of
    another shape whose aura id is none of this shape's is in the registry
    afterwards exactly when it was before. *)
Theorem checkVisionSources_registers_sources (recalculate : bool) (this : Shape)
    (env : Env) :
  let before := getVisionSources (_floor this) env in
  let after := getVisionSources (_floor this)
                 (checkVisionSources recalculate this env).2 in
  (∀ ls, ls ∈ after → vs_shape ls = uuid this → backed this ls = true)
  ∧ (NoDup (aura_uuid <$> auras this) → NoDup (vs_aura <$> before) →
     Forall (settled after) (auras this))
  ∧ (∀ ls, vs_shape ls ≠ uuid this → vs_aura ls ∉ aura_uuid <$> auras this →
       (ls ∈ after ↔ ls ∈ before)).
Proof.
  intros before after. unfold after. rewrite checkVisionSources_registry.
  fold before. unfold reconcileSources. rewrite dropStale_all.
  split; [|split].
  - intros ls [Hst _]%list_elem_of_filter Hs.
    unfold stale in Hst. rewrite (bool_decide_eq_true_2 _ Hs) in Hst.
    by destruct (backed this ls).
  - intros Ha Hl. apply settled_filter.
    by destruct (reconcileAuras_settled this (auras this) before Ha Hl) as (_ & ? & _).
  - intros ls Hs Ha. rewrite list_elem_of_filter, reconcileAuras_elem by done.
    split; [by intros [_ ?]|]. intros Hin. split; [|done].
    unfold stale. by rewrite (bool_decide_eq_false_2 _ Hs).
Qed.

Lemma reconcileBlocker_effects target obstruction recalculate this env :
  effects (reconcileBlocker target obstruction recalculate this env).2
  = effects env
    ++ (if (reconcileBlocker target obstruction recalculate this env).1 && recalculate
        then [if obstruction then AddToTriag target (uuid this)
              else DeleteFromTriag target (uuid this);
              Recalculate target (_floor this)]
        else []).
Proof.
  unfold reconcileBlocker, addBlocker, sliceBlockers.
  destruct (obstruction && _) eqn:H1; [|destruct (negb obstruction && _) eqn:H2].
  - apply andb_true_iff in H1 as [-> _].
    destruct recalculate, target; cbn; by rewrite <- ?app_assoc, ?app_nil_r.
  - apply andb_true_iff in H2 as [->%negb_true_iff _].
    destruct recalculate, target; cbn; by rewrite <- ?app_assoc, ?app_nil_r.
  - cbn. by rewrite app_nil_r.
Qed.

(** X20. Calls into the triangulation.  [checkVisionSources] and
    [setMovementBlock] call the visibility store only when they altered the
    blocker array and [recalculate] is on, and then exactly twice: the id
    is added to (flag on) or deleted from (flag off) the triangulation of
    their target, and the floor is recalculated.  With [recalculate] off, or
    when nothing was altered, the trace of calls is as before. *)
Theorem obstruction_calls_are_batched (recalculate : bool) (this : Shape)
    (env : Env) :
  effects (checkVisionSources recalculate this env).2
  = effects env
    ++ (if (checkVisionSources recalculate this env).1 && recalculate
        then [if visionObstruction this then AddToTriag VISION (uuid this)
              else DeleteFromTriag VISION (uuid this);
              RecalculateVision (_floor this)]
        else [])
  ∧ ∀ blocksMovement,
      effects (setMovementBlock blocksMovement recalculate this env).2
      = effects env
        ++ (if (setMovementBlock blocksMovement recalculate this env).1.1
               && recalculate
            then [if blocksMovement then AddToTriag MOVEMENT (uuid this)
                  else DeleteFromTriag MOVEMENT (uuid this);
                  RecalculateMovement (_floor this)]
            else []).
Proof.
  split.
  - rewrite checkVisionSources_unfold. cbv zeta. cbn [fst snd].
    cbn [effects setVisionSources set_visionSources].
    apply reconcileBlocker_effects.
  - intros blocksMovement. rewrite setMovementBlock_unfold. cbv zeta. cbn [fst snd].
    rewrite reconcileBlocker_effects, orb_false_r. done.
Qed.

Lemma reconciled_other (obstruction : bool) (u u' : string) (l : list string) :
  u' ≠ u → u' ∈ reconciled obstruction u l ↔ u' ∈ l.
Proof.
  intros Hne. unfold reconciled, includes, push.
  destruct (indexOf_split u l) as [[Hi Hn] | (l1 & l2 & -> & Hn & Hi)]; rewrite ?Hi.
  - rewrite bool_decide_eq_false_2 by done. destruct obstruction; cbn [andb negb]; [|done].
    rewrite elem_of_app, list_elem_of_singleton. split; [by intros [?|?] | by left].
  - rewrite bool_decide_eq_true_2 by apply elem_of_middle.
    destruct obstruction; cbn [andb negb]; [done|].
    rewrite splice1_middle, !elem_of_app, elem_of_cons.
    split; [intros [?|?]; auto | by intros [?|[?|?]]; auto].
Qed.

Lemma getBlockers_setBlockers_floor target target' floor floor' l env :
  floor ≠ floor' →
  getBlockers target' floor' (setBlockers target floor l env)
  = getBlockers target' floor' env.
Proof.
  intros Hne. destruct target, target'; unfold getBlockers; cbn; try done;
    by rewrite lookup_insert_ne.
Qed.

Lemma reconcileBlocker_floor target target' floor obstruction recalculate this env :
  floor ≠ _floor this →
  getBlockers target' floor
    (reconcileBlocker target obstruction recalculate this env).2
  = getBlockers target' floor env.
Proof.
  intros Hne. unfold reconcileBlocker, addBlocker, sliceBlockers.
  destruct (obstruction && _); [|destruct (negb obstruction && _)]; simpl;
    rewrite ?getBlockers_perform_if, ?getBlockers_setBlockers_floor; done.
Qed.

Lemma reconcileBlocker_stores target obstruction recalculate this env :
  let env' := (reconcileBlocker target obstruction recalculate this env).2 in
  gameStore env' = gameStore env ∧ fowLos env' = fowLos env
  ∧ UUIDMap env' = UUIDMap env ∧ visionSources env' = visionSources env.
Proof.
  unfold reconcileBlocker, addBlocker, sliceBlockers.
  destruct (obstruction && _); [|destruct (negb obstruction && _)];
    destruct recalculate, target; done.
Qed.

Lemma reconcileBlocker_other_map target obstruction recalculate this env :
  let env' := (reconcileBlocker target obstruction recalculate this env).2 in
  match target with
  | VISION => movementBlockers env' = movementBlockers env
  | MOVEMENT => visionBlockers env' = visionBlockers env
  end.
Proof.
  unfold reconcileBlocker, addBlocker, sliceBlockers.
  destruct (obstruction && _); [|destruct (negb obstruction && _)];
    destruct recalculate, target; done.
Qed.

(** X21. What the obstruction bookkeeping leaves alone.
    [checkVisionSources] changes nothing of the game store, the [fowLos]
    setting, the movement blockers and the shape registry; the vision
    blockers and the registry of every other floor are as before, and on the
    shape's floor every other id is a vision blocker exactly when it was.
    [setMovementBlock] changes nothing but the movement blockers of the
    shape's floor, where every other id is a blocker exactly when it was,
    and the shape's [movementObstruction] flag. *)
Theorem obstruction_bookkeeping_frame (recalculate : bool) (this : Shape)
    (env : Env) :
  (let env' := (checkVisionSources recalculate this env).2 in
   gameStore env' = gameStore env ∧ fowLos env' = fowLos env
   ∧ UUIDMap env' = UUIDMap env ∧ movementBlockers env' = movementBlockers env
   ∧ (∀ floor, floor ≠ _floor this →
        getBlockers VISION floor env' = getBlockers VISION floor env
        ∧ getVisionSources floor env' = getVisionSources floor env)
   ∧ (∀ u, u ≠ uuid this →
        u ∈ getBlockers VISION (_floor this) env'
        ↔ u ∈ getBlockers VISION (_floor this) env))
  ∧ (∀ blocksMovement,
       let r := setMovementBlock blocksMovement recalculate this env in
       r.1.2 = set_movementObstruction blocksMovement this
       ∧ gameStore r.2 = gameStore env ∧ fowLos r.2 = fowLos env
       ∧ UUIDMap r.2 = UUIDMap env ∧ visionBlockers r.2 = visionBlockers env
       ∧ visionSources r.2 = visionSources env
       ∧ (∀ floor, floor ≠ _floor this →
            getBlockers MOVEMENT floor r.2 = getBlockers MOVEMENT floor env)
       ∧ (∀ u, u ≠ uuid this →
            u ∈ getBlockers MOVEMENT (_floor this) r.2
            ↔ u ∈ getBlockers MOVEMENT (_floor this) env)).
Proof.
  split.
  - cbv zeta.
    destruct (reconcileBlocker_stores VISION (visionObstruction this) recalculate
                this env) as (Hg & Hf & Hu & Hs).
    pose proof (reconcileBlocker_other_map VISION (visionObstruction this)
                  recalculate this env) as Hm.
    cbv zeta in Hg, Hf, Hu, Hs, Hm.
    rewrite checkVisionSources_blockers, reconcileBlocker_blockers.
    rewrite checkVisionSources_unfold. cbv zeta. cbn [snd].
    split; [done|]. split; [done|]. split; [done|]. split; [done|]. split.
    + intros floor Hne. rewrite getBlockers_setVisionSources.
      split; [by apply reconcileBlocker_floor|].
      unfold getVisionSources, setVisionSources. cbn [visionSources set_visionSources].
      rewrite lookup_insert_ne by done. by rewrite Hs.
    + intros u Hne. by apply reconciled_other.
  - intros blocksMovement. rewrite setMovementBlock_unfold. cbv zeta. cbn [fst snd].
    rewrite orb_false_r.
    destruct (reconcileBlocker_stores MOVEMENT blocksMovement recalculate
                (set_movementObstruction blocksMovement this) env)
      as (Hg & Hf & Hu & Hs).
    pose proof (reconcileBlocker_other_map MOVEMENT blocksMovement
                  recalculate (set_movementObstruction blocksMovement this) env) as Hm.
    cbv zeta in Hg, Hf, Hu, Hs, Hm.
    split; [done|]. split; [done|]. split; [done|]. split; [done|].
    split; [done|]. split; [done|]. split.
    + intros floor Hne. by apply reconcileBlocker_floor.
    + intros u Hne.
      pose proof (reconcileBlocker_blockers MOVEMENT blocksMovement recalculate
                    (set_movementObstruction blocksMovement this) env) as Hb.
      cbn [_floor uuid set_movementObstruction] in Hb. rewrite Hb.
      by apply reconciled_other.
Qed.

(** X22. [setMovementBlock] reports what it did.  It returns [true] exactly
    when the call changed the movement blocker array of the shape's floor.
    If that array holds no id twice, the shape's id is in it afterwards
    exactly when [blocksMovement] is on, and a second call with the same
    argument returns [false] and leaves the shape and the whole session
    state as the first call left them. *)
Theorem setMovementBlock_reports_change (blocksMovement recalculate1 recalculate2 : bool)
    (this : Shape) (env : Env) :
  let first := setMovementBlock blocksMovement recalculate1 this env in
  let second := setMovementBlock blocksMovement recalculate2 first.1.2 first.2 in
  (first.1.1 = true
   ↔ getBlockers MOVEMENT (_floor this) first.2 ≠ getBlockers MOVEMENT (_floor this) env)
  ∧ (NoDup (getBlockers MOVEMENT (_floor this) env) →
     (uuid this ∈ getBlockers MOVEMENT (_floor this) first.2 ↔ blocksMovement = true)
     ∧ second = (false, first.1.2, first.2)).
Proof.
  intros first second. unfold second, first. clear first second.
  rewrite !setMovementBlock_unfold. cbv zeta. cbn [fst snd]. rewrite orb_false_r.
  set (this' := set_movementObstruction blocksMovement this).
  pose proof (reconcileBlocker_blockers MOVEMENT blocksMovement recalculate1 this' env)
    as Hb.
  pose proof (reconcileBlocker_altered MOVEMENT blocksMovement recalculate1 this' env)
    as Ha.
  change (_floor this') with (_floor this) in *.
  change (uuid this') with (uuid this) in *.
  assert (set_movementObstruction blocksMovement this' = this') as -> by done.
  split.
  - rewrite Ha, Hb. by rewrite reconciled_changed.
  - intros Hnd. rewrite Hb.
    pose proof (reconciled_elem blocksMovement (uuid this) _ Hnd) as He.
    split; [done|].
    assert ((reconcileBlocker MOVEMENT blocksMovement recalculate2 this'
               (reconcileBlocker MOVEMENT blocksMovement recalculate1 this' env).2).1
            = false) as Halt.
    { rewrite reconcileBlocker_altered.
      change (_floor this') with (_floor this).
      change (uuid this') with (uuid this). rewrite Hb.
      unfold includes. destruct blocksMovement.
      - rewrite bool_decide_eq_true_2 by by apply He. done.
      - rewrite bool_decide_eq_false_2; [done|]. intros Hin. by apply He in Hin. }
    by rewrite Halt, (reconcileBlocker_unaltered _ _ _ _ _ Halt).
Qed.

(** ** Groups: members, dangling ids and malformed group data *)

(** X23. A member resolves to its leader's group.  A shape whose [groupId]
    names another, registered shape that carries a [groupInfo] array of ids
    resolves to that leader followed by the shapes the ids resolve to; the
    member's own [groupInfo], if any, is not consulted.  If the leader is
    registered under its own id and has no [groupId] of its own, leader and
    member resolve to the same list. *)
Theorem member_resolves_to_leaders_group (member leader : Shape) (env : Env)
    (g : string) (ids : list string) :
  Map_get "groupId" (options member) = Some (JStr g) →
  g ≠ uuid member →
  UUIDMap env !! g = Some leader →
  Map_get "groupInfo" (options leader) = Some (JArr (JStr <$> ids)) →
  getGroupMembers member env = Some (leader :: existingMembers env ids)
  ∧ (g = uuid leader →
     Map_get "groupId" (options leader) = None →
     getGroupMembers leader env = getGroupMembers member env).
Proof.
  intros Hid Hne Hreg Hinfo.
  assert (getGroupMembers member env = Some (leader :: existingMembers env ids)) as Hm.
  { unfold getGroupMembers. rewrite (Map_has_get _ _ _ Hid). cbn [orb negb].
    rewrite Hid, (bool_decide_eq_false_2 _ Hne), Hreg.
    rewrite (Map_has_get _ _ _ Hinfo), Hinfo. cbn [negb].
    by rewrite collect_members. }
  split; [done|]. intros -> Hnone. rewrite Hm.
  unfold getGroupMembers. rewrite (Map_has_get _ _ _ Hinfo), orb_true_r. cbn [negb].
  rewrite Hnone, bool_decide_eq_true_2 by done.
  rewrite (Map_has_get _ _ _ Hinfo), Hinfo. cbn [negb].
  by rewrite collect_members.
Qed.

(** X24. Dangling and malformed group data.  A shape whose [groupId] names
    no registered shape (an unknown id, or a value that is not a string)
    resolves to itself alone, and so does a shape whose leader carries no
    [groupInfo].  A shape that is its own leader and whose [groupInfo] is
    not an array makes the call raise. *)
Theorem getGroupMembers_dangling_or_malformed (this : Shape) (env : Env) :
  (∀ v, Map_get "groupId" (options this) = Some v →
        v ≠ JStr (uuid this) → namesNoShape v env →
        getGroupMembers this env = Some [this])
  ∧ (∀ g leader,
       Map_get "groupId" (options this) = Some (JStr g) →
       g ≠ uuid this →
       UUIDMap env !! g = Some leader →
       Map_has "groupInfo" (options leader) = false →
       getGroupMembers this env = Some [this])
  ∧ (∀ v, Map_get "groupId" (options this) = None →
          Map_get "groupInfo" (options this) = Some v →
          isArray v = false →
          getGroupMembers this env = None).
Proof.
  split; [|split].
  - intros v Hid Hne Hno. unfold getGroupMembers.
    rewrite (Map_has_get _ _ _ Hid). cbn [orb negb]. rewrite Hid.
    destruct v as [|b|n|g|l|l]; try done.
    assert (g ≠ uuid this) as Hg by congruence.
    rewrite (bool_decide_eq_false_2 _ Hg). cbn in Hno. by rewrite Hno.
  - intros g leader Hid Hne Hreg Hinfo. unfold getGroupMembers.
    rewrite (Map_has_get _ _ _ Hid). cbn [orb negb].
    by rewrite Hid, (bool_decide_eq_false_2 _ Hne), Hreg, Hinfo.
  - intros v Hid Hinfo Harr. unfold getGroupMembers.
    rewrite (Map_has_get _ _ _ Hinfo), orb_true_r. cbn [negb].
    rewrite Hid, bool_decide_eq_true_2 by done.
    rewrite (Map_has_get _ _ _ Hinfo), Hinfo. cbn [negb].
    by destruct v.
Qed.

(** ** Deserialization: partial payloads and the shape's own payload *)

(** X25. Partial payloads.  When the layer manager knows the payload's
    floor and layer, [fromDict] on a payload without options text (absent or
    empty) does not consult the parser, returns, and keeps the options of
    the receiver; an empty name keeps the receiver's name and an absent or
    empty annotation keeps its annotation, while non-empty ones replace
    them.  When the layer manager does not know the payload's floor and
    layer, [fromDict] raises, whatever the payload holds. *)
Theorem fromDict_falsy_fields_keep_receiver (data : ServerShape) (this : Shape)
    (env : Env) :
  (is_Some (LayerManager_getLayer (d_floor data) (d_layer data)) →
   falsy (d_options data) →
   ∃ this' env',
     fromDict data this env = Some (this', env')
     ∧ options this' = options this
     ∧ (d_name data = "" → name this' = name this)
     ∧ (d_name data ≠ "" → name this' = d_name data)
     ∧ (falsy (d_annotation data) → annotation this' = annotation this)
     ∧ (∀ text, text ≠ "" → d_annotation data = Some text →
          annotation this' = text))
  ∧ (LayerManager_getLayer (d_floor data) (d_layer data) = None →
     fromDict data this env = None).
Proof.
  split.
  - intros Hlayer Hopt. unfold falsy in Hopt.
    destruct (fromDict_returns data this env (options this) Hlayer)
      as (this' & env' & Hf & Ho & Hn & Ha).
    { by rewrite Hopt. }
    exists this', env'. split; [done|]. split; [done|].
    rewrite Hn, Ha. split; [|split; [|split]].
    + intros ->. done.
    + intros Hne. by rewrite truthy_string_nonempty.
    + intros Hfa. unfold falsy in Hfa. by rewrite Hfa.
    + intros text Hne ->. by rewrite truthy_string_nonempty.
  - intros Hl. unfold fromDict. by rewrite Hl.
Qed.

Lemma aurasFromServer_aurasToServer (l : list Aura) :
  aurasFromServer (aurasToServer l) = l.
Proof.
  unfold aurasToServer, aurasFromServer.
  induction l as [|[] l IH]; simpl; [done|]. by f_equal.
Qed.

Lemma ownerToClient_ownerToServer (l : list ShapeOwner) :
  map ownerToClient (map ownerToServer l) = l.
Proof.
  induction l as [|[? ? []] l IH]; simpl; [done|]. by f_equal.
Qed.

(** X26. A shape's own payload.  Deserializing the payload of [getBaseDict]
    into the shape it was taken from returns and leaves every field of the
    shape as it was, provided the layer manager knows the shape's floor and
    layer, the default triple satisfies edit-implies-all, the options are a
    map from string keys to values and the platform's parser reads the
    options text back. *)
Theorem fromDict_own_payload (this : Shape) (env : Env) :
  is_Some (LayerManager_getLayer (_floor this) (_layer this)) →
  editImpliesAll (defaultAccess this) →
  stringKeyed (options this) →
  JSON_parse (JSON_stringify (entriesToJson (options this)))
  = Some (entriesToJson (options this)) →
  ∃ env', fromDict (getBaseDict this) this env = Some (this, env').
Proof.
  intros [l Hl] Hwf Hkeys Hparse.
  assert ((if truthy_string (d_options (getBaseDict this))
           then parseOptions (default "" (d_options (getBaseDict this)))
           else Some (options this)) = Some (options this)) as Hopt.
  { destruct (truthy_string (d_options (getBaseDict this))); [|done].
    cbn [d_options getBaseDict default from_option id].
    by apply parseOptions_own_text. }
  unfold fromDict. cbn [d_floor d_layer getBaseDict]. rewrite Hl, Hopt.
  eexists. f_equal.
  rewrite (surjective_pairing (updateDefaultOwner _ _ _ _)). f_equal.
  rewrite updateDefaultOwner_shape.
  cbn [defaultAccess set_defaultAccess getBaseDict d_default_edit_access
       d_default_movement_access d_default_vision_access d_floor d_layer d_angle
       d_fill_colour d_stroke_colour d_name d_name_visible d_trackers d_auras
       d_labels d_owners d_vision_obstruction d_movement_obstruction d_is_token
       d_is_invisible d_annotation d_draw_operator d_badge d_show_badge d_is_locked
       type uuid _floor _layer preventSync _refPoint _angle fillColour strokeColour
       strokeWidth name nameVisible trackers auras labels _owners visionObstruction
       movementObstruction isToken isInvisible showHighlight annotation
       globalCompositeOperation options badge showBadge isLocked].
  rewrite aurasFromServer_aurasToServer, ownerToClient_ownerToServer.
  assert ({| edit := edit (defaultAccess this);
             vision := vision (defaultAccess this);
             movement := movement (defaultAccess this) |} = defaultAccess this) as ->
    by (by destruct (defaultAccess this)).
  rewrite deriveAccess_verbatim by done.
  assert ((if truthy_string (Some (name this)) then name this else name this)
          = name this) as -> by (by destruct (truthy_string (Some (name this)))).
  assert ((if truthy_string (Some (annotation this))
           then default "" (Some (annotation this)) else annotation this)
          = annotation this) as ->
    by (by destruct (truthy_string (Some (annotation this)))).
  by destruct this.
Qed.

(** ** The inbound handlers: unknown layers, batches, shape order *)

Lemma sameClient_console_log message c : sameClient c (console_log message c).
Proof. by repeat split. Qed.

(** X27. Events that name an unknown layer.  For a registered shape and an
    event whose layer the layer manager does not know, the ["remove shape"],
    ["clear temporaries"] and ["moveShapeOrder"] handlers write one console
    message that ends with the layer's name and do nothing else: no method
    of a layer is called, and the layers and the stores are as before. *)
Theorem handlers_reject_unknown_layer (shape : ServerShape) (index : float)
    (c : Client) :
  is_Some (UUIDMap (client_env c) !! d_uuid shape) →
  hasLayer (d_layer shape) c = false →
  let c' :=
    console_log ("Attempted to remove shape from an unknown layer " +:+ d_layer shape)
      c in
  on_remove_shape shape c = c'
  ∧ on_clear_temporaries [shape] c = c'
  ∧ on_moveShapeOrder shape index c = Some c'
  ∧ sameClient c c'.
Proof.
  intros [real_shape Hreg] Hlayer c'.
  unfold on_remove_shape, on_clear_temporaries, on_moveShapeOrder.
  cbn [fold_left]. unfold clear_temporary. rewrite Hreg, Hlayer. cbn [negb].
  split; [done|]. split; [done|]. split; [done|]. apply sameClient_console_log.
Qed.

(** X28. A batch of unknown temporaries.  When none of the shapes of a
    ["clear temporaries"] event is registered, the handler goes through the
    whole batch, writes one console message per shape, and leaves the layers
    and the stores as they were. *)
Theorem clear_temporaries_all_unknown (shapes : list ServerShape) (c : Client) :
  Forall (λ shape, UUIDMap (client_env c) !! d_uuid shape = None) shapes →
  let c' := on_clear_temporaries shapes c in
  sameClient c c'
  ∧ effects (client_env c')
    = effects (client_env c)
      ++ replicate (length shapes)
           (ConsoleLog "Attempted to remove an unknown temporary shape").
Proof.
  intros Hall. cbv zeta. unfold on_clear_temporaries.
  revert c Hall. induction shapes as [|shape shapes IH]; intros c Hall.
  - cbn. split; [by repeat split | by rewrite app_nil_r].
  - apply Forall_cons in Hall as [Hs Hall]. cbn [fold_left length replicate].
    set (c1 := console_log "Attempted to remove an unknown temporary shape" c).
    assert (clear_temporary c shape = c1) as ->
      by (unfold clear_temporary; by rewrite Hs).
    destruct (IH c1 Hall) as [(Hl & Hg & Hf & Hv & Hm & Hvs & Hu) He].
    split.
    + split; [exact Hl|]. by repeat split.
    + rewrite He. cbn [c1 console_log client_env effects perform].
      by rewrite <- app_assoc.
Qed.

(** X29. When the ["moveShapeOrder"] handler raises.  The handler checks
    the layer the event names and then calls [moveShapeOrder] on the layer
    of the registered shape: it raises exactly when the shape is registered,
    the event's layer is known and the registered shape's own layer is not.
    In a client where every registered shape is on a known layer it always
    returns; an unknown id only writes a console message. *)
Theorem on_moveShapeOrder_raises_iff (shape : ServerShape) (index : float)
    (c : Client) :
  (on_moveShapeOrder shape index c = None
   ↔ ∃ real_shape,
       UUIDMap (client_env c) !! d_uuid shape = Some real_shape
       ∧ hasLayer (d_layer shape) c = true
       ∧ hasLayer (_layer real_shape) c = false)
  ∧ ((∀ u s, UUIDMap (client_env c) !! u = Some s → hasLayer (_layer s) c = true) →
     is_Some (on_moveShapeOrder shape index c))
  ∧ (UUIDMap (client_env c) !! d_uuid shape = None →
     on_moveShapeOrder shape index c
     = Some (console_log "Attempted to move the shape order of an unknown shape" c)).
Proof.
  unfold on_moveShapeOrder. split; [|split].
  - destruct (UUIDMap (client_env c) !! d_uuid shape) as [real_shape|] eqn:Hreg.
    + destruct (hasLayer (d_layer shape) c) eqn:He; cbn [negb].
      * destruct (hasLayer (_layer real_shape) c) eqn:Hr.
        -- split; [done|]. intros (r & [= <-] & _ & Hr'). congruence.
        -- split; [|done]. intros _. by exists real_shape.
      * split; [done|]. by intros (r & _ & ? & _).
    + split; [done|]. by intros (r & ? & _).
  - intros Hinv.
    destruct (UUIDMap (client_env c) !! d_uuid shape) as [real_shape|] eqn:Hreg; [|done].
    destruct (negb (hasLayer (d_layer shape) c)); [done|].
    by rewrite (Hinv _ _ Hreg).
  - by intros ->.
Qed.

End shape.

(** * Instances *)

(** ** A fragment of the platform's JSON codec

    The properties above hold for any [JSON.stringify]/[JSON.parse]; to run
    them on concrete shapes, the fragment of JSON made of [null], booleans,
    strings without escapes and arrays is enough.  Outside that fragment the
    printer gives the empty text and the parser gives up. *)

Definition quote : ascii := "034"%char.
Definition backslash : ascii := "092"%char.

Fixpoint json_text (v : Json) : string :=
  match v with
  | JNull => "null"
  | JBool true => "true"
  | JBool false => "false"
  | JStr s => String quote (s +:+ String quote "")
  | JArr l =>
      "[" +:+ (fix items (l : list Json) : string :=
                 match l with
                 | [] => ""
                 | [v] => json_text v
                 | v :: l' => json_text v +:+ "," +:+ items l'
                 end) l +:+ "]"
  | JNum _ | JObj _ => ""
  end.

(** Reads a string literal after its opening quote. *)
Fixpoint json_read_string (text : string) (acc : string) : option (Json * string) :=
  match text with
  | EmptyString => None
  | String c rest =>
      if bool_decide (c = quote) then Some (JStr acc, rest)
      else if bool_decide (c = backslash) then None
      else json_read_string rest (acc +:+ String c "")
  end.

(** What the reader is in the middle of: a value, or the items of an array
    after the ones in [acc] (last one first). *)
Inductive JsonMode :=
| ReadValue
| ReadItems (acc : list Json).

Fixpoint json_read (fuel : nat) (mode : JsonMode) (text : string)
    : option (Json * string) :=
  match fuel with
  | O => None
  | S fuel =>
      match mode with
      | ReadValue =>
          match text with
          | String "[" (String "]" rest) => Some (JArr [], rest)
          | String "[" rest => json_read fuel (ReadItems []) rest
          | String "n" (String "u" (String "l" (String "l" rest))) =>
              Some (JNull, rest)
          | String "t" (String "r" (String "u" (String "e" rest))) =>
              Some (JBool true, rest)
          | String "f" (String "a" (String "l" (String "s" (String "e" rest)))) =>
              Some (JBool false, rest)
          | String c rest =>
              if bool_decide (c = quote) then json_read_string rest "" else None
          | EmptyString => None
          end
      | ReadItems acc =>
          match json_read fuel ReadValue text with
          | Some (v, String "," rest) => json_read fuel (ReadItems (v :: acc)) rest
          | Some (v, String "]" rest) => Some (JArr (rev (v :: acc)), rest)
          | _ => None
          end
      end
  end.

Definition json_parse (text : string) : option Json :=
  match json_read (S (String.length text)) ReadValue text with
  | Some (v, EmptyString) => Some v
  | _ => None
  end.

(** ** Sample session *)

(** A player session: not the game master, acting as [alice]. *)
Definition session (user' : string) : GameStore :=
  {| IS_DM := false; FAKE_PLAYER := false; username := user';
     ownedtokens := []; activeTokens := [] |}.

(** A session state with no blockers, no vision sources and the given
    shapes registered. *)
Definition world (shapes : list (@Shape unit unit)) : Env :=
  {| gameStore := session "alice";
     fowLos := false;
     visionBlockers := ∅;
     movementBlockers := ∅;
     visionSources := ∅;
     UUIDMap := list_to_map ((λ s, (uuid s, s)) <$> shapes);
     effects := [] |}.

(** A layer manager that knows the layer ["tokens"] of the floor
    ["ground"] and no other. *)
Definition known_layers (floor layer : string) : option unit :=
  if bool_decide (floor = "ground") && bool_decide (layer = "tokens")
  then Some () else None.

(** The shape ["s1"] of the scenarios, placed on floor ["ground"]. *)
Definition s1 : @Shape unit unit :=
  setLayer "ground" "tokens"
    (new_Shape "rect" {| x := 0; y := 0 |} None None (Some "s1") "fresh").

Definition torch : Aura :=
  {| aura_uuid := "a1"; visionSource := true; value := 20; dim := 10 |}.

Definition fullAccess : ShapeAccess :=
  {| edit := true; movement := true; vision := true |}.

(** ["s1"] with an owner entry granting [alice] everything. *)
Definition s1_owned : @Shape unit unit :=
  set_owners [{| shape := "s1"; user := "alice"; access := fullAccess |}] s1.

(** ["s1"] carrying a torch, and the same shape also blocking vision. *)
Definition s1_torch : @Shape unit unit := set_auras [torch] s1.

Definition s1_torch_wall : @Shape unit unit := set_visionObstruction true s1_torch.

(** ["s1"] as a member of the group led by ["leader"]. *)
Definition s1_member : @Shape unit unit :=
  set_options [entry "groupId" (JStr "leader")] s1_owned.

(** ["s1"] with its name cleared. *)
Definition s1_unnamed : @Shape unit unit := set_name "" s1.

(** ["s1"] drawn with a thinner stroke. *)
Definition s1_thin : @Shape unit unit := set_strokeWidth 3 s1.

(** ["s1"] visible to everybody by default. *)
Definition s1_public : @Shape unit unit :=
  set_defaultAccess {| edit := false; movement := false; vision := true |} s1.

(** A request for edit and vision access together. *)
Definition editAndVision : Capabilities :=
  {| editAccess := Some true; visionAccess := Some true; movementAccess := None |}.

(** A request for edit access alone. *)
Definition editOnly : Capabilities :=
  {| editAccess := Some true; visionAccess := None; movementAccess := None |}.

(** The grant [{user: "alice", access: {edit: true}}] of the scenario. *)
Definition alice_edit : NewOwner :=
  {| n_shape := None; n_user := "alice";
     n_access := {| p_edit := Some true; p_movement := None; p_vision := None |} |}.

(** A request for vision access alone, and a request for nothing. *)
Definition visionOnly : Capabilities :=
  {| editAccess := None; visionAccess := Some true; movementAccess := None |}.

Definition nothing : Capabilities :=
  {| editAccess := None; visionAccess := None; movementAccess := None |}.

(** A group: ["s1"] leads ["m1"] and ["gone"], and ["gone"] has left the
    registry. *)
Definition leader : @Shape unit unit :=
  set_options [entry "groupInfo" (JArr [JStr "m1"; JStr "gone"])] s1.

Definition m1 : @Shape unit unit :=
  set_options [entry "groupId" (JStr "s1")]
    (setLayer "ground" "tokens"
       (new_Shape "circle" {| x := 50; y := 50 |} None None (Some "m1") "fresh")).

(** The payload of ["s1"] as a server could send it, with an owner entry
    that grants [alice] edit access only. *)
Definition payload_edit_only : @ServerShape unit unit :=
  {| d_type_ := "rect";
     d_uuid := "s1";
     d_x := 0;
     d_y := 0;
     d_angle := 0;
     d_floor := "ground";
     d_layer := "tokens";
     d_draw_operator := "source-over";
     d_movement_obstruction := false;
     d_vision_obstruction := false;
     d_auras := [];
     d_trackers := [];
     d_labels := [];
     d_owners :=
       [{| o_shape := "s1"; o_user := "alice";
           o_access := {| edit_access := true; movement_access := false;
                          vision_access := false |} |}];
     d_fill_colour := "#000";
     d_stroke_colour := "rgba(0,0,0,0)";
     d_stroke_width := 5;
     d_name := "Unknown shape";
     d_name_visible := true;
     d_annotation := None;
     d_is_token := false;
     d_is_invisible := false;
     d_options := None;
     d_badge := 1;
     d_show_badge := false;
     d_is_locked := false;
     d_default_edit_access := false;
     d_default_movement_access := false;
     d_default_vision_access := false |}.

(** A client whose layer manager knows the layer ["tokens"] and the shape
    ["s1"]; its layers do nothing on [removeShape] and [invalidate]. *)
Definition client : @Client unit unit unit :=
  {| client_env := world [s1]; layers := {[ "tokens" := () ]} |}.

Definition inert_removeShape (layer : string) (s : @Shape unit unit) (sync : bool)
    (c : @Client unit unit unit) : @Client unit unit unit := c.

Definition inert_invalidate (layer : string) (skipLightUpdate : bool)
    (c : @Client unit unit unit) : @Client unit unit unit := c.

(** A ["remove shape"] event for a shape the client has never seen. *)
Definition ghost_event : @ServerShape unit unit :=
  getBaseDict json_text
    (setLayer "ground" "tokens"
       (new_Shape "rect" {| x := 0; y := 0 |} None None (Some "ghost") "fresh")).

(** ** Further samples *)

(** [bob] asks for vision on ["s1"]. *)
Definition bob_vision : NewOwner :=
  {| n_shape := None; n_user := "bob";
     n_access := {| p_edit := None; p_movement := None; p_vision := Some true |} |}.

(** [alice]'s entry on ["s1"] loses vision. *)
Definition alice_blind : OwnerUpdate :=
  {| u_shape := None; u_user := "alice";
     u_access := {| edit := false; movement := true; vision := false |} |}.

(** A request to open ["s1"] for viewing by everybody. *)
Definition publicVision : ShapeAccess :=
  {| edit := false; movement := false; vision := true |}.

(** ["s1"] with group data that is not an array. *)
Definition s1_malformed : @Shape unit unit :=
  set_options [entry "groupInfo" (JStr "m1")] s1.

(** Layers that do nothing on [moveShapeOrder]. *)
Definition inert_moveShapeOrder (layer : string) (s : @Shape unit unit)
    (index : float) (sync : bool) (c : @Client unit unit unit)
    : @Client unit unit unit := c.

(** An event for ["s1"] that names a layer the client does not know. *)
Definition stray_event : @ServerShape unit unit :=
  getBaseDict json_text (setLayer "ground" "fog" s1).

(** A client that knows the layer ["tokens"] and has ["s1"] registered on a
    layer ["fog"] that it does not know. *)
Definition client_astray : @Client unit unit unit :=
  {| client_env := world [setLayer "ground" "fog" s1];
     layers := {[ "tokens" := () ]} |}.

(** ["s1"] as its constructor leaves it, before it is placed on a layer. *)
Definition s1_new : @Shape unit unit :=
  new_Shape "rect" {| x := 0; y := 0 |} None None (Some "s1") "fresh".



(** ["s1"] with an entry that grants [bob] vision and nothing else. *)
Definition s1_bob_vision : @Shape unit unit :=
  set_owners
    [{| shape := "s1"; user := "bob";
        access := {| edit := false; movement := false; vision := true |} |}] s1.

(** A session in which [alice] plays with the tokens ["m1"] and ["s1"] and
    the [fowLos] setting is on. *)
Definition table : @Env unit unit :=
  {| gameStore :=
       {| IS_DM := false; FAKE_PLAYER := false; username := "alice";
          ownedtokens := ["m1"; "s1"]; activeTokens := [] |};
     fowLos := true;
     visionBlockers := ∅;
     movementBlockers := ∅;
     visionSources := ∅;
     UUIDMap := ∅;
     effects := [] |}.

(** A second shape, ["s2"], placed like ["s1"]. *)
Definition s2 : @Shape unit unit :=
  setLayer "ground" "tokens"
    (new_Shape "circle" {| x := 10; y := 10 |} None None (Some "s2") "fresh").

(** ** The properties on the sample session *)


(** C2 on ["s1"]: after vision on, movement off, movement on, the movement
    blocker array agrees with the movement flag. *)
Lemma C2_witness :
  NoDup (getBlockers MOVEMENT "ground" (world []))
  ∧ NoDup (getBlockers VISION "ground" (world []))
  ∧ blockerConsistent MOVEMENT
      (blockerCall (CallSetMovementBlock true true)
         (blockerCalls
            [CallSetVisionObstruction true true; CallSetMovementBlock false false]
            (s1, world []))).2.
Proof.
  assert (NoDup (getBlockers MOVEMENT (_floor s1) (world []))) as Hm
    by (vm_compute; constructor).
  assert (NoDup (getBlockers VISION (_floor s1) (world []))) as Hv
    by (vm_compute; constructor).
  split; [exact Hm|]. split; [exact Hv|].
  apply (proj1 (C2_blocker_set_consistency s1 (world []) Hm Hv)
           [CallSetVisionObstruction true true; CallSetMovementBlock false false]
           (CallSetMovementBlock true true)).
Defined.

(** C3 on ["s1"] carrying a torch and blocking vision. *)
Lemma C3_witness :
  NoDup (getBlockers VISION (_floor s1_torch_wall) (world []))
  ∧ NoDup (aura_uuid <$> auras s1_torch_wall)
  ∧ NoDup (vs_aura <$> getVisionSources (_floor s1_torch_wall) (world []))
  ∧ (checkVisionSources true s1_torch_wall
       (checkVisionSources true s1_torch_wall (world [])).2).1 = false
  ∧ (checkVisionSources true s1_torch_wall
       (checkVisionSources true s1_torch_wall (world [])).2).2
    = (checkVisionSources true s1_torch_wall (world [])).2.
Proof.
  assert (NoDup (getBlockers VISION (_floor s1_torch_wall) (world []))) as Hb
    by (vm_compute; constructor).
  assert (NoDup (aura_uuid <$> auras s1_torch_wall)) as Ha
    by (vm_compute; apply NoDup_singleton).
  assert (NoDup (vs_aura <$> getVisionSources (_floor s1_torch_wall) (world [])))
    as Hs by (vm_compute; constructor).
  destruct (C3_checkVisionSources_idempotent true true s1_torch_wall (world [])
              Hb Ha Hs) as (Hret & _ & _ & Henv).
  split; [exact Hb|]. split; [exact Ha|]. split; [exact Hs|].
  split; [exact Hret | exact Henv].
Defined.

(** C4 on ["s1"] as a group member owned by [alice], deserialized into
    the shape that the constructor gives for it. *)
Lemma C4_witness :
  constructedFor s1_member s1_new
  ∧ annotation s1_new = ""
  ∧ is_Some (known_layers (_floor s1_member) (_layer s1_member))
  ∧ name s1_member ≠ ""
  ∧ editImpliesAll (defaultAccess s1_member)
  ∧ stringKeyed (options s1_member)
  ∧ json_text (entriesToJson (options s1_member)) ≠ ""
  ∧ json_parse (json_text (entriesToJson (options s1_member)))
    = Some (entriesToJson (options s1_member))
  ∧ ∃ s' env',
      fromDict json_parse known_layers (getBaseDict json_text s1_member) s1_new
        (world [])
      = Some (s', env')
      ∧ set_d_stroke_width (strokeWidth s1_member) (getBaseDict json_text s')
        = getBaseDict json_text s1_member.
Proof.
  assert (constructedFor s1_member s1_new) as H0 by (by repeat split).
  assert (annotation s1_new = "") as Hann by reflexivity.
  assert (is_Some (known_layers (_floor s1_member) (_layer s1_member))) as Hlayer
    by (vm_compute; eauto).
  assert (name s1_member ≠ "") as H2 by (vm_compute; discriminate).
  assert (editImpliesAll (defaultAccess s1_member)) as H3 by (vm_compute; discriminate).
  assert (stringKeyed (options s1_member)) as H4.
  { split; [|vm_compute; apply NoDup_singleton].
    apply Forall_singleton. by eexists _, _. }
  assert (json_text (entriesToJson (options s1_member)) ≠ "") as H5
    by (vm_compute; discriminate).
  assert (json_parse (json_text (entriesToJson (options s1_member)))
          = Some (entriesToJson (options s1_member))) as H6 by (vm_compute; reflexivity).
  repeat (split; [assumption|]).
  exact (C4_round_trip json_text json_parse known_layers s1_member s1_new (world [])
           H0 Hann Hlayer H2 H3 H4 H5 H6).
Defined.

(** X30 on a request for vision alone, by [alice] on her shape. *)
Lemma ownedBy_single_capability_witness :
  singleCapability visionOnly
  ∧ (ownedBy visionOnly s1_owned (session "alice") = true
     ↔ ownedBy_spec visionOnly s1_owned (session "alice")).
Proof.
  assert (singleCapability visionOnly) as Hone by (vm_compute; reflexivity).
  split; [exact Hone|].
  exact (ownedBy_single_capability visionOnly s1_owned (session "alice") Hone).
Defined.

(** The scenario of section 8: the grant [{user: "alice", access: {edit:
    true}}] is added to ["s1"]; asked for edit access, [alice] owns the shape
    and [bob] does not; the stored grant carries vision and movement too. *)
Example scenario_owner_grant :
  ownedBy editOnly (addOwner alice_edit true s1 (world [])).1 (session "alice") = true
  ∧ ownedBy editOnly (addOwner alice_edit true s1 (world [])).1 (session "bob") = false
  ∧ _owners (addOwner alice_edit true s1 (world [])).1
    = [{| shape := "s1"; user := "alice"; access := fullAccess |}].
Proof. by repeat split. Qed.

(** C6 on [alice]'s full grant when her vision is turned off, and on a
    default triple that loses movement. *)
Lemma C6_witness :
  (∃ stored,
     ownerEntry "alice"
       (updateOwner
          {| u_shape := Some "s1"; u_user := "alice";
             u_access := {| edit := true; movement := true; vision := false |} |}
          true s1_owned (world [])).1 = Some stored
     ∧ access stored = {| edit := false; movement := true; vision := false |})
  ∧ defaultAccess
      (updateDefaultOwner {| edit := true; movement := false; vision := true |}
         true (set_defaultAccess fullAccess s1) (world [])).1
    = {| edit := false; movement := false; vision := true |}.
Proof.
  split.
  - apply (proj1 (C6_edit_revoked_on_downgrade s1_owned (world []) true)
             {| u_shape := Some "s1"; u_user := "alice";
                u_access := {| edit := true; movement := true; vision := false |} |}
             {| shape := "s1"; user := "alice"; access := fullAccess |});
      [reflexivity | reflexivity | reflexivity | left; reflexivity].
  - apply (proj2 (C6_edit_revoked_on_downgrade (set_defaultAccess fullAccess s1)
                    (world []) true)
             {| edit := true; movement := false; vision := true |});
      [reflexivity | right; reflexivity].
Defined.

(** C8 on the sample group: the leader resolves to itself and ["m1"]. *)
Lemma C8_witness :
  Map_get "groupInfo" (options leader) = Some (JArr (JStr <$> ["m1"; "gone"]))
  ∧ UUIDMap (world [leader; m1]) !! "gone" = None
  ∧ getGroupMembers leader (world [leader; m1]) = Some [leader; m1]
  ∧ getGroupMembers s1 (world [leader; m1]) = Some [s1].
Proof.
  assert (Map_get "groupInfo" (options leader)
          = Some (JArr (JStr <$> ["m1"; "gone"]))) as Hinfo by reflexivity.
  assert (UUIDMap (world [leader; m1]) !! "gone" = None) as Hgone
    by (vm_compute; reflexivity).
  destruct (C8_getGroupMembers leader (world [leader; m1])) as [_ Hleader].
  destruct (Hleader ["m1"; "gone"] (or_introl eq_refl) Hinfo) as (_ & _ & Hskip).
  split; [exact Hinfo|]. split; [exact Hgone|]. split.
  - rewrite (Hskip ["m1"] "gone" [] eq_refl Hgone). vm_compute. reflexivity.
  - apply (proj1 (C8_getGroupMembers s1 (world [leader; m1]))); reflexivity.
Defined.

(** C9 on an event for a shape the client has never seen, on a layer it
    knows. *)
Lemma C9_witness :
  UUIDMap (client_env client) !! d_uuid ghost_event = None
  ∧ hasLayer (d_layer ghost_event) client = true
  ∧ layers (on_remove_shape inert_removeShape inert_invalidate ghost_event client)
    = layers client
  ∧ effects
      (client_env
         (on_remove_shape inert_removeShape inert_invalidate ghost_event client))
    = [ConsoleLog "Attempted to remove an unknown shape"].
Proof.
  assert (UUIDMap (client_env client) !! d_uuid ghost_event = None) as Hunknown
    by (vm_compute; reflexivity).
  destruct (C9_remove_unknown_shape inert_removeShape inert_invalidate
              ghost_event client Hunknown) as (Hl & _ & _ & _ & _ & _ & _ & He).
  split; [exact Hunknown|]. split; [vm_compute; reflexivity|].
  split; [exact Hl | exact He].
Defined.

(** C10 on a request for nothing: [alice] owns her shape, and a public
    default changes nothing for [bob]. *)
Lemma C10_witness :
  noCapability nothing
  ∧ (ownedBy nothing s1_owned (session "alice") = true
     ↔ IS_DM (session "alice") = true
       ∨ impersonating s1_owned (session "alice")
       ∨ ∃ u, u ∈ _owners s1_owned ∧ user u = username (session "alice"))
  ∧ ownedBy nothing (set_defaultAccess fullAccess s1) (session "bob")
    = ownedBy nothing s1 (session "bob").
Proof.
  assert (noCapability nothing) as Hnone by (vm_compute; auto).
  split; [exact Hnone|]. split.
  - exact (proj1 (C10_ownedBy_without_capability nothing s1_owned
                    (session "alice") Hnone)).
  - exact (proj2 (C10_ownedBy_without_capability nothing s1 (session "bob") Hnone)
             fullAccess).
Defined.

(** ** Where the code departs from the wording of the specification *)


(** C4, the name: a shape with an empty name, deserialized into the shape
    that the constructor gives for it, comes back from the round trip as
    ["Unknown shape"]. *)
Lemma C4_counterexample :
  ∃ s' env',
    fromDict json_parse known_layers (getBaseDict json_text s1_unnamed) s1_new
      (world [])
    = Some (s', env')
    ∧ d_name (getBaseDict json_text s1_unnamed) = ""
    ∧ d_name (getBaseDict json_text s') = "Unknown shape".
Proof. eexists _, _. split; [reflexivity|]. by split. Qed.

(** The stroke width of a payload is not read either: a width of 3 comes
    back as the constructor's 5. *)
Example round_trip_stroke_width :
  ∃ s' env',
    fromDict json_parse known_layers (getBaseDict json_text s1_thin) s1_new
      (world [])
    = Some (s', env')
    ∧ d_stroke_width (getBaseDict json_text s1_thin) = 3%float
    ∧ d_stroke_width (getBaseDict json_text s') = 5%float.
Proof. eexists _, _. split; [reflexivity|]. by split. Qed.

(** A shape that is on no layer the layer manager knows: deserializing its
    own payload raises at the setter of [angle]. *)
Example round_trip_unknown_layer :
  known_layers (_floor s1_new) (_layer s1_new) = None
  ∧ fromDict json_parse known_layers (getBaseDict json_text s1_new) s1_new (world [])
    = None.
Proof. by split. Qed.

(** C5, several capabilities against the default triple: [bob], who has no
    entry, asks for edit and vision on a shape whose default grants vision
    only, and is told he owns it, although the default does not grant every
    requested capability.  The owner-entry clause of the same expression
    does require every requested capability: with the same grant held as
    an entry of [bob] instead, he is told he does not own the shape. *)
Lemma C5_failing_input :
  ownedBy editAndVision s1_public (session "bob") = true
  ∧ ¬ ownedBy_spec editAndVision s1_public (session "bob")
  ∧ ownedBy editAndVision s1_bob_vision (session "bob") = false.
Proof.
  split; [reflexivity|]. split; [|reflexivity].
  intros [Hdm | [[Hfake _] | [(Hedit & _) | (u & Hin & _)]]].
  - discriminate Hdm.
  - discriminate Hfake.
  - specialize (Hedit eq_refl). discriminate Hedit.
  - by apply not_elem_of_nil in Hin.
Qed.

(** With nothing requested, the default triple grants every requested
    capability, and yet [bob] does not own the shape. *)
Example ownedBy_nothing_ignores_default :
  ownedBy nothing s1 (session "bob") = false
  ∧ ownedBy_spec nothing s1 (session "bob").
Proof.
  split; [reflexivity|]. right. right. left. by repeat split.
Qed.

(** C7, vision sources: a call that registers the torch of ["s1"] in the
    registry of its floor returns [false]. *)
Lemma C7_counterexample :
  (checkVisionSources true s1_torch (world [])).1 = false
  ∧ getVisionSources "ground" (world []) = []
  ∧ getVisionSources "ground" (checkVisionSources true s1_torch (world [])).2
    = [{| vs_shape := "s1"; vs_aura := "a1" |}].
Proof. by repeat split. Qed.

(** ** The further properties on the sample session *)

(** X1 on the grant of the scenario. *)
Lemma addOwner_then_lookup_witness :
  accepted alice_edit s1
  ∧ ownerEntry "alice" (addOwner alice_edit true s1 (world [])).1
    = Some {| shape := "s1"; user := "alice"; access := fullAccess |}.
Proof.
  assert (accepted alice_edit s1) as Hacc by (split; reflexivity).
  split; [exact Hacc|].
  exact (proj1 (proj2 (addOwner_then_lookup alice_edit true s1 (world []) Hacc))).
Defined.

(** X2: [alice] is added to ["s1"] and removed again. *)
Lemma addOwner_then_removeOwner_witness :
  accepted alice_edit s1
  ∧ (removeOwner "alice" false (addOwner alice_edit true s1 (world [])).1
       (world [])).1 = s1.
Proof.
  assert (accepted alice_edit s1) as Hacc by (split; reflexivity).
  split; [exact Hacc|].
  exact (addOwner_then_removeOwner alice_edit true false s1 (world []) (world []) Hacc).
Defined.

(** X3: adding [alice] a second time, and removing [bob] who has no entry. *)
Lemma owner_mutators_reject_silently_witness :
  ¬ accepted alice_edit s1_owned
  ∧ addOwner alice_edit true s1_owned (world []) = (s1_owned, world [])
  ∧ hasOwner "bob" s1_owned = false
  ∧ removeOwner "bob" true s1_owned (world []) = (s1_owned, world []).
Proof.
  assert (¬ accepted alice_edit s1_owned) as Hrej.
  { intros [_ Hn]. vm_compute in Hn. discriminate. }
  assert (hasOwner "bob" s1_owned = false) as Hbob by reflexivity.
  destruct (owner_mutators_reject_silently true s1_owned (world []))
    as (Hadd & _ & Hremove).
  split; [exact Hrej|]. split; [exact (Hadd alice_edit Hrej)|].
  split; [exact Hbob | exact (Hremove "bob" Hbob)].
Defined.

(** X4: [alice]'s entry is updated; the users are the same. *)
Lemma updateOwner_touches_one_entry_witness :
  applicable alice_blind s1_owned
  ∧ ownerNames (updateOwner alice_blind true s1_owned (world [])).1
    = ownerNames s1_owned.
Proof.
  assert (applicable alice_blind s1_owned) as Happ by (split; reflexivity).
  split; [exact Happ|].
  exact (proj1 (updateOwner_touches_one_entry alice_blind true s1_owned (world [])
                  Happ)).
Defined.

(** X5: a request without edit is stored as it is. *)
Lemma wellformed_request_stored_verbatim_witness :
  applicable alice_blind s1_owned
  ∧ editImpliesAll (u_access alice_blind)
  ∧ access <$> ownerEntry "alice" (updateOwner alice_blind true s1_owned (world [])).1
    = Some (u_access alice_blind)
  ∧ editImpliesAll publicVision
  ∧ defaultAccess (updateDefaultOwner publicVision true s1 (world [])).1
    = publicVision.
Proof.
  assert (applicable alice_blind s1_owned) as Happ by (split; reflexivity).
  assert (editImpliesAll (u_access alice_blind)) as Hreq by (vm_compute; discriminate).
  assert (editImpliesAll publicVision) as Hwf by (vm_compute; discriminate).
  split; [exact Happ|]. split; [exact Hreq|]. split.
  - exact (proj1 (wellformed_request_stored_verbatim true s1_owned (world []))
             alice_blind Happ Hreq).
  - split; [exact Hwf|].
    exact (proj2 (wellformed_request_stored_verbatim true s1 (world []))
             publicVision Hwf).
Defined.

(** X6: edit alone is requested as the default of ["s1"]. *)
Lemma granting_edit_stores_full_access_witness :
  edit (defaultAccess s1) = false
  ∧ defaultAccess
      (updateDefaultOwner {| edit := true; movement := false; vision := false |}
         true s1 (world [])).1
    = fullAccess.
Proof.
  split; [reflexivity|].
  exact (proj2 (granting_edit_stores_full_access true s1 (world []))
           {| edit := true; movement := false; vision := false |}
           eq_refl eq_refl).
Defined.

(** X7: [bob] joins [alice] on ["s1"]. *)
Lemma one_entry_per_user_kept_witness :
  NoDup (ownerNames s1_owned)
  ∧ NoDup (ownerNames (addOwner bob_vision true s1_owned (world [])).1).
Proof.
  assert (NoDup (ownerNames s1_owned)) as Hnd
    by (vm_compute; apply NoDup_singleton).
  split; [exact Hnd|].
  exact (proj1 (one_entry_per_user_kept true s1_owned (world []) Hnd) bob_vision).
Defined.

(** X8: [alice] is removed from ["s1"]. *)
Lemma removeOwner_removes_witness :
  NoDup (ownerNames s1_owned)
  ∧ hasOwner "alice" s1_owned = true
  ∧ hasOwner "alice" (removeOwner "alice" true s1_owned (world [])).1 = false.
Proof.
  assert (NoDup (ownerNames s1_owned)) as Hnd
    by (vm_compute; apply NoDup_singleton).
  split; [exact Hnd|]. split; [reflexivity|].
  exact (proj1 (removeOwner_removes "alice" true s1_owned (world []) Hnd eq_refl)).
Defined.

(** X9: a payload is applied to ["s1"]; nothing is emitted. *)
Lemma sync_false_emits_nothing_witness :
  ∃ this' env',
    fromDict json_parse known_layers payload_edit_only s1 (world [])
    = Some (this', env')
    ∧ emitted env' = emitted (world []).
Proof.
  assert (is_Some (known_layers (d_floor payload_edit_only)
                     (d_layer payload_edit_only))) as Hlayer
    by (vm_compute; eauto).
  destruct (fromDict_returns json_parse known_layers payload_edit_only s1 (world [])
              (options s1) Hlayer eq_refl) as (this' & env' & Hfrom & _).
  exists this', env'. split; [exact Hfrom|].
  exact (proj2 (proj2 (proj2 (proj2
           (sync_false_emits_nothing json_parse known_layers s1 (world [])))))
           payload_edit_only this' env' Hfrom).
Defined.

(** X10: the grant of the scenario is broadcast as stored. *)
Lemma sync_true_emits_stored_grant_witness :
  accepted alice_edit s1
  ∧ ∃ stored,
      ownerEntry "alice" (addOwner alice_edit true s1 (world [])).1 = Some stored
      ∧ emitted (addOwner alice_edit true s1 (world [])).2
        = emitted (world [])
          ++ [Emit "Shape.Owner.Add" (OwnerPayload (ownerToServer stored))].
Proof.
  assert (accepted alice_edit s1) as Hacc by (split; reflexivity).
  split; [exact Hacc|].
  exact (proj1 (sync_true_emits_stored_grant s1 (world [])) alice_edit Hacc).
Defined.

(** X11: with [fowLos] on, the scenario's grant asks for one light
    recomputation, and so does the removal of [alice]'s entry. *)
Lemma ownership_change_invalidates_light_witness :
  fowLos table = true
  ∧ accepted alice_edit s1
  ∧ lightInvalidations (addOwner alice_edit true s1 table).2
    = lightInvalidations table ++ [InvalidateLightAllFloors]
  ∧ hasOwner "alice" s1_owned = true
  ∧ lightInvalidations (removeOwner "alice" false s1_owned table).2
    = lightInvalidations table ++ [InvalidateLightAllFloors].
Proof.
  assert (accepted alice_edit s1) as Hacc by (split; reflexivity).
  split; [reflexivity|]. split; [exact Hacc|]. split.
  - exact (proj1 (ownership_change_invalidates_light true s1 table) alice_edit Hacc).
  - split; [reflexivity|].
    exact (proj1 (proj2 (proj2 (ownership_change_invalidates_light false s1_owned
                                  table))) "alice" eq_refl).
Defined.

(** X12: [alice] marks her shape as a token. *)
Lemma setIsToken_owned_tokens_witness :
  ownedBy wantsVision s1_owned (gameStore (world [])) = true
  ∧ NoDup (ownedtokens (gameStore (world [])))
  ∧ ("s1" ∈ ownedtokens (gameStore (setIsToken true s1_owned (world [])).2)
     ↔ true = true).
Proof.
  assert (NoDup (ownedtokens (gameStore (world [])))) as Hnd
    by (vm_compute; constructor).
  split; [reflexivity|]. split; [exact Hnd|].
  exact (proj1 (proj1 (proj2 (setIsToken_owned_tokens true s1_owned (world [])))
                  eq_refl Hnd)).
Defined.

(** X13: ["s1"] is opened for viewing by everybody. *)
Lemma updateDefaultOwner_owned_tokens_witness :
  vision (defaultAccess (updateDefaultOwner publicVision true s1 (world [])).1) = true
  ∧ "s1" ∈ ownedtokens
             (gameStore (updateDefaultOwner publicVision true s1 (world [])).2).
Proof.
  split; [reflexivity|].
  exact (proj1 (updateDefaultOwner_owned_tokens publicVision true s1 (world []))
           eq_refl).
Defined.

(** X14: [alice] plays with ["m1"] and ["s1"].  Her entry on ["s1"] loses
    vision, and ["s1"] leaves her tokens; her entry is removed, and ["s1"]
    leaves her tokens; [bob] is removed from a shape, and her tokens are as
    they were. *)
Lemma own_entry_change_updates_owned_tokens_witness :
  NoDup (ownedtokens (gameStore table))
  ∧ "s1" ∈ ownedtokens (gameStore table)
  ∧ applicable alice_blind s1_owned
  ∧ ("s1" ∉ ownedtokens (gameStore (updateOwner alice_blind true s1_owned table).2))
  ∧ ("s1" ∉ ownedtokens (gameStore (removeOwner "alice" true s1_owned table).2))
  ∧ ownedtokens (gameStore (removeOwner "bob" true s1_bob_vision table).2)
    = ["m1"; "s1"].
Proof.
  assert (NoDup (ownedtokens (gameStore table))) as Hnd.
  { apply NoDup_cons. split.
    - intros Hin%list_elem_of_singleton. discriminate Hin.
    - apply NoDup_singleton. }
  assert ("s1" ∈ ownedtokens (gameStore table)) as Hin
    by (apply elem_of_cons; right; by apply list_elem_of_singleton).
  assert (applicable alice_blind s1_owned) as Happ by (split; reflexivity).
  split; [exact Hnd|]. split; [exact Hin|]. split; [exact Happ|].
  split; [|split].
  - intros Hstays.
    apply (proj1 (proj1 (own_entry_change_updates_owned_tokens true s1_owned table
                           Hnd) alice_blind
                    {| shape := "s1"; user := "alice"; access := fullAccess |}
                    Happ eq_refl)) in Hstays; [discriminate | reflexivity | discriminate].
  - exact (proj1 (proj2 (own_entry_change_updates_owned_tokens true s1_owned table
                           Hnd) "alice" eq_refl) eq_refl).
  - apply (proj2 (proj2 (own_entry_change_updates_owned_tokens true s1_bob_vision
                           table Hnd) "bob" eq_refl)). discriminate.
Defined.

(** X15: [alice] plays with ["m1"] and ["s1"]; her entry on ["s1"] loses
    vision and ["s1"] is taken out of her tokens. *)
Lemma owned_tokens_stay_duplicate_free_witness :
  NoDup (ownedtokens (gameStore table))
  ∧ ownedtokens (gameStore (updateOwner alice_blind true s1_owned table).2) = ["m1"]
  ∧ NoDup (ownedtokens (gameStore (updateOwner alice_blind true s1_owned table).2))
  ∧ ownedtokens
      (gameStore (updateDefaultOwner publicVision true s2 table).2)
    = ["m1"; "s1"; "s2"]
  ∧ NoDup (ownedtokens
             (gameStore
                (updateDefaultOwner publicVision true s2 table).2)).
Proof.
  assert (NoDup (ownedtokens (gameStore table))) as Hnd.
  { apply NoDup_cons. split.
    - intros Hin%list_elem_of_singleton. discriminate Hin.
    - apply NoDup_singleton. }
  destruct (owned_tokens_stay_duplicate_free true s1_owned table Hnd)
    as (Hupdate & _ & _).
  destruct (owned_tokens_stay_duplicate_free true s2 table Hnd)
    as (_ & _ & Hdefault).
  split; [exact Hnd|]. split; [reflexivity|]. split; [exact (Hupdate alice_blind)|].
  split; [reflexivity | exact (Hdefault publicVision)].
Defined.

(** X17: [alice], who may edit her shape, may see and move it. *)
Lemma edit_ownership_implies_vision_and_movement_witness :
  grantsWellFormed s1_owned
  ∧ ownedBy wantsEdit s1_owned (session "alice") = true
  ∧ ownedBy wantsVision s1_owned (session "alice") = true
  ∧ ownedBy wantsMovement s1_owned (session "alice") = true.
Proof.
  assert (grantsWellFormed s1_owned) as Hwf.
  { split; [done|]. apply Forall_singleton. done. }
  split; [exact Hwf|]. split; [reflexivity|].
  exact (edit_ownership_implies_vision_and_movement s1_owned (session "alice")
           Hwf eq_refl).
Defined.

(** X18: the scenario's grant makes [alice] an owner for editing. *)
Lemma ownedBy_follows_own_entry_witness :
  accepted alice_edit s1
  ∧ grantsAll editOnly (grantedAccess (n_access alice_edit))
  ∧ ownedBy editOnly (addOwner alice_edit true s1 (world [])).1 (session "alice")
    = true.
Proof.
  assert (accepted alice_edit s1) as Hacc by (split; reflexivity).
  assert (grantsAll editOnly (grantedAccess (n_access alice_edit))) as Hg
    by (split; [|split]; reflexivity).
  split; [exact Hacc|]. split; [exact Hg|].
  exact (proj1 (ownedBy_follows_own_entry editOnly true s1 (world [])
                  (session "alice")) alice_edit Hacc eq_refl Hg).
Defined.

(** X19: ["s1"] carries a torch; after the call the torch is registered. *)
Lemma checkVisionSources_registers_sources_witness :
  NoDup (aura_uuid <$> auras s1_torch)
  ∧ NoDup (vs_aura <$> getVisionSources (_floor s1_torch) (world []))
  ∧ Forall
      (settled
         (getVisionSources (_floor s1_torch)
            (checkVisionSources true s1_torch (world [])).2))
      (auras s1_torch).
Proof.
  assert (NoDup (aura_uuid <$> auras s1_torch)) as Ha
    by (vm_compute; apply NoDup_singleton).
  assert (NoDup (vs_aura <$> getVisionSources (_floor s1_torch) (world [])))
    as Hs by (vm_compute; constructor).
  split; [exact Ha|]. split; [exact Hs|].
  exact (proj1 (proj2 (checkVisionSources_registers_sources true s1_torch (world [])))
           Ha Hs).
Defined.

(** X21: the floor ["upper"] is not the floor of ["s1"]. *)
Lemma obstruction_bookkeeping_frame_witness :
  "upper" ≠ _floor s1_torch_wall
  ∧ getBlockers VISION "upper" (checkVisionSources true s1_torch_wall (world [])).2
    = getBlockers VISION "upper" (world []).
Proof.
  assert ("upper" ≠ _floor s1_torch_wall) as Hne by (vm_compute; discriminate).
  split; [exact Hne|].
  destruct (obstruction_bookkeeping_frame true s1_torch_wall (world []))
    as [(_ & _ & _ & _ & Hfloor & _) _].
  exact (proj1 (Hfloor "upper" Hne)).
Defined.

(** X22: ["s1"] starts blocking movement, twice. *)
Lemma setMovementBlock_reports_change_witness :
  NoDup (getBlockers MOVEMENT (_floor s1) (world []))
  ∧ ("s1" ∈ getBlockers MOVEMENT "ground" (setMovementBlock true true s1 (world [])).2
     ↔ true = true).
Proof.
  assert (NoDup (getBlockers MOVEMENT (_floor s1) (world []))) as Hnd
    by (vm_compute; constructor).
  split; [exact Hnd|].
  exact (proj1 (proj2 (setMovementBlock_reports_change true true true s1 (world []))
                  Hnd)).
Defined.

(** X23: ["m1"] resolves to the group of its leader ["s1"]. *)
Lemma member_resolves_to_leaders_group_witness :
  Map_get "groupId" (options m1) = Some (JStr "s1")
  ∧ "s1" ≠ uuid m1
  ∧ UUIDMap (world [leader; m1]) !! "s1" = Some leader
  ∧ Map_get "groupInfo" (options leader) = Some (JArr (JStr <$> ["m1"; "gone"]))
  ∧ getGroupMembers m1 (world [leader; m1])
    = Some (leader :: existingMembers (world [leader; m1]) ["m1"; "gone"]).
Proof.
  assert ("s1" ≠ uuid m1) as Hne by (vm_compute; discriminate).
  assert (UUIDMap (world [leader; m1]) !! "s1" = Some leader) as Hreg
    by (vm_compute; reflexivity).
  split; [reflexivity|]. split; [exact Hne|]. split; [exact Hreg|].
  split; [reflexivity|].
  exact (proj1 (member_resolves_to_leaders_group m1 leader (world [leader; m1])
                  "s1" ["m1"; "gone"] eq_refl Hne Hreg eq_refl)).
Defined.

(** X24: the leader of ["s1"] is not registered; group data that is not an
    array. *)
Lemma getGroupMembers_dangling_or_malformed_witness :
  namesNoShape (JStr "leader") (world [])
  ∧ getGroupMembers s1_member (world []) = Some [s1_member]
  ∧ getGroupMembers s1_malformed (world []) = None.
Proof.
  assert (namesNoShape (JStr "leader") (world [])) as Hno
    by (vm_compute; reflexivity).
  assert (JStr "leader" ≠ JStr (uuid s1_member)) as Hne
    by (vm_compute; discriminate).
  split; [exact Hno|]. split.
  - exact (proj1 (getGroupMembers_dangling_or_malformed s1_member (world []))
             (JStr "leader") eq_refl Hne Hno).
  - exact (proj2 (proj2 (getGroupMembers_dangling_or_malformed s1_malformed (world [])))
             (JStr "m1") eq_refl eq_refl eq_refl).
Defined.

(** X25: a payload without options and annotation, on a layer the layer
    manager knows, and the payload of a shape that is on none. *)
Lemma fromDict_falsy_fields_keep_receiver_witness :
  is_Some (known_layers (d_floor payload_edit_only) (d_layer payload_edit_only))
  ∧ falsy (d_options payload_edit_only)
  ∧ (∃ this' env',
       fromDict json_parse known_layers payload_edit_only s1_member (world [])
       = Some (this', env')
       ∧ options this' = options s1_member)
  ∧ known_layers (d_floor (getBaseDict json_text s1_new))
      (d_layer (getBaseDict json_text s1_new)) = None
  ∧ fromDict json_parse known_layers (getBaseDict json_text s1_new) s1 (world [])
    = None.
Proof.
  assert (is_Some (known_layers (d_floor payload_edit_only)
                     (d_layer payload_edit_only))) as Hlayer
    by (vm_compute; eauto).
  assert (falsy (d_options payload_edit_only)) as Hf by reflexivity.
  assert (known_layers (d_floor (getBaseDict json_text s1_new))
            (d_layer (getBaseDict json_text s1_new)) = None) as Hnone by reflexivity.
  split; [exact Hlayer|]. split; [exact Hf|]. split.
  - destruct (proj1 (fromDict_falsy_fields_keep_receiver json_parse known_layers
                       payload_edit_only s1_member (world [])) Hlayer Hf)
      as (this' & env' & Hfrom & Ho & _).
    exists this', env'. split; [exact Hfrom | exact Ho].
  - split; [exact Hnone|].
    exact (proj2 (fromDict_falsy_fields_keep_receiver json_parse known_layers
                    (getBaseDict json_text s1_new) s1 (world [])) Hnone).
Defined.

(** X26: ["s1"] as a group member receives its own payload. *)
Lemma fromDict_own_payload_witness :
  is_Some (known_layers (_floor s1_member) (_layer s1_member))
  ∧ editImpliesAll (defaultAccess s1_member)
  ∧ stringKeyed (options s1_member)
  ∧ json_parse (json_text (entriesToJson (options s1_member)))
    = Some (entriesToJson (options s1_member))
  ∧ ∃ env',
      fromDict json_parse known_layers (getBaseDict json_text s1_member) s1_member
        (world [])
      = Some (s1_member, env').
Proof.
  assert (is_Some (known_layers (_floor s1_member) (_layer s1_member))) as Hlayer
    by (vm_compute; eauto).
  assert (editImpliesAll (defaultAccess s1_member)) as H1 by (vm_compute; discriminate).
  assert (stringKeyed (options s1_member)) as H2.
  { split; [|vm_compute; apply NoDup_singleton].
    apply Forall_singleton. by eexists _, _. }
  assert (json_parse (json_text (entriesToJson (options s1_member)))
          = Some (entriesToJson (options s1_member))) as H3 by (vm_compute; reflexivity).
  split; [exact Hlayer|]. split; [exact H1|]. split; [exact H2|]. split; [exact H3|].
  exact (fromDict_own_payload json_text json_parse known_layers s1_member (world [])
           Hlayer H1 H2 H3).
Defined.

(** X27: an event for ["s1"] on the unknown layer ["fog"]. *)
Lemma handlers_reject_unknown_layer_witness :
  is_Some (UUIDMap (client_env client) !! d_uuid stray_event)
  ∧ hasLayer (d_layer stray_event) client = false
  ∧ on_remove_shape inert_removeShape inert_invalidate stray_event client
    = console_log "Attempted to remove shape from an unknown layer fog" client.
Proof.
  assert (is_Some (UUIDMap (client_env client) !! d_uuid stray_event)) as Hreg
    by (vm_compute; eauto).
  assert (hasLayer (d_layer stray_event) client = false) as Hlayer
    by (vm_compute; reflexivity).
  split; [exact Hreg|]. split; [exact Hlayer|].
  exact (proj1 (handlers_reject_unknown_layer inert_removeShape inert_invalidate
                  inert_moveShapeOrder stray_event 0 client Hreg Hlayer)).
Defined.

(** X28: two events for a shape the client has never seen. *)
Lemma clear_temporaries_all_unknown_witness :
  Forall (λ shape, UUIDMap (client_env client) !! d_uuid shape = None)
    [ghost_event; ghost_event]
  ∧ effects
      (client_env
         (on_clear_temporaries inert_removeShape [ghost_event; ghost_event] client))
    = effects (client_env client)
      ++ replicate 2 (ConsoleLog "Attempted to remove an unknown temporary shape").
Proof.
  assert (Forall (λ shape, UUIDMap (client_env client) !! d_uuid shape = None)
            [ghost_event; ghost_event]) as Hall.
  { apply Forall_cons. split; [vm_compute; reflexivity|].
    apply Forall_singleton. vm_compute. reflexivity. }
  split; [exact Hall|].
  exact (proj2 (clear_temporaries_all_unknown inert_removeShape
                  [ghost_event; ghost_event] client Hall)).
Defined.

(** X29: ["s1"] is registered on the unknown layer ["fog"] and the event
    names the known layer ["tokens"]. *)
Lemma on_moveShapeOrder_raises_iff_witness :
  UUIDMap (client_env client_astray) !! d_uuid (getBaseDict json_text s1)
  = Some (setLayer "ground" "fog" s1)
  ∧ hasLayer (d_layer (getBaseDict json_text s1)) client_astray = true
  ∧ hasLayer (_layer (setLayer "ground" "fog" s1)) client_astray = false
  ∧ on_moveShapeOrder inert_moveShapeOrder (getBaseDict json_text s1) 0 client_astray
    = None.
Proof.
  assert (UUIDMap (client_env client_astray) !! d_uuid (getBaseDict json_text s1)
          = Some (setLayer "ground" "fog" s1)) as Hreg by (vm_compute; reflexivity).
  assert (hasLayer (d_layer (getBaseDict json_text s1)) client_astray = true) as He
    by (vm_compute; reflexivity).
  assert (hasLayer (_layer (setLayer "ground" "fog" s1)) client_astray = false) as Hr
    by (vm_compute; reflexivity).
  split; [exact Hreg|]. split; [exact He|]. split; [exact Hr|].
  apply (proj1 (on_moveShapeOrder_raises_iff inert_moveShapeOrder
                  (getBaseDict json_text s1) 0 client_astray)).
  exists (setLayer "ground" "fog" s1). split; [exact Hreg|]. split; [exact He | exact Hr].
Defined.
